(** * Cook Tap: the recipe / order / station state machine

    A shallow embedding of the game core found in [js/dish-system.js],
    [js/cooking-stations.js], the order system and [js/game.js], followed by
    the properties of the kitchen specification that were checked against it.

    Conventions of the embedding.
    - Every JavaScript object that is mutated in place is a record that the
      functions below take and give back (explicit state passing).  A function
      [f] of the source that returns a value and mutates [this] has type
      [... -> state -> result * state].
    - A JavaScript [Map] whose iteration order the program observes is a
      [JsMap.t]: an association list kept in insertion order, with the
      [get]/[has]/[set]/[delete] of [Map].  Maps and sets that are only probed
      by key ([ingredientStates], [currentIngredients], the ingredient and tool
      tables) are stdpp's [gmap] and [gset].
    - [Date.now()] is the field [clock] of the game; timers ([setTimeout],
      [setInterval]) are commands of the event loop, see [Command].
    - Integral numbers are [Z] or [nat].  A number that need not be integral
      (an order's time limit, which the source draws with [Math.random()], a
      ratio, an average) is the rational [Q] that the double has as its value.
      The sum of [spawnOrder], the product of [new Order] and the quotients
      and the product of [completeOrder] and [getStats] are rounded to the
      nearest double, see [JsNumber.roundDouble]; the countdown of an order
      ([getRemainingTime], [getUrgencyLevel]) is taken exactly on the stored
      time limit.
    - A call that throws is a [Completion]: the error, with the state the
      call had reached.
    - The DOM (elements, class lists, feedback pop-ups, console output), the
      key tables of the input handler and the displayed [gameTime] counter are
      not part of the state; a [Command] stands for the call the input handler
      or a timer makes. *)

From Stdlib Require Import ZArith QArith Qround Qpower Qabs Lqa.
From stdpp Require Import gmap strings list fin_maps.

(** ** Insertion-ordered maps ([Map] of JavaScript) *)

Module JsMap.
Section Ops.
Context {K V : Type} `{EqDecision K}.

Definition t : Type := list (K * V).

Definition empty : list (K * V) := [].

Fixpoint get (k : K) (m : list (K * V)) : option V :=
  match m with
  | [] => None
  | (k', v) :: rest => if decide (k = k') then Some v else get k rest
  end.

Definition has (k : K) (m : list (K * V)) : bool :=
  match get k m with Some _ => true | None => false end.

(** [Map.prototype.set]: an existing key keeps its position. *)
Fixpoint set (k : K) (v : V) (m : list (K * V)) : list (K * V) :=
  match m with
  | [] => [(k, v)]
  | (k', v') :: rest =>
      if decide (k = k') then (k, v) :: rest else (k', v') :: set k v rest
  end.

Fixpoint delete (k : K) (m : list (K * V)) : list (K * V) :=
  match m with
  | [] => []
  | (k', v') :: rest =>
      if decide (k = k') then rest else (k', v') :: delete k rest
  end.

Definition keys (m : list (K * V)) : list K := m.*1.
Definition values (m : list (K * V)) : list V := m.*2.
Definition size (m : list (K * V)) : nat := length m.
End Ops.
End JsMap.

(** ** Numbers ([number] of JavaScript)

    A finite double is the rational it stands for.  The result of an
    operation is the exact result rounded to the nearest double, a tie going
    to the double with an even significand.  The numbers of the game are far
    from the ends of the exponent range of a double, which is therefore not
    modelled: no result overflows to an infinity or is a subnormal. *)

Module JsNumber.

(** [floor (log2 |q|)] of a rational other than 0. *)
Definition exponentOf (q : Q) : Z :=
  let e := (Z.log2 (Z.abs (Qnum q)) - Z.log2 (Zpos (Qden q)))%Z in
  if Qle_bool (2 ^ e) (Qabs q) then e else (e - 1)%Z.

(** The nearest integer, a tie going to the even one. *)
Definition roundEven (q : Q) : Z :=
  let f := Qfloor q in
  match (q - inject_Z f ?= 1 # 2)%Q with
  | Lt => f
  | Gt => (f + 1)%Z
  | Eq => if Z.even f then f else (f + 1)%Z
  end.

(** The nearest double: the nearest multiple of [2 ^ (e - 52)], where
    [2 ^ e <= |q| < 2 ^ (e + 1)]; a significand has 53 bits. *)
Definition roundDouble (q : Q) : Q :=
  if Qeq_bool q 0 then 0%Q
  else
    let ulp := (2 ^ (exponentOf q - 52))%Q in
    Qred (inject_Z (roundEven (q / ulp)) * ulp).

(** The value of [a / b]: the rounded quotient, and an infinity or [NaN]
    when the divisor is 0. *)
Inductive Quotient := Finite (q : Q) | PosInfinity | NegInfinity | NaN.

Definition div (a b : Q) : Quotient :=
  if Qeq_bool b 0 then
    match (a ?= 0)%Q with
    | Gt => PosInfinity
    | Lt => NegInfinity
    | Eq => NaN
    end
  else Finite (roundDouble (a / b)).

(** [x > c]. *)
Definition gt (x : Quotient) (c : Q) : bool :=
  match x with
  | Finite q => negb (Qle_bool q c)
  | PosInfinity => true
  | NegInfinity | NaN => false
  end.

End JsNumber.

Arguments JsNumber.roundDouble : simpl never.

(** ** Calls that throw

    What a call evaluates to: the value it returns, or the error it throws
    after the effects it had up to there. *)

Inductive JsError := TypeError.

Inductive Completion (A : Type) :=
| Returns (a : A)
| Throws (e : JsError).

Arguments Returns {A} a.
Arguments Throws {A} e.

(** ** Data model *)

(** An entry of [prepSteps] or [finalSteps]. *)
Record Step := mkStep {
  step_action : string;
  step_description : string;
  step_station : option string;
  step_time : option Z;
  step_key : string
}.

(** An entry of a dish's [ingredients] array.  Every recipe of the catalog
    carries a [prepSteps] array, so the field is a list. *)
Record IngredientSpec := mkIngredientSpec {
  ing_id : string;
  ing_required : bool;
  ing_prepSteps : list Step
}.

(** A value of [dish.ingredientStates]. *)
Record IngredientState := mkIngredientState {
  added : bool;
  prepStepsCompleted : nat;
  isReady : bool
}.

(** A value of [DishSystem.dishes]: the recipe and, on the same object, the
    progress of the dish being cooked. *)
Record Dish := mkDish {
  dish_id : string;
  dish_name : string;
  dish_station : string;
  dish_baseColor : string;
  dish_ingredients : list IngredientSpec;
  dish_finalSteps : list Step;
  dish_difficulty : Z;
  dish_prepTime : Z;
  currentIngredients : gset string;
  ingredientStates : gmap string IngredientState;
  finalStepsProgress : nat;
  isComplete : bool
}.

(** A value of [DishSystem.ingredients] and of [DishSystem.tools]. *)
Record Item := mkItem {
  item_id : string;
  item_name : string;
  item_type : string;
  item_color : string;
  item_key : string;
  item_className : string
}.

(** A value of [DishSystem.cookingStations]; [cookingSlots] is absent for the
    prep station. *)
Record StationConfig := mkStationConfig {
  cfg_name : string;
  cfg_allowedActions : list string;
  cfg_color : string;
  cfg_cookingSlots : option nat
}.

Record DishSystem := mkDishSystem {
  dishes : list (string * Dish);
  ingredients : gmap string Item;
  tools : gmap string Item;
  cookingStations : list (string * StationConfig)
}.

(** A value of [CookingStation.currentItems]. *)
Record CookingItem := mkCookingItem {
  ci_name : string;
  ci_action : string;
  ci_ingredient : string;
  ci_cookingTime : Z;
  ci_startTime : Z;
  ci_isReady : bool
}.

Record CookingStation := mkCookingStation {
  st_id : string;
  st_name : string;
  st_allowedActions : list string;
  st_color : string;
  st_cookingSlots : nat;
  st_currentItems : list (nat * CookingItem);
  st_isActive : bool
}.

(** [activeStation] points at one of the objects held by [stations]; it is
    kept as that station's key. *)
Record CookingStationManager := mkManager {
  stations : list (string * CookingStation);
  activeStation : option string;
  currentDish : option string
}.

Inductive Rating := perfect | good | average | bad | failed.

Record Order := mkOrder {
  order_id : string;
  order_dishId : string;
  order_dishName : string;
  order_timeLimit : Q;          (* milliseconds *)
  order_createdAt : Z;
  order_isComplete : bool;
  order_isActive : bool;
  order_rating : option Rating
}.

Record OrderSystem := mkOrderSystem {
  activeOrders : list (string * Order);
  completedOrders : list Order;
  maxActiveOrders : nat;
  os_isRunning : bool;
  totalScore : Z;
  ordersCompleted : Z;
  perfectOrders : Z
}.

Record Game := mkGame {
  dishSystem : DishSystem;
  cookingStationManager : CookingStationManager;
  orderSystem : OrderSystem;
  isRunning : bool;
  clock : Z
}.

(** ** DishSystem ([js/dish-system.js]) *)

Module DishSystemOps.

Definition addIngredient (id name type color key : string) (ds : DishSystem)
  : DishSystem :=
  mkDishSystem (dishes ds)
    (<[id := mkItem id name type color key ("ingredient-" +:+ type)]>
       (ingredients ds))
    (tools ds) (cookingStations ds).

Definition addTool (id name type color key : string) (ds : DishSystem)
  : DishSystem :=
  mkDishSystem (dishes ds) (ingredients ds)
    (<[id := mkItem id name type color key ("tool-" +:+ type)]> (tools ds))
    (cookingStations ds).

Definition setCookingStation (id : string) (cfg : StationConfig)
  (ds : DishSystem) : DishSystem :=
  mkDishSystem (dishes ds) (ingredients ds) (tools ds)
    (JsMap.set id cfg (cookingStations ds)).

(** [dishData] is spread into the entry next to the four progress fields. *)
Definition addDish (id name station baseColor : string)
  (ings : list IngredientSpec) (final : list Step) (difficulty prepTime : Z)
  (ds : DishSystem) : DishSystem :=
  mkDishSystem
    (JsMap.set id
       (mkDish id name station baseColor ings final difficulty prepTime
          ∅ ∅ 0 false)
       (dishes ds))
    (ingredients ds) (tools ds) (cookingStations ds).

Definition initializeIngredients (ds : DishSystem) : DishSystem :=
  fold_left (fun acc '(id, name, type, color, key) =>
               addIngredient id name type color key acc)
    [ ("beef_patty", "Beef Patty", "meat", "#ffcccb", "b");
      ("chicken_breast", "Chicken Breast", "meat", "#ffcccb", "c");
      ("bacon", "Bacon", "meat", "#ffcccb", "n");
      ("lettuce", "Lettuce", "vegetable", "#90ee90", "l");
      ("tomato", "Tomato", "vegetable", "#90ee90", "t");
      ("onion", "Onion", "vegetable", "#90ee90", "o");
      ("pickles", "Pickles", "vegetable", "#90ee90", "p");
      ("mushrooms", "Mushrooms", "vegetable", "#90ee90", "m");
      ("bell_pepper", "Bell Pepper", "vegetable", "#90ee90", "e");
      ("cheese", "Cheese", "dairy", "#fffacd", "h");
      ("mozzarella", "Mozzarella", "dairy", "#fffacd", "z");
      ("butter", "Butter", "dairy", "#fffacd", "u");
      ("burger_bun", "Burger Bun", "grain", "#daa520", "j");
      ("pizza_dough", "Pizza Dough", "grain", "#daa520", "d");
      ("pasta", "Pasta", "grain", "#daa520", "a");
      ("ketchup", "Ketchup", "sauce", "#ff6347", "k");
      ("mustard", "Mustard", "sauce", "#ff6347", "y");
      ("mayo", "Mayo", "sauce", "#ff6347", "w");
      ("tomato_sauce", "Tomato Sauce", "sauce", "#ff6347", "s");
      ("salt", "Salt", "seasoning", "#dda0dd", "i");
      ("pepper", "Pepper", "seasoning", "#dda0dd", "r");
      ("oregano", "Oregano", "seasoning", "#dda0dd", "g") ]
    ds.

Definition initializeTools (ds : DishSystem) : DishSystem :=
  fold_left (fun acc '(id, name, type, color, key) =>
               addTool id name type color key acc)
    [ ("chop", "Chop", "cut", "#c0c0c0", "x");
      ("slice", "Slice", "cut", "#c0c0c0", "v");
      ("grill", "Grill", "cook", "#ffa500", "q");
      ("fry", "Deep Fry", "cook", "#ffa500", "f");
      ("boil", "Boil", "cook", "#ffa500", ",");
      ("bake", "Bake", "cook", "#ffa500", ".");
      ("mix", "Mix", "mix", "#87ceeb", ";");
      ("toss", "Toss", "mix", "#87ceeb", "'");
      ("assemble", "Assemble", "mix", "#87ceeb", "[");
      ("plate", "Plate", "serve", "#98fb98", "space") ]
    ds.

Definition initializeCookingStations (ds : DishSystem) : DishSystem :=
  setCookingStation "stove"
    (mkStationConfig "Stove Station" ["boil"; "bake"] "#6f42c1" (Some 4))
  (setCookingStation "fryer"
    (mkStationConfig "Deep Fryer" ["fry"] "#ffc107" (Some 2))
  (setCookingStation "grill"
    (mkStationConfig "Grill Station" ["grill"] "#fd7e14" (Some 3))
  (setCookingStation "prep"
    (mkStationConfig "Prep Station"
       ["chop"; "slice"; "mix"; "toss"; "assemble"; "plate"] "#28a745" None)
    ds))).

(** A step done at the prep station, and a timed step at a cooking station. *)
Definition prepStep (action description key : string) : Step :=
  mkStep action description None None key.
Definition cookStep (action description station : string) (time : Z)
  (key : string) : Step :=
  mkStep action description (Some station) (Some time) key.

Definition plateStep : Step := prepStep "plate" "Plate and serve" "space".

Definition initializeDishes (ds : DishSystem) : DishSystem :=
  addDish "pasta_marinara" "Pasta Marinara" "prep" "#ffb3ff"
    [ mkIngredientSpec "pasta" true
        [cookStep "boil" "Boil pasta" "stove" 6000 ","];
      mkIngredientSpec "tomato_sauce" true [];
      mkIngredientSpec "oregano" false [];
      mkIngredientSpec "cheese" false [] ]
    [ prepStep "mix" "Mix pasta with sauce" ";"; plateStep ] 2 40
  (addDish "caesar_salad" "Caesar Salad" "prep" "#baffc9"
    [ mkIngredientSpec "lettuce" true [prepStep "chop" "Chop lettuce" "x"];
      mkIngredientSpec "chicken_breast" true
        [ cookStep "grill" "Grill chicken" "grill" 4000 "q";
          prepStep "slice" "Slice chicken" "v" ];
      mkIngredientSpec "cheese" false [];
      mkIngredientSpec "mayo" false [] ]
    [ prepStep "toss" "Toss salad" "'"; plateStep ] 3 50
  (addDish "fried_chicken" "Fried Chicken" "prep" "#ffffba"
    [ mkIngredientSpec "chicken_breast" true
        [cookStep "fry" "Fry chicken" "fryer" 5000 "f"];
      mkIngredientSpec "salt" true [];
      mkIngredientSpec "pepper" true [] ]
    [ plateStep ] 2 35
  (addDish "margherita_pizza" "Margherita Pizza" "prep" "#ffdfba"
    [ mkIngredientSpec "pizza_dough" true [];
      mkIngredientSpec "tomato_sauce" true [prepStep "mix" "Mix sauce" ";"];
      mkIngredientSpec "mozzarella" true [];
      mkIngredientSpec "oregano" false [] ]
    [ cookStep "bake" "Bake pizza" "stove" 8000 "."; plateStep ] 3 60
  (addDish "classic_burger" "Classic Burger" "prep" "#ffb3ba"
    [ mkIngredientSpec "burger_bun" true
        [prepStep "slice" "Slice bun in half" "v"];
      mkIngredientSpec "beef_patty" true
        [cookStep "grill" "Grill patty" "grill" 3000 "q"];
      mkIngredientSpec "lettuce" false [prepStep "chop" "Chop lettuce" "x"];
      mkIngredientSpec "tomato" false [prepStep "slice" "Slice tomato" "v"];
      mkIngredientSpec "cheese" false [];
      mkIngredientSpec "pickles" false [];
      mkIngredientSpec "ketchup" false [];
      mkIngredientSpec "mustard" false [] ]
    [ prepStep "assemble" "Assemble burger" "["; plateStep ] 2 45
    ds)))).

(** [new DishSystem()]. *)
Definition create : DishSystem :=
  initializeDishes
    (initializeCookingStations
       (initializeTools
          (initializeIngredients (mkDishSystem [] ∅ ∅ [])))).

Definition getDish (id : string) (ds : DishSystem) : option Dish :=
  JsMap.get id (dishes ds).

Definition getAllDishes (ds : DishSystem) : list Dish :=
  JsMap.values (dishes ds).

Definition getIngredient (id : string) (ds : DishSystem) : option Item :=
  ingredients ds !! id.

Definition getTool (id : string) (ds : DishSystem) : option Item :=
  tools ds !! id.

Definition getCookingStation (id : string) (ds : DishSystem)
  : option StationConfig :=
  JsMap.get id (cookingStations ds).

(** The four progress fields of a dish entry are assigned in place; the
    entry keeps its key and its position in [dishes]. *)
Definition withProgress (d : Dish) (cur : gset string)
  (sts : gmap string IngredientState) (fin : nat) (complete : bool) : Dish :=
  mkDish (dish_id d) (dish_name d) (dish_station d) (dish_baseColor d)
    (dish_ingredients d) (dish_finalSteps d) (dish_difficulty d)
    (dish_prepTime d) cur sts fin complete.

Definition putDish (dishId : string) (d : Dish) (ds : DishSystem)
  : DishSystem :=
  mkDishSystem (JsMap.set dishId d (dishes ds)) (ingredients ds) (tools ds)
    (cookingStations ds).

Definition addIngredientToDish (dishId ingredientId : string)
  (ds : DishSystem) : bool * DishSystem :=
  match getDish dishId ds with
  | None => (false, ds)
  | Some dish =>
      match List.find (fun ing => String.eqb (ing_id ing) ingredientId)
              (dish_ingredients dish) with
      | None => (false, ds)
      | Some ingredient =>
          if bool_decide (ingredientId ∈ currentIngredients dish)
          then (false, ds)
          else
            (true,
             putDish dishId
               (withProgress dish
                  ({[ingredientId]} ∪ currentIngredients dish)
                  (<[ingredientId :=
                       mkIngredientState true 0
                         (Nat.eqb (length (ing_prepSteps ingredient)) 0)]>
                     (ingredientStates dish))
                  (finalStepsProgress dish) (isComplete dish))
               ds)
      end
  end.

(** The [for ... of dish.ingredients] loop of [useToolOnDish]: [None] when
    the loop ends without a [break], otherwise the states after the one
    increment. *)
Fixpoint prepLoop (toolId : string) (cur : gset string)
  (sts : gmap string IngredientState) (ings : list IngredientSpec)
  : option (gmap string IngredientState) :=
  match ings with
  | [] => None
  | ingredient :: rest =>
      if negb (bool_decide (ing_id ingredient ∈ cur))
      then prepLoop toolId cur sts rest
      else
        match sts !! ing_id ingredient with
        | None => prepLoop toolId cur sts rest
        | Some ingredientState =>
            if isReady ingredientState then prepLoop toolId cur sts rest
            else
              match ing_prepSteps ingredient
                    !! prepStepsCompleted ingredientState with
              | Some currentPrepStep =>
                  if String.eqb (step_action currentPrepStep) toolId
                  then
                    let n := S (prepStepsCompleted ingredientState) in
                    Some (<[ing_id ingredient :=
                              mkIngredientState (added ingredientState) n
                                (if Nat.leb
                                      (length (ing_prepSteps ingredient)) n
                                 then true
                                 else isReady ingredientState)]> sts)
                  else prepLoop toolId cur sts rest
              | None => prepLoop toolId cur sts rest
              end
        end
  end.

Definition useToolOnDish (dishId toolId : string) (ds : DishSystem)
  : bool * DishSystem :=
  match getDish dishId ds with
  | None => (false, ds)
  | Some dish =>
      match prepLoop toolId (currentIngredients dish)
              (ingredientStates dish) (dish_ingredients dish) with
      | Some sts' =>
          (true,
           putDish dishId
             (withProgress dish (currentIngredients dish) sts'
                (finalStepsProgress dish) (isComplete dish))
             ds)
      | None =>
          match dish_finalSteps dish !! finalStepsProgress dish with
          | Some currentFinalStep =>
              if String.eqb (step_action currentFinalStep) toolId
              then
                let n := S (finalStepsProgress dish) in
                (true,
                 putDish dishId
                   (withProgress dish (currentIngredients dish)
                      (ingredientStates dish) n
                      (if Nat.leb (length (dish_finalSteps dish)) n
                       then true
                       else isComplete dish))
                   ds)
              else (false, ds)
          | None => (false, ds)
          end
      end
  end.

(** The check made on one required ingredient by [isDishValid]. *)
Definition ingredientOk (dish : Dish) (ingredient : IngredientSpec) : bool :=
  if negb (bool_decide (ing_id ingredient ∈ currentIngredients dish))
  then false
  else
    match ingredientStates dish !! ing_id ingredient with
    | None => false
    | Some ingredientState => isReady ingredientState
    end.

Definition isDishValid (dishId : string) (ds : DishSystem) : bool :=
  match getDish dishId ds with
  | None => false
  | Some dish =>
      forallb (ingredientOk dish)
        (List.filter (fun ing => ing_required ing) (dish_ingredients dish))
  end.

Definition resetDish (dishId : string) (ds : DishSystem)
  : bool * DishSystem :=
  match getDish dishId ds with
  | None => (false, ds)
  | Some dish => (true, putDish dishId (withProgress dish ∅ ∅ 0 false) ds)
  end.

End DishSystemOps.

(** Truthiness of a JavaScript string: the empty string is falsy. *)
Definition truthy (s : string) : bool :=
  match s with EmptyString => false | String _ _ => true end.

(** ** CookingStation and CookingStationManager ([js/cooking-stations.js]) *)

Module Station.

(** [new CookingStation(id, config)]; [config.cookingSlots || 1]. *)
Definition create (id : string) (config : StationConfig) : CookingStation :=
  mkCookingStation id (cfg_name config) (cfg_allowedActions config)
    (cfg_color config)
    (match cfg_cookingSlots config with
     | Some (S n) => S n
     | Some 0 | None => 1
     end)
    [] false.

Definition withItems (st : CookingStation) (items : list (nat * CookingItem))
  : CookingStation :=
  mkCookingStation (st_id st) (st_name st) (st_allowedActions st)
    (st_color st) (st_cookingSlots st) items (st_isActive st).

Definition withActive (st : CookingStation) (b : bool) : CookingStation :=
  mkCookingStation (st_id st) (st_name st) (st_allowedActions st)
    (st_color st) (st_cookingSlots st) (st_currentItems st) b.

(** [addItem(slotIndex, item)], [item] being the literal built by
    [handleCookingAction]; the timer it starts is the command
    [CookingTimer]. *)
Definition addItem (now : Z) (slotIndex : nat)
  (name action ingredient : string) (cookingTime : Z) (st : CookingStation)
  : bool * CookingStation :=
  if Nat.leb (st_cookingSlots st) slotIndex then (false, st)
  else
    (true,
     withItems st
       (JsMap.set slotIndex
          (mkCookingItem name action ingredient
             (if Z.eqb cookingTime 0 then 3000%Z else cookingTime)
             now false)
          (st_currentItems st))).

(** The callback passed to [setTimeout] by [addItem]. *)
Definition cookingTimer (slotIndex : nat) (st : CookingStation)
  : CookingStation :=
  match JsMap.get slotIndex (st_currentItems st) with
  | Some cookingItem =>
      withItems st
        (JsMap.set slotIndex
           (mkCookingItem (ci_name cookingItem) (ci_action cookingItem)
              (ci_ingredient cookingItem) (ci_cookingTime cookingItem)
              (ci_startTime cookingItem) true)
           (st_currentItems st))
  | None => st
  end.

Definition removeItem (slotIndex : nat) (st : CookingStation)
  : option CookingItem * CookingStation :=
  (JsMap.get slotIndex (st_currentItems st),
   withItems st (JsMap.delete slotIndex (st_currentItems st))).

Definition hasAvailableSlot (st : CookingStation) : bool :=
  Nat.ltb (JsMap.size (st_currentItems st)) (st_cookingSlots st).

(** The [for] loop over [0 .. cookingSlots - 1]; [None] stands for the
    result [-1]. *)
Definition getNextAvailableSlot (st : CookingStation) : option nat :=
  List.find (fun i => negb (JsMap.has i (st_currentItems st)))
    (seq 0 (st_cookingSlots st)).

Definition activate (st : CookingStation) : CookingStation :=
  withActive st true.
Definition deactivate (st : CookingStation) : CookingStation :=
  withActive st false.

End Station.

Module Manager.
Import DishSystemOps.

(** A method call on the station object stored under [key]. *)
Definition onStation (key : string) (f : CookingStation -> CookingStation)
  (sts : list (string * CookingStation)) : list (string * CookingStation) :=
  match JsMap.get key sts with
  | Some st => JsMap.set key (f st) sts
  | None => sts
  end.

Definition initializeStations (ds : DishSystem) (m : CookingStationManager)
  : CookingStationManager :=
  mkManager
    (fold_left (fun acc '(stationId, config) =>
                  JsMap.set stationId (Station.create stationId config) acc)
       (cookingStations ds) (stations m))
    (activeStation m) (currentDish m).

Definition create (ds : DishSystem) : CookingStationManager :=
  initializeStations ds (mkManager [] None None).

(** [setActiveDish(dishId, stationId = null)]. *)
Definition setActiveDish (dishId : string) (stationId : option string)
  (ds : DishSystem) (m : CookingStationManager)
  : bool * CookingStationManager :=
  let m1 := mkManager (stations m) (activeStation m) (Some dishId) in
  match getDish dishId ds with
  | None => (false, m1)
  | Some dish =>
      let targetStationId :=
        match stationId with
        | Some s => if truthy s then s else dish_station dish
        | None => dish_station dish
        end in
      match JsMap.get targetStationId (stations m1) with
      | None => (false, m1)
      | Some _ =>
          let sts1 :=
            match activeStation m1 with
            | Some prev => onStation prev Station.deactivate (stations m1)
            | None => stations m1
            end in
          (true,
           mkManager (onStation targetStationId Station.activate sts1)
             (Some targetStationId) (Some dishId))
      end
  end.

(** The cooking time looked up by [handleCookingAction]. *)
Definition cookingTimeFor (dish : Dish) (action ingredient : string) : Z :=
  match List.find (fun ing => String.eqb (ing_id ing) ingredient)
          (dish_ingredients dish) with
  | Some ingredientConfig =>
      match List.find (fun s => String.eqb (step_action s) action)
              (ing_prepSteps ingredientConfig) with
      | Some step =>
          match step_time step with
          | Some t => if Z.eqb t 0 then 3000%Z else t
          | None => 3000%Z
          end
      | None => 3000%Z
      end
  | None => 3000%Z
  end.

Definition handleCookingAction (now : Z) (action ingredient : string)
  (ds : DishSystem) (m : CookingStationManager)
  : bool * CookingStationManager :=
  match activeStation m, currentDish m with
  | Some sid, Some dishId =>
      if negb (truthy dishId) then (false, m)
      else
        match JsMap.get sid (stations m), getDish dishId ds with
        | Some station, Some dish =>
            if negb (bool_decide (action ∈ st_allowedActions station))
            then (false, m)
            else if Nat.ltb 1 (st_cookingSlots station) then
              match Station.getNextAvailableSlot station with
              | None => (false, m)
              | Some slotIndex =>
                  let cookingTime := cookingTimeFor dish action ingredient in
                  let name :=
                    match getIngredient ingredient ds with
                    | Some ingredientData => item_name ingredientData
                    | None => ingredient
                    end in
                  let '(ok, station') :=
                    Station.addItem now slotIndex name action ingredient
                      cookingTime station in
                  (ok,
                   mkManager (JsMap.set sid station' (stations m))
                     (activeStation m) (currentDish m))
              end
            else (true, m)
        | _, _ => (false, m)
        end
  | _, _ => (false, m)
  end.

Definition removeCookedItem (stationId : string) (slotIndex : nat)
  (m : CookingStationManager) : option CookingItem * CookingStationManager :=
  match JsMap.get stationId (stations m) with
  | None => (None, m)
  | Some station =>
      match JsMap.get slotIndex (st_currentItems station) with
      | None => (None, m)
      | Some item =>
          if negb (ci_isReady item) then (None, m)
          else
            let '(r, station') := Station.removeItem slotIndex station in
            (r,
             mkManager (JsMap.set stationId station' (stations m))
               (activeStation m) (currentDish m))
      end
  end.

Definition getStation (stationId : string) (m : CookingStationManager)
  : option CookingStation :=
  JsMap.get stationId (stations m).

Definition getAllStations (m : CookingStationManager)
  : list CookingStation :=
  JsMap.values (stations m).

Definition getReadyItems (m : CookingStationManager)
  : list (string * nat * CookingItem) :=
  concat
    (List.map
       (fun station =>
          List.map (fun '(slotIndex, item) => (st_id station, slotIndex, item))
            (List.filter (fun '(_, item) => ci_isReady item)
               (st_currentItems station)))
       (JsMap.values (stations m))).

Definition clearCurrentDish (m : CookingStationManager)
  : CookingStationManager :=
  mkManager
    (match activeStation m with
     | Some sid => onStation sid Station.deactivate (stations m)
     | None => stations m
     end)
    None None.

End Manager.

(** ** Order and OrderSystem (the order system) *)

Module Orders.
Import DishSystemOps.

(** [new Order(dishId, dishName, timeLimit)] with the id drawn by the
    caller; [timeLimit * 1000] is a product of doubles. *)
Definition newOrder (now : Z) (id dishId dishName : string) (timeLimit : Q)
  : Order :=
  mkOrder id dishId dishName (JsNumber.roundDouble (timeLimit * 1000)) now
    false false None.

Definition getRemainingTime (now : Z) (o : Order) : Z :=
  let elapsed := (now - order_createdAt o)%Z in
  let left := (order_timeLimit o - inject_Z elapsed)%Q in
  let remaining := if Qle_bool 0 left then left else 0%Q in
  Qceiling (remaining / 1000)%Q.

Definition isExpired (now : Z) (o : Order) : bool :=
  Z.leb (getRemainingTime now o) 0.

(** [order.complete(rating)]. *)
Definition complete (rating : Rating) (o : Order) : Order :=
  mkOrder (order_id o) (order_dishId o) (order_dishName o)
    (order_timeLimit o) (order_createdAt o) true (order_isActive o)
    (Some rating).

Definition withActive (o : Order) (b : bool) : Order :=
  mkOrder (order_id o) (order_dishId o) (order_dishName o)
    (order_timeLimit o) (order_createdAt o) (order_isComplete o) b
    (order_rating o).

Definition withOrders (os : OrderSystem) (act : list (string * Order))
  : OrderSystem :=
  mkOrderSystem act (completedOrders os) (maxActiveOrders os)
    (os_isRunning os) (totalScore os) (ordersCompleted os)
    (perfectOrders os).

Definition withRunning (os : OrderSystem) (b : bool) : OrderSystem :=
  mkOrderSystem (activeOrders os) (completedOrders os) (maxActiveOrders os)
    b (totalScore os) (ordersCompleted os) (perfectOrders os).

(** [new OrderSystem(dishSystem)]. *)
Definition create : OrderSystem := mkOrderSystem [] [] 5 false 0 0 0.

(** [spawnOrder()]: [newId] is the generated id, [pick] the index
    [Math.floor(Math.random() * availableDishes.length)] and [jitter] the
    term [Math.random() * 20].  [baseTime + difficultyModifier] is a sum of
    small integers; adding the random term to it rounds. *)
Definition spawnOrder (now : Z) (newId : string) (pick : nat) (jitter : Q)
  (ds : DishSystem) (os : OrderSystem) : option Order * OrderSystem :=
  if Nat.leb (maxActiveOrders os) (JsMap.size (activeOrders os))
  then (None, os)
  else
    match getAllDishes ds !! pick with
    | None => (None, os)
    | Some randomDish =>
        let baseTime := 45%Q in
        let difficultyModifier :=
          inject_Z (dish_difficulty randomDish * 10) in
        let timeLimit :=
          JsNumber.roundDouble (baseTime + difficultyModifier + jitter) in
        let order :=
          newOrder now newId (dish_id randomDish) (dish_name randomDish)
            timeLimit in
        (Some order, withOrders os (JsMap.set newId order (activeOrders os)))
    end.

(** [previousActive.isActive = false] on the first active order. *)
Fixpoint demoteFirstActive (act : list (string * Order))
  : list (string * Order) :=
  match act with
  | [] => []
  | (k, o) :: rest =>
      if order_isActive o then (k, withActive o false) :: rest
      else (k, o) :: demoteFirstActive rest
  end.

Definition selectOrder (orderId : string) (os : OrderSystem)
  : option Order * OrderSystem :=
  match JsMap.get orderId (activeOrders os) with
  | None => (None, os)
  | Some order =>
      let order' := withActive order true in
      (Some order',
       withOrders os
         (JsMap.set orderId order' (demoteFirstActive (activeOrders os))))
  end.

Definition getActiveOrder (os : OrderSystem) : option Order :=
  List.find (fun order => order_isActive order)
    (JsMap.values (activeOrders os)).

(** The rating and score chosen by [completeOrder]: [totalTime] and
    [timeRatio] are quotients of doubles. *)
Definition rate (now : Z) (dishValid : bool) (order : Order) : Rating * Z :=
  if dishValid then
    let remainingTime := getRemainingTime now order in
    let totalTime := JsNumber.roundDouble (order_timeLimit order / 1000) in
    let timeRatio := JsNumber.div (inject_Z remainingTime) totalTime in
    if JsNumber.gt timeRatio 0.75 then (perfect, 100%Z)
    else if JsNumber.gt timeRatio 0.25 then (good, 60%Z)
    else if Z.ltb 0 remainingTime then (average, 30%Z)
    else (bad, 0%Z)
  else (bad, 0%Z).

Definition completeOrder (now : Z) (orderId : string) (dishValid : bool)
  (os : OrderSystem) : option Order * OrderSystem :=
  match JsMap.get orderId (activeOrders os) with
  | None => (None, os)
  | Some order =>
      let '(rating, score) := rate now dishValid order in
      let order' := complete rating order in
      (Some order',
       mkOrderSystem (JsMap.delete orderId (activeOrders os))
         (completedOrders os ++ [order']) (maxActiveOrders os)
         (os_isRunning os) (totalScore os + score)%Z
         (ordersCompleted os + 1)%Z
         (match rating with
          | perfect => (perfectOrders os + 1)%Z
          | _ => perfectOrders os
          end))
  end.

Definition expireOrder (orderId : string) (os : OrderSystem)
  : option Order * OrderSystem :=
  match JsMap.get orderId (activeOrders os) with
  | None => (None, os)
  | Some order =>
      let order' := complete failed order in
      (Some order',
       mkOrderSystem (JsMap.delete orderId (activeOrders os))
         (completedOrders os ++ [order']) (maxActiveOrders os)
         (os_isRunning os) (totalScore os) (ordersCompleted os)
         (perfectOrders os))
  end.

Definition getOrder (orderId : string) (os : OrderSystem) : option Order :=
  JsMap.get orderId (activeOrders os).

Definition getActiveOrders (os : OrderSystem) : list Order :=
  JsMap.values (activeOrders os).

(** [Math.round] of a double: the nearest integer, halves going up. *)
Definition jsRound (q : Q) : Z := Qfloor (q + (1 # 2))%Q.

Record Stats := mkStats {
  stats_totalScore : Z;
  stats_ordersCompleted : Z;
  stats_perfectOrders : Z;
  stats_activeOrders : nat;
  stats_averageScore : Z;
  stats_perfectRate : Z
}.

Definition getStats (os : OrderSystem) : Stats :=
  mkStats (totalScore os) (ordersCompleted os) (perfectOrders os)
    (JsMap.size (activeOrders os))
    (if Z.ltb 0 (ordersCompleted os)
     then jsRound
            (JsNumber.roundDouble
               (inject_Z (totalScore os) / inject_Z (ordersCompleted os)))
     else 0%Z)
    (if Z.ltb 0 (ordersCompleted os)
     then jsRound
            (JsNumber.roundDouble
               (JsNumber.roundDouble
                  (inject_Z (perfectOrders os)
                   / inject_Z (ordersCompleted os))
                * 100))
     else 0%Z).

Definition clearAllOrders (os : OrderSystem) : OrderSystem :=
  mkOrderSystem [] [] (maxActiveOrders os) (os_isRunning os) 0 0 0.

End Orders.

(** ** CookTapGame ([js/game.js]) *)

Module GameOps.
Import DishSystemOps.

Definition withDishSystem (g : Game) (ds : DishSystem) : Game :=
  mkGame ds (cookingStationManager g) (orderSystem g) (isRunning g) (clock g).
Definition withManager (g : Game) (m : CookingStationManager) : Game :=
  mkGame (dishSystem g) m (orderSystem g) (isRunning g) (clock g).
Definition withOrderSystem (g : Game) (os : OrderSystem) : Game :=
  mkGame (dishSystem g) (cookingStationManager g) os (isRunning g) (clock g).

(** [new CookTapGame()] at time [now]; [initializeGame] runs
    [initializeStations] a second time. *)
Definition create (now : Z) : Game :=
  let ds := DishSystemOps.create in
  mkGame ds (Manager.initializeStations ds (Manager.create ds))
    Orders.create false now.

(** [startGame()] with [orderSystem.start()] inlined; the arguments feed the
    first [spawnOrder()]. *)
Definition startGame (newId : string) (pick : nat) (jitter : Q) (g : Game)
  : Game :=
  if isRunning g then g
  else
    let os1 := Orders.withRunning (orderSystem g) true in
    let '(_, os2) :=
      Orders.spawnOrder (clock g) newId pick jitter (dishSystem g) os1 in
    mkGame (dishSystem g) (cookingStationManager g) os2 true (clock g).

Definition pauseGame (g : Game) : Game :=
  if negb (isRunning g) then g
  else
    mkGame (dishSystem g) (cookingStationManager g)
      (Orders.withRunning (orderSystem g) false) false (clock g).

Definition resetGame (g : Game) : Game :=
  let g1 := pauseGame g in
  let os := Orders.clearAllOrders (orderSystem g1) in
  let m := Manager.clearCurrentDish (cookingStationManager g1) in
  let ds :=
    fold_left (fun acc dish => snd (resetDish (dish_id dish) acc))
      (getAllDishes (dishSystem g1)) (dishSystem g1) in
  mkGame ds m os (isRunning g1) (clock g1).

(** The callback of the spawning [setInterval]. *)
Definition spawnTimer (newId : string) (pick : nat) (jitter : Q) (g : Game)
  : Game :=
  let os := orderSystem g in
  if os_isRunning os
     && Nat.ltb (JsMap.size (activeOrders os)) (maxActiveOrders os)
  then
    withOrderSystem g
      (snd (Orders.spawnOrder (clock g) newId pick jitter (dishSystem g) os))
  else g.

(** The [updateTimer] closure of [startOrderTimer], for the order it
    captured. *)
Definition orderTimer (orderId : string) (g : Game) : Game :=
  match JsMap.get orderId (activeOrders (orderSystem g)) with
  | None => g
  | Some order =>
      if order_isComplete order then g
      else if Z.ltb 0 (Orders.getRemainingTime (clock g) order) then g
      else withOrderSystem g (snd (Orders.expireOrder orderId (orderSystem g)))
  end.

(** The timer of a cooking slot. *)
Definition cookingTimer (stationId : string) (slotIndex : nat) (g : Game)
  : Game :=
  let m := cookingStationManager g in
  withManager g
    (mkManager
       (Manager.onStation stationId (Station.cookingTimer slotIndex)
          (stations m))
       (activeStation m) (currentDish m)).

(** The click listener of an order element calls [OrderSystem.selectOrder]
    only. *)
Definition clickOrder (orderId : string) (g : Game) : Game :=
  withOrderSystem g (snd (Orders.selectOrder orderId (orderSystem g))).

Definition selectOrder (orderId : string) (g : Game) : bool * Game :=
  match Orders.selectOrder orderId (orderSystem g) with
  | (None, _) => (false, g)
  | (Some order, os) =>
      let '(_, m) :=
        Manager.setActiveDish (order_dishId order) None (dishSystem g)
          (cookingStationManager g) in
      (true, mkGame (dishSystem g) m os (isRunning g) (clock g))
  end.

Definition addIngredient (dishId ingredientId : string) (g : Game)
  : bool * Game :=
  let '(success, ds) :=
    addIngredientToDish dishId ingredientId (dishSystem g) in
  (success, withDishSystem g ds).

(** The second loop of [useTool]: the first added, unready ingredient whose
    last completed prep step used [toolId] at a station other than prep. *)
Fixpoint cookingTrigger (toolId : string) (dish : Dish)
  (ings : list IngredientSpec) : option (string * string) :=
  match ings with
  | [] => None
  | ingredient :: rest =>
      if negb (bool_decide (ing_id ingredient ∈ currentIngredients dish))
      then cookingTrigger toolId dish rest
      else
        match ingredientStates dish !! ing_id ingredient with
        | None => cookingTrigger toolId dish rest
        | Some ingredientState =>
            if isReady ingredientState then cookingTrigger toolId dish rest
            else
              match prepStepsCompleted ingredientState with
              | 0 => cookingTrigger toolId dish rest
              | S k =>
                  match ing_prepSteps ingredient !! k with
                  | Some completedStep =>
                      match step_station completedStep with
                      | Some station =>
                          if String.eqb (step_action completedStep) toolId
                             && truthy station
                             && negb (String.eqb station "prep")
                          then Some (ing_id ingredient, station)
                          else cookingTrigger toolId dish rest
                      | None => cookingTrigger toolId dish rest
                      end
                  | None => cookingTrigger toolId dish rest
                  end
              end
        end
  end.

Definition useTool (dishId toolId : string) (g : Game) : bool * Game :=
  match getDish dishId (dishSystem g), getTool toolId (dishSystem g) with
  | Some _, Some _ =>
      let '(success, ds) := useToolOnDish dishId toolId (dishSystem g) in
      if success then
        match getDish dishId ds with
        | Some dish =>
            match cookingTrigger toolId dish (dish_ingredients dish) with
            | Some (ingredientId, station) =>
                let '(_, m1) :=
                  Manager.setActiveDish dishId (Some station) ds
                    (cookingStationManager g) in
                let '(_, m2) :=
                  Manager.handleCookingAction (clock g) toolId ingredientId
                    ds m1 in
                (true, mkGame ds m2 (orderSystem g) (isRunning g) (clock g))
            | None => (true, withDishSystem g ds)
            end
        | None => (true, withDishSystem g ds)
        end
      else (false, g)
  | _, _ => (false, g)
  end.

Definition serveDish (g : Game) : bool * Game :=
  match Orders.getActiveOrder (orderSystem g) with
  | None => (false, g)
  | Some activeOrder =>
      match getDish (order_dishId activeOrder) (dishSystem g) with
      | None => (false, g)
      | Some _ =>
          let isValid :=
            isDishValid (order_dishId activeOrder) (dishSystem g) in
          if negb isValid then (false, g)
          else
            let '(_, os) :=
              Orders.completeOrder (clock g) (order_id activeOrder) isValid
                (orderSystem g) in
            let '(_, ds) :=
              resetDish (order_dishId activeOrder) (dishSystem g) in
            let m := Manager.clearCurrentDish (cookingStationManager g) in
            (true, mkGame ds m os (isRunning g) (clock g))
      end
  end.

Definition cancelCurrentDish (g : Game) : Game :=
  match Orders.getActiveOrder (orderSystem g) with
  | None => g
  | Some activeOrder =>
      let '(_, ds) := resetDish (order_dishId activeOrder) (dishSystem g) in
      let m := Manager.clearCurrentDish (cookingStationManager g) in
      let os :=
        Orders.withOrders (orderSystem g)
          (Orders.demoteFirstActive (activeOrders (orderSystem g))) in
      mkGame ds m os (isRunning g) (clock g)
  end.

(** [ingredientState.isReady = true] for a retrieved item. *)
Definition markReady (dishId ingredient : string) (ds : DishSystem)
  : DishSystem :=
  match getDish dishId ds with
  | None => ds
  | Some dish =>
      match ingredientStates dish !! ingredient with
      | None => ds
      | Some ingredientState =>
          putDish dishId
            (withProgress dish (currentIngredients dish)
               (<[ingredient :=
                    mkIngredientState (added ingredientState)
                      (prepStepsCompleted ingredientState) true]>
                  (ingredientStates dish))
               (finalStepsProgress dish) (isComplete dish))
            ds
      end
  end.

(** The body of [readyItems.forEach] in [retrieveCookedItems]. *)
Definition retrieveOne (dishId : string)
  (acc : nat * DishSystem * CookingStationManager)
  (ready : string * nat * CookingItem)
  : nat * DishSystem * CookingStationManager :=
  let '(retrieved, ds, m) := acc in
  let '(stationId, slotIndex, item) := ready in
  match Manager.removeCookedItem stationId slotIndex m with
  | (Some _, m') =>
      (S retrieved,
       if truthy (ci_ingredient item)
       then markReady dishId (ci_ingredient item) ds
       else ds,
       m')
  | (None, m') => (retrieved, ds, m')
  end.

(** [retrieveCookedItems()].  After the switch back to the prep station the
    source calls [cookingStationManager.updateAllStationDisplays()], a method
    that no class defines: the call throws a [TypeError] and the [return] is
    not reached. *)
Definition retrieveCookedItems (g : Game) : Completion bool * Game :=
  let readyItems := Manager.getReadyItems (cookingStationManager g) in
  match readyItems with
  | [] => (Returns false, g)
  | _ :: _ =>
      match Orders.getActiveOrder (orderSystem g) with
      | None => (Returns false, g)
      | Some activeOrder =>
          match getDish (order_dishId activeOrder) (dishSystem g) with
          | None => (Returns false, g)
          | Some _ =>
              let '(retrieved, ds, m) :=
                fold_left (retrieveOne (order_dishId activeOrder)) readyItems
                  (0, dishSystem g, cookingStationManager g) in
              if Nat.ltb 0 retrieved then
                let '(_, m') :=
                  Manager.setActiveDish (order_dishId activeOrder)
                    (Some "prep") ds m in
                (Throws TypeError,
                 mkGame ds m' (orderSystem g) (isRunning g) (clock g))
              else
                (Returns false,
                 mkGame ds m (orderSystem g) (isRunning g) (clock g))
          end
      end
  end.

End GameOps.

(** ** The event loop

    What can happen to a game: the commands of the input layer, the timers the
    source arms, and the passing of time.  A command leaves the state its
    call leaves, also when the call throws: the error ends the handler of the
    key event and nothing is undone. *)

Inductive Command :=
| StartGame (newId : string) (pick : nat) (jitter : Q)
| PauseGame
| ResetGame
| SpawnTimer (newId : string) (pick : nat) (jitter : Q)
| OrderTimer (orderId : string)
| CookingTimer (stationId : string) (slotIndex : nat)
| ClickOrder (orderId : string)
| SelectOrder (orderId : string)
| AddIngredient (dishId ingredientId : string)
| UseTool (dishId toolId : string)
| ServeDish
| CancelCurrentDish
| RetrieveCookedItems
| Elapse (ms : N).

Definition step (g : Game) (c : Command) : Game :=
  match c with
  | StartGame newId pick jitter => GameOps.startGame newId pick jitter g
  | PauseGame => GameOps.pauseGame g
  | ResetGame => GameOps.resetGame g
  | SpawnTimer newId pick jitter => GameOps.spawnTimer newId pick jitter g
  | OrderTimer orderId => GameOps.orderTimer orderId g
  | CookingTimer stationId slotIndex =>
      GameOps.cookingTimer stationId slotIndex g
  | ClickOrder orderId => GameOps.clickOrder orderId g
  | SelectOrder orderId => snd (GameOps.selectOrder orderId g)
  | AddIngredient dishId ingredientId =>
      snd (GameOps.addIngredient dishId ingredientId g)
  | UseTool dishId toolId => snd (GameOps.useTool dishId toolId g)
  | ServeDish => snd (GameOps.serveDish g)
  | CancelCurrentDish => GameOps.cancelCurrentDish g
  | RetrieveCookedItems => snd (GameOps.retrieveCookedItems g)
  | Elapse ms =>
      mkGame (dishSystem g) (cookingStationManager g) (orderSystem g)
        (isRunning g) (clock g + Z.of_N ms)
  end.

Definition run (g : Game) (cs : list Command) : Game := fold_left step cs g.

(** The states a game started at time [t0] can be in. *)
Definition reachable (g : Game) : Prop :=
  ∃ t0 cs, g = run (GameOps.create t0) cs.


(** ** Further functions of the sources

    Functions of the same classes that the claims do not speak of. *)



(** [Set.prototype.add] on a set of strings, kept in insertion order. *)
Definition setAdd (acc : list string) (a : string) : list string :=
  if bool_decide (a ∈ acc) then acc else acc ++ [a].

(** The set [tools] that [getDishTools] collects: the actions of the prep
    steps of every ingredient, then those of the final steps. *)
Definition dishToolIds (dish : Dish) : list string :=
  let tools :=
    fold_left
      (fun acc ingredient =>
         fold_left (fun acc step => setAdd acc (step_action step))
           (ing_prepSteps ingredient) acc)
      (dish_ingredients dish) [] in
  fold_left (fun acc step => setAdd acc (step_action step))
    (dish_finalSteps dish) tools.

(** An entry of the array [getDishTools] returns: the tool and the field
    [used]. *)
Record DishTool := mkDishTool {
  dt_tool : Item;
  dt_used : bool
}.

(** [getDishTools(dishId)]. *)
Definition getDishTools (dishId : string) (ds : DishSystem) : list DishTool :=
  match DishSystemOps.getDish dishId ds with
  | None => []
  | Some dish =>
      omap (fun toolId =>
              match DishSystemOps.getTool toolId ds with
              | None => None
              | Some tool => Some (mkDishTool tool false)
              end)
        (dishToolIds dish)
  end.

(** An entry of the array [getDishIngredients] returns. *)
Record DishIngredient := mkDishIngredient {
  di_item : Item;
  di_required : bool;
  di_prepSteps : list Step;
  di_added : bool
}.

(** [getDishIngredients(dishId)]. *)
Definition getDishIngredients (dishId : string) (ds : DishSystem)
  : list DishIngredient :=
  match DishSystemOps.getDish dishId ds with
  | None => []
  | Some dish =>
      omap (fun ing =>
              match DishSystemOps.getIngredient (ing_id ing) ds with
              | None => None
              | Some ingredientData =>
                  Some (mkDishIngredient ingredientData (ing_required ing)
                          (ing_prepSteps ing)
                          (bool_decide
                             (ing_id ing ∈ currentIngredients dish)))
              end)
        (dish_ingredients dish)
  end.

(** * Vocabulary of the specification *)

(** The remaining-time ratio [r = remainingSeconds / timeLimitSeconds] of an
    order at time [now]. *)
Definition timeRatio (now : Z) (o : Order) : Q :=
  (inject_Z (Orders.getRemainingTime now o) / (order_timeLimit o / 1000))%Q.

(** The rating and score that the tests of [completeOrder] give when the
    ratio is the exact one, the two divisions not being rounded. *)
Definition rateExact (now : Z) (dishValid : bool) (order : Order)
  : Rating * Z :=
  if dishValid then
    let remainingTime := Orders.getRemainingTime now order in
    let totalTime := (order_timeLimit order / 1000)%Q in
    let timeRatio := (inject_Z remainingTime / totalTime)%Q in
    if negb (Qle_bool timeRatio 0.75) then (perfect, 100%Z)
    else if negb (Qle_bool timeRatio 0.25) then (good, 60%Z)
    else if Z.ltb 0 remainingTime then (average, 30%Z)
    else (bad, 0%Z)
  else (bad, 0%Z).

(** A one-minute order created at time 0, waiting in an otherwise empty order
    system. *)
Definition minuteOrder : Order :=
  Orders.newOrder 0 "order_1" "classic_burger" "Classic Burger" 60.


(** A game in which the first order (a classic burger, 75 seconds) has been
    spawned and nothing else happened. *)
Definition spawnedGame : Game :=
  run (GameOps.create 0) [StartGame "order_1" 0 10].

(** The same order left alone until its countdown reaches zero. *)
Definition expiryTrace : list Command :=
  [StartGame "order_1" 0 10; Elapse 75000; OrderTimer "order_1"].

(** [accepts toolId dish ing]: the ingredient [ing] of the recipe is added to
    the dish, is not ready, and its next pending prep step is done with
    [toolId]. *)
Definition accepts (toolId : string) (dish : Dish) (ing : IngredientSpec)
  : bool :=
  bool_decide (ing_id ing ∈ currentIngredients dish)
  && match ingredientStates dish !! ing_id ing with
     | Some st =>
         negb (isReady st)
         && match ing_prepSteps ing !! prepStepsCompleted st with
            | Some s => String.eqb (step_action s) toolId
            | None => false
            end
     | None => false
     end.

(** The current final step of the dish is done with [toolId]. *)
Definition finalAccepts (toolId : string) (dish : Dish) : bool :=
  match dish_finalSteps dish !! finalStepsProgress dish with
  | Some s => String.eqb (step_action s) toolId
  | None => false
  end.

(** An ingredient state after one more prep step, for the recipe entry
    [ing]. *)
Definition oneMorePrepStep (ing : IngredientSpec) (st : IngredientState)
  : IngredientState :=
  mkIngredientState (added st) (S (prepStepsCompleted st))
    (bool_decide (S (prepStepsCompleted st) = length (ing_prepSteps ing))).

(** A dish after one more final step. *)
Definition oneMoreFinalStep (dish : Dish) : Dish :=
  DishSystemOps.withProgress dish (currentIngredients dish)
    (ingredientStates dish) (S (finalStepsProgress dish))
    (isComplete dish
     || bool_decide (S (finalStepsProgress dish)
                     = length (dish_finalSteps dish))).

(** Every required ingredient of the recipe is in the added set and ready. *)
Definition requiredReady (dish : Dish) : Prop :=
  ∀ ing, ing ∈ dish_ingredients dish → ing_required ing = true →
    ing_id ing ∈ currentIngredients dish
    ∧ ∃ st, ingredientStates dish !! ing_id ing = Some st ∧ isReady st = true.

(** Fried chicken with its three required ingredients ready and nothing
    plated: the order is selected, chicken, salt and pepper are added. *)
Definition friedChickenTrace : list Command :=
  [StartGame "order_1" 2 10; SelectOrder "order_1";
   AddIngredient "fried_chicken" "salt";
   AddIngredient "fried_chicken" "pepper";
   AddIngredient "fried_chicken" "chicken_breast";
   UseTool "fried_chicken" "fry"].

Definition friedChickenGame : Game := run (GameOps.create 0) friedChickenTrace.

(** The catalog after the bun of a classic burger has been added. *)
Definition bunAdded : DishSystem :=
  snd (DishSystemOps.addIngredientToDish "classic_burger" "burger_bun"
         DishSystemOps.create).

(** The status of an order in the terms of the specification, read off the
    flags the source keeps. *)
Inductive Status := pending | active | completed | expired.

Definition status (o : Order) : Status :=
  if order_isComplete o then
    match order_rating o with
    | Some failed => expired
    | _ => completed
    end
  else if order_isActive o then active
  else pending.

(** Every order the system knows: the open ones and the record of the
    terminal ones. *)
Definition allOrders (os : OrderSystem) : list Order :=
  JsMap.values (activeOrders os) ++ completedOrders os.

Definition isActiveStatus (o : Order) : bool :=
  match status o with active => true | _ => false end.

(** The number of orders whose status is active. *)
Definition activeStatusCount (os : OrderSystem) : nat :=
  length (List.filter isActiveStatus (allOrders os)).

(** The number of open orders flagged [isActive]. *)
Definition activeCount (act : list (string * Order)) : nat :=
  length (List.filter (λ kv, order_isActive kv.2) act).

(** What holds of the order system of every reachable game. *)
Definition ordersOk (os : OrderSystem) : Prop :=
  NoDup (JsMap.keys (activeOrders os))
  ∧ Forall (λ kv, order_isComplete kv.2 = false) (activeOrders os)
  ∧ Forall (λ o, order_isComplete o = true) (completedOrders os)
  ∧ activeCount (activeOrders os) ≤ 1.

(** The slots of a station: distinct indices, all below the capacity. *)
Definition stationOk (st : CookingStation) : Prop :=
  NoDup (JsMap.keys (st_currentItems st))
  ∧ Forall (λ kv, kv.1 < st_cookingSlots st) (st_currentItems st).

Definition stationsOk (m : CookingStationManager) : Prop :=
  Forall (λ ks, stationOk ks.2) (stations m).

(** All [cookingSlots] slots of the station hold a job. *)
Definition stationFull (st : CookingStation) : Prop :=
  ∀ i, i < st_cookingSlots st → JsMap.has i (st_currentItems st) = true.

(** [st'] has the capacity of [st] and holds a job in every slot in which
    [st] holds one. *)
Definition stationGrows (st st' : CookingStation) : Prop :=
  st_cookingSlots st' = st_cookingSlots st
  ∧ ∀ i, JsMap.has i (st_currentItems st) = true →
         JsMap.has i (st_currentItems st') = true.

Definition stationsGrow (sts sts' : list (string * CookingStation)) : Prop :=
  ∀ sid st, JsMap.get sid sts = Some st →
    ∃ st', JsMap.get sid sts' = Some st' ∧ stationGrows st st'.

(** The recipe part of a dish entry: the entry with the four progress fields
    as [addDish] initialises them. *)
Definition recipeOf (d : Dish) : Dish :=
  DishSystemOps.withProgress d ∅ ∅ 0 false.

Definition recipes (ds : DishSystem) : list (string * Dish) :=
  (λ kd, (kd.1, recipeOf kd.2)) <$> dishes ds.

(** Two dish systems hold the same reference data. *)
Definition sameCatalog (ds ds0 : DishSystem) : Prop :=
  recipes ds = recipes ds0 ∧ ingredients ds = ingredients ds0
  ∧ tools ds = tools ds0 ∧ cookingStations ds = cookingStations ds0.

(** A player selects the first order, a classic burger, and adds cheese. *)
Definition cheeseTrace : list Command :=
  [StartGame "order_1" 0 10; SelectOrder "order_1";
   AddIngredient "classic_burger" "cheese"].

(** A recipe lists each ingredient once. *)
Definition recipeWf (dish : Dish) : Prop :=
  NoDup (ing_id <$> dish_ingredients dish).

(** An ingredient has a progress entry exactly when it is in the added
    set. *)
Definition progressTracked (dish : Dish) : Prop :=
  dom (ingredientStates dish) = currentIngredients dish.

(** [isReady] is true iff [prepStepsCompleted] is the number of prep steps the
    recipe defines for the ingredient. *)
Definition readyIffDone (dish : Dish) : Prop :=
  ∀ ing st, ing ∈ dish_ingredients dish →
    ingredientStates dish !! ing_id ing = Some st →
    isReady st = true ↔ prepStepsCompleted st = length (ing_prepSteps ing).

(** The same as a test. *)
Definition readyIffDoneb (dish : Dish) : bool :=
  forallb
    (λ ing,
       match ingredientStates dish !! ing_id ing with
       | Some st =>
           Bool.eqb (isReady st)
             (Nat.eqb (prepStepsCompleted st) (length (ing_prepSteps ing)))
       | None => true
       end)
    (dish_ingredients dish).

(** The half of [readyIffDone] that survives a retrieval: the counter never
    passes the number of prep steps, and an ingredient whose prep steps are
    all completed is ready. *)
Definition doneThenReady (dish : Dish) : Prop :=
  ∀ ing st, ing ∈ dish_ingredients dish →
    ingredientStates dish !! ing_id ing = Some st →
    prepStepsCompleted st ≤ length (ing_prepSteps ing)
    ∧ (prepStepsCompleted st = length (ing_prepSteps ing) →
       isReady st = true).

(** The invariant of a dish entry, in its strict form ([readyIffDone]) and in
    its weak form ([doneThenReady]). *)
Definition dishInv (strict : bool) (dish : Dish) : Prop :=
  recipeWf dish ∧ progressTracked dish
  ∧ (if strict then readyIffDone dish else doneThenReady dish).

Definition dishesInv (strict : bool) (ds : DishSystem) : Prop :=
  Forall (λ kd, dishInv strict kd.2) (dishes ds).

(** A Caesar salad whose chicken is grilled and collected from the grill:
    the order is selected, the chicken added and put on the grill, and four
    seconds later the grill's timer has fired and the cooked chicken is
    retrieved. *)
Definition cookedChickenTrace : list Command :=
  [StartGame "order_1" 3 10; SelectOrder "order_1";
   AddIngredient "caesar_salad" "chicken_breast";
   UseTool "caesar_salad" "grill"; Elapse 4000; CookingTimer "grill" 0;
   RetrieveCookedItems].

(** A dish entry in its initial, empty state of progress. *)
Definition isReset (dish : Dish) : Prop :=
  currentIngredients dish = ∅ ∧ ingredientStates dish = ∅
  ∧ finalStepsProgress dish = 0.

(** The selected classic burger gets cheese and is then left alone until its
    75 seconds are over and the order's timer expires it. *)
Definition expiredCheeseTrace : list Command :=
  cheeseTrace ++ [Elapse 75000; OrderTimer "order_1"].

(** One attempt at a Caesar salad that is abandoned with the chicken on the
    grill: the chicken's job stays in its slot. *)
Definition abandonedGrill : list Command :=
  [SelectOrder "order_1"; AddIngredient "caesar_salad" "chicken_breast";
   UseTool "caesar_salad" "grill"; CancelCurrentDish].

(** The jobs held by a station of a game, as slot indices. *)
Definition slotsOf (stationId : string) (g : Game) : list nat :=
  match JsMap.get stationId (stations (cookingStationManager g)) with
  | Some st => JsMap.keys (st_currentItems st)
  | None => []
  end.

(** What is left of an order's time limit at [now], in milliseconds; negative
    once the limit has passed. *)
Definition timeLeft (now : Z) (o : Order) : Q :=
  (order_timeLimit o - inject_Z (now - order_createdAt o))%Q.

(** What one command can do to the order system of the game [g]. *)
Inductive orderStep (g : Game) : OrderSystem → Prop :=
| os_same : orderStep g (orderSystem g)
| os_running (b : bool) :
    orderStep g (Orders.withRunning (orderSystem g) b)
| os_start newId pick jitter :
    orderStep g
      (snd (Orders.spawnOrder (clock g) newId pick jitter (dishSystem g)
              (Orders.withRunning (orderSystem g) true)))
| os_spawn newId pick jitter :
    os_isRunning (orderSystem g) = true →
    orderStep g
      (snd (Orders.spawnOrder (clock g) newId pick jitter (dishSystem g)
              (orderSystem g)))
| os_clear :
    orderStep g (Orders.clearAllOrders (orderSystem (GameOps.pauseGame g)))
| os_select orderId :
    orderStep g (snd (Orders.selectOrder orderId (orderSystem g)))
| os_serve o :
    Orders.getActiveOrder (orderSystem g) = Some o →
    DishSystemOps.isDishValid (order_dishId o) (dishSystem g) = true →
    orderStep g
      (snd (Orders.completeOrder (clock g) (order_id o) true (orderSystem g)))
| os_expire orderId order :
    JsMap.get orderId (activeOrders (orderSystem g)) = Some order →
    Z.ltb 0 (Orders.getRemainingTime (clock g) order) = false →
    orderStep g (snd (Orders.expireOrder orderId (orderSystem g)))
| os_cancel :
    orderStep g
      (Orders.withOrders (orderSystem g)
         (Orders.demoteFirstActive (activeOrders (orderSystem g)))).

(** The open orders fit the configured maximum, which is 5. *)
Definition capacityOk (os : OrderSystem) : Prop :=
  JsMap.size (activeOrders os) ≤ maxActiveOrders os ∧ maxActiveOrders os = 5.

(** The points a rating is worth, and the two tallies of [getStats]. *)
Definition scoreOf (r : option Rating) : Z :=
  match r with
  | Some perfect => 100
  | Some good => 60
  | Some average => 30
  | _ => 0
  end.

Definition wasServed (o : Order) : bool :=
  match order_rating o with
  | Some failed | None => false
  | Some _ => true
  end.

Definition wasPerfect (o : Order) : bool :=
  match order_rating o with Some perfect => true | _ => false end.

Definition sumScores (l : list Order) : Z :=
  foldr (λ o acc, scoreOf (order_rating o) + acc)%Z 0%Z l.

(** The three counters of the order system agree with the record of terminal
    orders. *)
Definition scoreOk (os : OrderSystem) : Prop :=
  totalScore os = sumScores (completedOrders os)
  ∧ ordersCompleted os
    = Z.of_nat (length (List.filter wasServed (completedOrders os)))
  ∧ perfectOrders os
    = Z.of_nat (length (List.filter wasPerfect (completedOrders os))).

(** Every order recorded as failed had used up its time limit. *)
Definition expiredInTime (g : Game) : Prop :=
  Forall (λ o, order_rating o = Some failed → (timeLeft (clock g) o <= 0)%Q)
    (completedOrders (orderSystem g)).

(** Two orders that differ at most in their [isActive] flag. *)
Definition sameButActive (o o' : Order) : Prop :=
  Orders.withActive o false = Orders.withActive o' false.

(** The grill chosen as active station for a Caesar salad in a fresh game. *)
Definition grillManager : CookingStationManager :=
  snd (Manager.setActiveDish "caesar_salad" (Some "grill")
         DishSystemOps.create (cookingStationManager (GameOps.create 0))).

(** The calls a command makes on the station manager.  [managerOp true]
    includes the removal of a cooked item, [managerOp false] does not. *)
Inductive managerOp :
  bool → CookingStationManager → CookingStationManager → Prop :=
| mo_setActiveDish r dishId stationId ds m :
    managerOp r m (snd (Manager.setActiveDish dishId stationId ds m))
| mo_clearCurrentDish r m :
    managerOp r m (Manager.clearCurrentDish m)
| mo_handleCookingAction r now action ingredient ds m :
    managerOp r m
      (snd (Manager.handleCookingAction now action ingredient ds m))
| mo_cookingTimer r stationId slotIndex m :
    managerOp r m
      (mkManager
         (Manager.onStation stationId (Station.cookingTimer slotIndex)
            (stations m))
         (activeStation m) (currentDish m))
| mo_removeCookedItem stationId slotIndex m :
    managerOp true m (snd (Manager.removeCookedItem stationId slotIndex m)).

Inductive managerOps (r : bool) :
  CookingStationManager → CookingStationManager → Prop :=
| mos_refl m : managerOps r m m
| mos_step m1 m2 m3 :
    managerOps r m1 m2 → managerOp r m2 m3 → managerOps r m1 m3.

Definition isRetrieve (c : Command) : bool :=
  match c with RetrieveCookedItems => true | _ => false end.

(** The part of a station that its configuration fixes: the station without
    its jobs and its highlight. *)
Definition configOf (st : CookingStation) : CookingStation :=
  Station.withItems (Station.withActive st false) [].

Definition stationConfigs (m : CookingStationManager)
  : list (string * CookingStation) :=
  (λ ks, (ks.1, configOf ks.2)) <$> stations m.

(** A job and what became of it: the same job, ready by now if it was
    ready. *)
Definition jobKept (item item' : CookingItem) : Prop :=
  ci_name item' = ci_name item ∧ ci_action item' = ci_action item
  ∧ ci_ingredient item' = ci_ingredient item
  ∧ ci_cookingTime item' = ci_cookingTime item
  ∧ ci_startTime item' = ci_startTime item
  ∧ (ci_isReady item = true → ci_isReady item' = true).

Definition stationKeeps (st st' : CookingStation) : Prop :=
  ∀ slot item, JsMap.get slot (st_currentItems st) = Some item →
    ∃ item', JsMap.get slot (st_currentItems st') = Some item'
             ∧ jobKept item item'.

Definition stationsKeep (m m' : CookingStationManager) : Prop :=
  ∀ sid st, JsMap.get sid (stations m) = Some st →
    ∃ st', JsMap.get sid (stations m') = Some st' ∧ stationKeeps st st'.

(** A Caesar salad's chicken put on the grill. *)
Definition chickenOnGrill : Game :=
  run (GameOps.create 0) (take 4 cookedChickenTrace).

(** Every open order is for a dish of the catalog, and is filed under its
    own id. *)
Definition ordersKnown (g : Game) : Prop :=
  sameCatalog (dishSystem g) DishSystemOps.create
  ∧ Forall (λ kv, kv.1 = order_id kv.2
                  ∧ is_Some (DishSystemOps.getDish (order_dishId kv.2)
                               DishSystemOps.create))
      (activeOrders (orderSystem g)).

(** The job in a slot of a station, if there is one. *)
Definition itemAt (m : CookingStationManager) (sid : string) (slot : nat)
  : option CookingItem :=
  match Manager.getStation sid m with
  | Some st => JsMap.get slot (st_currentItems st)
  | None => None
  end.

(** The stations are filed under their own, distinct ids. *)
Definition stationsFiled (m : CookingStationManager) : Prop :=
  NoDup (JsMap.keys (stations m))
  ∧ Forall (λ ks, ks.1 = st_id ks.2) (stations m).

(** The random term of a time limit, [Math.random() * 20], lies in
    [[0, 20)]. *)
Definition jitterOk (c : Command) : bool :=
  match c with
  | StartGame _ _ jitter | SpawnTimer _ _ jitter =>
      Qle_bool 0 jitter && negb (Qle_bool 20 jitter)
  | _ => true
  end.

(** A time limit between 65 and 95 seconds, in milliseconds. *)
Definition limitOk (o : Order) : Prop :=
  (65000 <= order_timeLimit o)%Q ∧ (order_timeLimit o <= 95000)%Q.

(** The highlight of the stations follows [activeStation]: a station is
    highlighted exactly when it is the active one, the active station exists,
    and there is a current dish while a station is active. *)
Definition highlightOk (m : CookingStationManager) : Prop :=
  (∀ sid,
     match Manager.getStation sid m with
     | Some st => st_isActive st = bool_decide (activeStation m = Some sid)
     | None => activeStation m ≠ Some sid
     end)
  ∧ (is_Some (activeStation m) → is_Some (currentDish m)).

(** [secondsLeft now o s]: [s] whole seconds remain on the order at [now]:
    none once the time limit has elapsed, otherwise the time left rounded up
    to the second. *)
Definition secondsLeft (now : Z) (o : Order) (s : Z) : Prop :=
  ((timeLeft now o <= 0)%Q ∧ s = 0%Z)
  ∨ ((0 < timeLeft now o)%Q
     ∧ (inject_Z (1000 * (s - 1)) < timeLeft now o)%Q
     ∧ (timeLeft now o <= inject_Z (1000 * s))%Q).

(** The remaining-time ratio [remainingSeconds / timeLimitSeconds] in the
    arithmetic of the source: the time limit in seconds is the double nearest
    to a thousandth of the limit, and the ratio is the double nearest to the
    quotient. *)
Definition doubleRatio (s : Z) (o : Order) : Q :=
  JsNumber.roundDouble
    (inject_Z s / JsNumber.roundDouble (order_timeLimit o / 1000)).

(** An order for a classic burger whose random term was the double nearest to
    16 1/3: its time limit is 81333.33333333333 ms. *)
Definition thirdsOrder : Order :=
  Orders.newOrder 0 "order_1" "classic_burger" "Classic Burger"
    (JsNumber.roundDouble (65 + JsNumber.roundDouble (49 # 3))).


(** * Properties *)

(** ** Insertion-ordered maps *)

Section JsMapFacts.
Context {K V : Type} `{EqDecision K}.
Implicit Types (k : K) (v : V) (m : list (K * V)).

Lemma jsmap_get_set_eq k v m : JsMap.get k (JsMap.set k v m) = Some v.
Proof.
  induction m as [|[k' v'] m IH]; csimpl.
  - by rewrite decide_True.
  - destruct (decide (k = k')) as [->|Hne]; csimpl.
    + by rewrite decide_True.
    + by rewrite decide_False.
Qed.

Lemma jsmap_get_set_ne k k' v m :
  k ≠ k' → JsMap.get k' (JsMap.set k v m) = JsMap.get k' m.
Proof.
  intros Hne. induction m as [|[k0 v0] m IH]; csimpl.
  - rewrite decide_False; [done | congruence].
  - destruct (decide (k = k0)) as [->|Hne0]; csimpl.
    + rewrite !decide_False; [done | congruence | congruence].
    + destruct (decide (k' = k0)); [done | exact IH].
Qed.

Lemma jsmap_get_None_keys k m : JsMap.get k m = None ↔ k ∉ JsMap.keys m.
Proof.
  unfold JsMap.keys. induction m as [|[k' v'] m IH]; csimpl.
  - split; [intros _; apply not_elem_of_nil | done].
  - rewrite not_elem_of_cons. destruct (decide (k = k')) as [->|Hne].
    + split; [done | intros [? _]; done].
    + rewrite IH. tauto.
Qed.

Lemma jsmap_keys_set k v m :
  JsMap.keys (JsMap.set k v m)
  = if JsMap.has k m then JsMap.keys m else JsMap.keys m ++ [k].
Proof.
  unfold JsMap.keys, JsMap.has. induction m as [|[k' v'] m IH]; csimpl; [done |].
  destruct (decide (k = k')) as [->|Hne]; csimpl; [done |].
  rewrite IH. by destruct (JsMap.get k m).
Qed.

Lemma jsmap_NoDup_set k v m :
  NoDup (JsMap.keys m) → NoDup (JsMap.keys (JsMap.set k v m)).
Proof.
  intros Hnd. rewrite jsmap_keys_set. unfold JsMap.has.
  destruct (JsMap.get k m) eqn:E; [done |].
  apply NoDup_app. split; [done |]. split; [| apply NoDup_singleton].
  intros x Hx ->%list_elem_of_singleton.
  by apply jsmap_get_None_keys in E.
Qed.

Lemma jsmap_keys_delete_subseteq k m :
  JsMap.keys (JsMap.delete k m) ⊆ JsMap.keys m.
Proof.
  unfold JsMap.keys. induction m as [|[k' v'] m IH]; csimpl; [done |].
  destruct (decide (k = k')); csimpl.
  - intros x Hx. by right.
  - intros x [->|Hx]%elem_of_cons; [left | right; by apply IH].
Qed.

Lemma jsmap_NoDup_delete k m :
  NoDup (JsMap.keys m) → NoDup (JsMap.keys (JsMap.delete k m)).
Proof.
  unfold JsMap.keys. induction m as [|[k' v'] m IH]; csimpl; [done |].
  intros [Hnotin Hnd]%NoDup_cons. destruct (decide (k = k')); csimpl; [done |].
  apply NoDup_cons. split; [| by apply IH].
  intros Hin. apply Hnotin. by apply (jsmap_keys_delete_subseteq k m).
Qed.

Lemma jsmap_get_delete_eq k m :
  NoDup (JsMap.keys m) → JsMap.get k (JsMap.delete k m) = None.
Proof.
  unfold JsMap.keys. induction m as [|[k' v'] m IH]; csimpl; [done |].
  intros [Hnotin Hnd]%NoDup_cons. destruct (decide (k = k')) as [->|Hne]; csimpl.
  - by apply jsmap_get_None_keys.
  - rewrite decide_False; [by apply IH | done].
Qed.

Lemma jsmap_get_delete_ne k k' m :
  k ≠ k' → JsMap.get k' (JsMap.delete k m) = JsMap.get k' m.
Proof.
  intros Hne. induction m as [|[k0 v0] m IH]; csimpl; [done |].
  destruct (decide (k = k0)) as [->|Hne0]; csimpl.
  - rewrite decide_False; [done | congruence].
  - destruct (decide (k' = k0)); [done | exact IH].
Qed.

Lemma jsmap_get_Some_elem k v m : JsMap.get k m = Some v → (k, v) ∈ m.
Proof.
  induction m as [|[k' v'] m IH]; csimpl; [done |].
  destruct (decide (k = k')) as [->|Hne].
  - intros [= ->]. left.
  - intros Hget. right. by apply IH.
Qed.

Lemma jsmap_Forall_set (P : K * V → Prop) k v m :
  Forall P m → P (k, v) → Forall P (JsMap.set k v m).
Proof.
  intros Hm Hkv. induction Hm as [|[k' v'] m Hx Hm IH]; cbn.
  - by apply Forall_singleton.
  - destruct (decide (k = k')); apply Forall_cons; done.
Qed.

Lemma jsmap_Forall_delete (P : K * V → Prop) k m :
  Forall P m → Forall P (JsMap.delete k m).
Proof.
  intros Hm. induction Hm as [|[k' v'] m Hx Hm IH]; cbn; [done |].
  destruct (decide (k = k')); [done | by apply Forall_cons].
Qed.

Lemma jsmap_Forall_get (P : K * V → Prop) k v m :
  Forall P m → JsMap.get k m = Some v → P (k, v).
Proof.
  intros Hm Hget. apply jsmap_get_Some_elem in Hget.
  by apply (proj1 (Forall_forall P m) Hm).
Qed.

Lemma jsmap_keys_set_existing k v v' m :
  JsMap.get k m = Some v' → JsMap.keys (JsMap.set k v m) = JsMap.keys m.
Proof.
  intros Hget. rewrite jsmap_keys_set. unfold JsMap.has. by rewrite Hget.
Qed.

End JsMapFacts.

(** ** Rounding to a double *)

Section NumberFacts.
Import JsNumber.

Lemma two_neq_0 : ¬ (2 == 0)%Q.
Proof. discriminate. Qed.

Lemma pow2_pos (e : Z) : (0 < 2 ^ e)%Q.
Proof. by apply Qpower_0_lt. Qed.

Lemma pow2_Z (k : Z) : (0 ≤ k)%Z → (inject_Z (2 ^ k) == 2 ^ k)%Q.
Proof. intros Hk. by rewrite (Zpower_Qpower 2 k Hk). Qed.

Lemma exponentOf_le (q : Q) : ¬ (q == 0)%Q → (2 ^ exponentOf q <= Qabs q)%Q.
Proof.
  intros Hq. unfold exponentOf.
  set (n := Z.abs (Qnum q)). set (d := Zpos (Qden q)).
  set (a := Z.log2 n). set (b := Z.log2 d).
  destruct (Qle_bool (2 ^ (a - b)) (Qabs q)) eqn:Htest.
  { by apply Qle_bool_iff. }
  assert (0 < n)%Z as Hn.
  { unfold n. destruct q as [num den]. cbn.
    destruct num; [| lia | lia]. exfalso. by apply Hq. }
  assert (0 < d)%Z as Hd by (unfold d; lia).
  destruct (Z.log2_spec n Hn) as [Hn1 _].
  destruct (Z.log2_spec d Hd) as [_ Hd2].
  fold a in Hn1. fold b in Hd2.
  assert (0 ≤ a)%Z as Ha by apply Z.log2_nonneg.
  assert (0 ≤ b)%Z as Hb by apply Z.log2_nonneg.
  assert (Qabs q == inject_Z n / inject_Z d)%Q as ->.
  { destruct q as [num den]. unfold n, d. cbn [Qabs Qnum Qden].
    apply Qmake_Qdiv. }
  replace (a - b - 1)%Z with (a - (b + 1))%Z by lia.
  rewrite Qpower_minus by apply two_neq_0.
  rewrite <- (pow2_Z a) by done. rewrite <- (pow2_Z (b + 1)) by lia.
  assert (0 < inject_Z d)%Q as Hdq.
  { rewrite Zlt_Qlt in Hd. exact Hd. }
  assert (0 < inject_Z (2 ^ (b + 1)))%Q as Hpq.
  { assert (0 < 2 ^ (b + 1))%Z as H by (apply Z.pow_pos_nonneg; lia).
    rewrite Zlt_Qlt in H. exact H. }
  apply Qle_shift_div_l; [exact Hdq |].
  unfold Qdiv. rewrite <- Qmult_assoc, (Qmult_comm (/ _)), Qmult_assoc.
  apply Qle_shift_div_r; [exact Hpq |].
  rewrite <- !inject_Z_mult, <- Zle_Qle. nia.
Qed.

Lemma roundEven_le (x : Q) (m : Z) : (x <= inject_Z m)%Q → (roundEven x ≤ m)%Z.
Proof.
  intros Hx. unfold roundEven.
  assert (Qfloor x ≤ m)%Z as Hf.
  { rewrite <- (Qfloor_Z m). by apply Qfloor_resp_le. }
  assert ((1 # 2 <= x - inject_Z (Qfloor x))%Q → (Qfloor x + 1 ≤ m)%Z) as Hup.
  { intros Hd. assert (inject_Z (Qfloor x) < inject_Z m)%Q as Hlt by lra.
    rewrite <- Zlt_Qlt in Hlt. lia. }
  destruct (Qcompare_spec (x - inject_Z (Qfloor x)) (1 # 2)) as [He|Hl|Hg].
  - destruct (Z.even _); [done |]. apply Hup. lra.
  - done.
  - apply Hup. lra.
Qed.

Lemma roundEven_ge (x : Q) (m : Z) : (inject_Z m <= x)%Q → (m ≤ roundEven x)%Z.
Proof.
  intros Hx. unfold roundEven.
  assert (m ≤ Qfloor x)%Z as Hf.
  { rewrite <- (Qfloor_Z m). by apply Qfloor_resp_le. }
  destruct (_ ?= _)%Q; [destruct (Z.even _) | |]; lia.
Qed.

Lemma roundDouble_eq (q : Q) :
  ¬ (q == 0)%Q →
  (roundDouble q
   == inject_Z (roundEven (q / 2 ^ (exponentOf q - 52)))
      * 2 ^ (exponentOf q - 52))%Q.
Proof.
  intros Hq. unfold roundDouble.
  destruct (Qeq_bool q 0) eqn:E; [by apply Qeq_bool_iff in E |].
  cbv zeta. apply Qred_correct.
Qed.

Lemma roundDouble_0 (q : Q) : (q == 0)%Q → roundDouble q = 0%Q.
Proof.
  intros Hq. unfold roundDouble. apply Qeq_bool_iff in Hq. by rewrite Hq.
Qed.

(** The scaled value of a positive number is at least [2^52]. *)
Lemma scaled_ge (q : Q) :
  (0 < q)%Q → (inject_Z (2 ^ 52) <= q / 2 ^ (exponentOf q - 52))%Q.
Proof.
  intros Hq.
  assert (¬ (q == 0)%Q) as Hne by lra.
  pose proof (exponentOf_le q Hne) as He.
  rewrite Qabs_pos in He by lra.
  apply Qle_shift_div_l; [apply pow2_pos |].
  rewrite pow2_Z by lia. rewrite <- Qpower_plus by apply two_neq_0.
  by replace (52 + (exponentOf q - 52))%Z with (exponentOf q) by lia.
Qed.

Lemma roundDouble_pos (q : Q) : (0 < q)%Q → (0 < roundDouble q)%Q.
Proof.
  intros Hq. rewrite roundDouble_eq by lra.
  pose proof (roundEven_ge _ _ (scaled_ge q Hq)) as Hr.
  pose proof (pow2_pos (exponentOf q - 52)) as Hu.
  assert (0 < inject_Z (roundEven (q / 2 ^ (exponentOf q - 52))))%Q as Hpos.
  { change 0%Q with (inject_Z 0). rewrite <- Zlt_Qlt.
    assert (0 < 2 ^ 52)%Z by done. lia. }
  by apply Qmult_lt_0_compat.
Qed.


Lemma exponentOf_small (q : Q) (m : Z) :
  (0 < q)%Q → (q <= inject_Z m)%Q → (m < 2 ^ 53)%Z → (exponentOf q ≤ 52)%Z.
Proof.
  intros Hq Hm Hm53.
  assert (¬ (q == 0)%Q) as Hne by lra.
  pose proof (exponentOf_le q Hne) as He. rewrite Qabs_pos in He by lra.
  destruct (Z.le_gt_cases (exponentOf q) 52) as [|Hgt]; [done |]. exfalso.
  assert (2 ^ 53 <= 2 ^ exponentOf q)%Q as Hpow
    by (apply Qpower_le_compat_l; [lia | done]).
  rewrite <- (pow2_Z 53) in Hpow by lia.
  rewrite Zlt_Qlt in Hm53. lra.
Qed.

(** Below [2^53] the grid of doubles contains the integers. *)
Lemma scaled_Z (q : Q) (n : Z) :
  (exponentOf q ≤ 52)%Z →
  (inject_Z n / 2 ^ (exponentOf q - 52)
   == inject_Z (n * 2 ^ (52 - exponentOf q)))%Q.
Proof.
  intros He. rewrite inject_Z_mult, pow2_Z by lia.
  replace (exponentOf q - 52)%Z with (- (52 - exponentOf q))%Z by lia.
  rewrite Qpower_opp. unfold Qdiv. by rewrite Qinv_involutive.
Qed.

Lemma unscaled_Z (q : Q) (n : Z) :
  (exponentOf q ≤ 52)%Z →
  (inject_Z (n * 2 ^ (52 - exponentOf q)) * 2 ^ (exponentOf q - 52)
   == inject_Z n)%Q.
Proof.
  intros He. rewrite <- scaled_Z by done. field.
  pose proof (pow2_pos (exponentOf q - 52)). lra.
Qed.

Lemma roundDouble_le_Z (q : Q) (m : Z) :
  (0 < q)%Q → (q <= inject_Z m)%Q → (m < 2 ^ 53)%Z →
  (roundDouble q <= inject_Z m)%Q.
Proof.
  intros Hq Hm Hm53.
  pose proof (exponentOf_small q m Hq Hm Hm53) as He.
  pose proof (pow2_pos (exponentOf q - 52)) as Hu.
  rewrite roundDouble_eq by lra.
  rewrite <- (unscaled_Z q m He).
  apply Qmult_le_compat_r; [| lra].
  rewrite <- Zle_Qle. apply roundEven_le. rewrite <- scaled_Z by done.
  apply Qmult_le_compat_r; [done |]. apply Qinv_le_0_compat. lra.
Qed.

Lemma roundDouble_ge_Z (q : Q) (n m : Z) :
  (0 < q)%Q → (inject_Z n <= q)%Q → (q <= inject_Z m)%Q → (m < 2 ^ 53)%Z →
  (inject_Z n <= roundDouble q)%Q.
Proof.
  intros Hq Hn Hm Hm53.
  pose proof (exponentOf_small q m Hq Hm Hm53) as He.
  pose proof (pow2_pos (exponentOf q - 52)) as Hu.
  rewrite roundDouble_eq by lra.
  rewrite <- (unscaled_Z q n He).
  apply Qmult_le_compat_r; [| lra].
  rewrite <- Zle_Qle. apply roundEven_ge. rewrite <- scaled_Z by done.
  apply Qmult_le_compat_r; [done |]. apply Qinv_le_0_compat. lra.
Qed.

(** Rounding keeps a number between two positive integers below [2^53]. *)
Lemma roundDouble_between (q : Q) (n m : Z) :
  (0 < n)%Z → (inject_Z n <= q)%Q → (q <= inject_Z m)%Q → (m < 2 ^ 53)%Z →
  (inject_Z n <= roundDouble q)%Q ∧ (roundDouble q <= inject_Z m)%Q.
Proof.
  intros Hn Hlo Hhi Hm53.
  assert (0 < q)%Q as Hq.
  { rewrite Zlt_Qlt in Hn. change (inject_Z 0) with 0%Q in Hn. lra. }
  split; [by apply (roundDouble_ge_Z q n m) | by apply roundDouble_le_Z].
Qed.

(** Rounding keeps a number between 0 and an integer below [2^53]. *)
Lemma roundDouble_range (q : Q) (m : Z) :
  (0 <= q)%Q → (q <= inject_Z m)%Q → (m < 2 ^ 53)%Z →
  (0 <= roundDouble q)%Q ∧ (roundDouble q <= inject_Z m)%Q.
Proof.
  intros H0 Hm Hm53. destruct (Qeq_dec q 0) as [Hq|Hq].
  - rewrite (roundDouble_0 q Hq). split; lra.
  - assert (0 < q)%Q as Hpos by lra. split.
    + apply Qlt_le_weak. by apply roundDouble_pos.
    + by apply roundDouble_le_Z.
Qed.

End NumberFacts.

(** ** Rating of a completed order *)







(** The boundary cases of a one-minute order: 46, 45, 30, 16, 15, 10 and 0
    seconds left, and an invalid dish.  The ratios 0.75 and 0.25 themselves
    fall in the lower tier. *)
Lemma rate_boundaries :
  Orders.rate 14000 true minuteOrder = (perfect, 100%Z)
  ∧ Orders.rate 15000 true minuteOrder = (good, 60%Z)
  ∧ Orders.rate 30000 true minuteOrder = (good, 60%Z)
  ∧ Orders.rate 44000 true minuteOrder = (good, 60%Z)
  ∧ Orders.rate 45000 true minuteOrder = (average, 30%Z)
  ∧ Orders.rate 50000 true minuteOrder = (average, 30%Z)
  ∧ Orders.rate 60000 true minuteOrder = (bad, 0%Z)
  ∧ Orders.rate 14000 false minuteOrder = (bad, 0%Z).
Proof. repeat split; vm_compute; reflexivity. Qed.

(** The ratio is the rounded one.  With 61 seconds left of a limit of
    81333.33333333333 ms the exact quotient is above three quarters, but the
    quotient of the doubles is 0.75 and the order is rated good. *)
Lemma rate_rounds_the_ratio :
  order_timeLimit thirdsOrder = (5589184107861333 # 68719476736)%Q
  ∧ secondsLeft 21000 thirdsOrder 61
  ∧ doubleRatio 61 thirdsOrder = (3 # 4)%Q
  ∧ (3 # 4 < timeRatio 21000 thirdsOrder)%Q
  ∧ Orders.rate 21000 true thirdsOrder = (good, 60%Z)
  ∧ rateExact 21000 true thirdsOrder = (perfect, 100%Z).
Proof.
  split; [vm_compute; reflexivity |]. split.
  { right. vm_compute. repeat split; discriminate || reflexivity. }
  repeat split; vm_compute; reflexivity.
Qed.


(** ** Expiry and the total score *)

(** C5.  Expiring an order marks it failed and moves it to the completed
    orders, but the total score reported by [getStats] is left as it was: the
    20 points of the feedback message are never subtracted.  The second part
    replays the expiry of a 75-second order whose countdown has reached 0. *)
Theorem expireOrder_leaves_totalScore :
  (∀ orderId os,
     Orders.stats_totalScore
       (Orders.getStats (snd (Orders.expireOrder orderId os)))
     = Orders.stats_totalScore (Orders.getStats os)) ∧
  (let before := run (GameOps.create 0) (take 2 expiryTrace) in
   let after := run (GameOps.create 0) expiryTrace in
   (Orders.getRemainingTime (clock before)
      <$> JsMap.get "order_1" (activeOrders (orderSystem before))) = Some 0%Z ∧
   activeOrders (orderSystem after) = [] ∧
   (order_rating <$> completedOrders (orderSystem after)) = [Some failed] ∧
   (order_isComplete <$> completedOrders (orderSystem after)) = [true] ∧
   Orders.stats_totalScore (Orders.getStats (orderSystem before)) = 0%Z ∧
   Orders.stats_totalScore (Orders.getStats (orderSystem after)) = 0%Z).
Proof.
  split.
  - intros orderId os. unfold Orders.expireOrder.
    destruct (JsMap.get orderId (activeOrders os)); reflexivity.
  - vm_compute. repeat split.
Qed.

(** ** Completing an order *)

(** C7, as stated, fails: an order that was spawned but never selected is
    completed all the same. *)
Lemma completeOrder_unselected_counterexample :
  Orders.getActiveOrder (orderSystem spawnedGame) = None ∧
  JsMap.has "order_1" (activeOrders (orderSystem spawnedGame)) = true ∧
  Orders.completeOrder 1000 "order_1" true (orderSystem spawnedGame)
  ≠ (None, orderSystem spawnedGame).
Proof.
  split; [reflexivity |]. split; [reflexivity |].
  intros H. apply (f_equal fst) in H. vm_compute in H. discriminate H.
Qed.

(** C7, amended.  [completeOrder] fails, changing nothing, exactly when the
    id is not among the orders still open (it is unknown, or the order has
    been completed or has expired); on every open order, selected or not, it
    succeeds: the order is marked complete, leaves the open orders and joins
    the completed ones, after which completing it again fails. *)
Theorem completeOrder_fails_iff_not_open
  (now : Z) (orderId : string) (dishValid : bool) (os : OrderSystem) :
  (fst (Orders.completeOrder now orderId dishValid os) = None
   ↔ JsMap.get orderId (activeOrders os) = None) ∧
  (JsMap.get orderId (activeOrders os) = None →
   Orders.completeOrder now orderId dishValid os = (None, os)) ∧
  (∀ o, JsMap.get orderId (activeOrders os) = Some o →
     ∃ rating os',
       Orders.completeOrder now orderId dishValid os
         = (Some (Orders.complete rating o), os') ∧
       order_isComplete (Orders.complete rating o) = true ∧
       activeOrders os' = JsMap.delete orderId (activeOrders os) ∧
       completedOrders os' = completedOrders os ++ [Orders.complete rating o] ∧
       ordersCompleted os' = (ordersCompleted os + 1)%Z ∧
       (NoDup (JsMap.keys (activeOrders os)) →
        ∀ now' dishValid',
          Orders.completeOrder now' orderId dishValid' os' = (None, os'))).
Proof.
  unfold Orders.completeOrder.
  destruct (JsMap.get orderId (activeOrders os)) as [o|] eqn:Hget.
  - destruct (Orders.rate now dishValid o) as [rating score] eqn:E.
    split; [split; discriminate |]. split; [discriminate |].
    intros o' [= <-]. eexists rating, _. split; [reflexivity |].
    do 4 (split; [reflexivity |]).
    intros Hnd now' dishValid'. cbn [activeOrders].
    by rewrite jsmap_get_delete_eq.
  - split; [done |]. split; [done |]. discriminate.
Qed.

(** ** Applying a tool to a dish *)

Section ToolFacts.
Import DishSystemOps.

Lemma lookup_getDish_putDish (dishId : string) (d : Dish) (ds : DishSystem) :
  getDish dishId (putDish dishId d ds) = Some d.
Proof. unfold getDish, putDish. cbn [dishes]. apply jsmap_get_set_eq. Qed.

Lemma lookup_getDish_putDish_ne (dishId other : string) (d : Dish)
  (ds : DishSystem) :
  dishId ≠ other → getDish other (putDish dishId d ds) = getDish other ds.
Proof.
  intros Hne. unfold getDish, putDish. cbn [dishes].
  by apply jsmap_get_set_ne.
Qed.

(** A step that exists and is the last one makes the counter reach the
    length, and only then. *)
Lemma leb_length_last {A : Type} (l : list A) (n : nat) (x : A) :
  l !! n = Some x → Nat.leb (length l) (S n) = bool_decide (S n = length l).
Proof.
  intros Hl. apply lookup_lt_Some in Hl.
  destruct (Nat.leb_spec (length l) (S n)).
  - symmetry. apply bool_decide_eq_true. lia.
  - symmetry. apply bool_decide_eq_false. lia.
Qed.

(** The loop of [useToolOnDish] stops at the first ingredient, in recipe
    order, that accepts the tool. *)
Lemma prepLoop_first_match (toolId : string) (dish : Dish)
  (ings : list IngredientSpec) :
  prepLoop toolId (currentIngredients dish) (ingredientStates dish) ings
  = match List.find (accepts toolId dish) ings with
    | Some ing =>
        (λ st, <[ing_id ing := oneMorePrepStep ing st]> (ingredientStates dish))
          <$> ingredientStates dish !! ing_id ing
    | None => None
    end.
Proof.
  induction ings as [|ing ings IH]; [done |].
  cbn [prepLoop List.find]. unfold accepts at 1.
  destruct (bool_decide (ing_id ing ∈ currentIngredients dish)); cbn; [| exact IH].
  destruct (ingredientStates dish !! ing_id ing) as [st|] eqn:Hst; [| exact IH].
  destruct (isReady st) eqn:Hready; cbn; [exact IH |].
  destruct (ing_prepSteps ing !! prepStepsCompleted st) as [s|] eqn:Hs;
    [| exact IH].
  destruct (String.eqb (step_action s) toolId); [| exact IH].
  rewrite Hst. cbn. unfold oneMorePrepStep.
  rewrite (leb_length_last _ _ _ Hs).
  by destruct (bool_decide _).
Qed.

Lemma accepts_state (toolId : string) (dish : Dish) (ing : IngredientSpec) :
  accepts toolId dish ing = true →
  ∃ st, ingredientStates dish !! ing_id ing = Some st ∧ isReady st = false.
Proof.
  unfold accepts. intros [_ H]%andb_prop.
  destruct (ingredientStates dish !! ing_id ing) as [st|]; [| done].
  apply andb_prop in H as [H _]. exists st. split; [done |].
  by destruct (isReady st).
Qed.

(** C2.  One call of [useToolOnDish] on the dish [dish]: the first ingredient
    of the recipe, in recipe order, that is added, not ready and whose next
    pending prep step is done with the tool gets exactly one more completed
    prep step, and nothing else changes; if there is none and the tool is the
    action of the current final step, the final-step counter grows by one and
    nothing else changes (but the derived completion flag); otherwise the call
    returns [false] and the state is the one it was given.  No step counter
    decreases or grows by more than one. *)
Theorem useToolOnDish_one_step
  (dishId toolId : string) (ds : DishSystem) (dish : Dish) :
  getDish dishId ds = Some dish →
  match List.find (accepts toolId dish) (dish_ingredients dish) with
  | Some ing =>
      ∃ st, ingredientStates dish !! ing_id ing = Some st ∧
        useToolOnDish dishId toolId ds
        = (true,
           putDish dishId
             (withProgress dish (currentIngredients dish)
                (<[ing_id ing := oneMorePrepStep ing st]>
                   (ingredientStates dish))
                (finalStepsProgress dish) (isComplete dish))
             ds)
  | None =>
      if finalAccepts toolId dish
      then useToolOnDish dishId toolId ds
           = (true, putDish dishId (oneMoreFinalStep dish) ds)
      else useToolOnDish dishId toolId ds = (false, ds)
  end
  ∧ ∀ dish',
      getDish dishId (snd (useToolOnDish dishId toolId ds)) = Some dish' →
      finalStepsProgress dish ≤ finalStepsProgress dish'
        ≤ S (finalStepsProgress dish)
      ∧ ∀ i st, ingredientStates dish !! i = Some st →
          ∃ st', ingredientStates dish' !! i = Some st'
            ∧ prepStepsCompleted st ≤ prepStepsCompleted st'
                ≤ S (prepStepsCompleted st).
Proof.
  intros Hdish. unfold useToolOnDish. rewrite Hdish, prepLoop_first_match.
  destruct (List.find (accepts toolId dish) (dish_ingredients dish))
    as [ing|] eqn:Hfind.
  - apply find_some in Hfind as [_ Hacc].
    destruct (accepts_state _ _ _ Hacc) as (st & Hst & _).
    rewrite Hst. cbn [fmap option_fmap option_map]. split; [by exists st |].
    intros dish'. cbn [snd]. rewrite lookup_getDish_putDish. intros [= <-].
    cbn. split; [lia |]. intros i st0 Hi.
    destruct (decide (ing_id ing = i)) as [<-|Hne].
    + rewrite lookup_insert_eq. eexists; split; [done |].
      rewrite Hst in Hi. injection Hi as <-. cbn. lia.
    + rewrite lookup_insert_ne by done. exists st0. split; [done | lia].
  - unfold finalAccepts, oneMoreFinalStep.
    destruct (dish_finalSteps dish !! finalStepsProgress dish) as [s|] eqn:Hs.
    + destruct (String.eqb (step_action s) toolId).
      * rewrite (leb_length_last _ _ _ Hs). split.
        { by destruct (bool_decide _), (isComplete dish). }
        intros dish'. cbn [snd]. rewrite lookup_getDish_putDish.
        intros [= <-]. cbn. split; [lia |]. intros i st0 Hi.
        exists st0. split; [done | lia].
      * split; [done |]. intros dish'. cbn [snd]. rewrite Hdish.
        intros [= <-]. split; [lia |]. intros i st0 Hi.
        exists st0. split; [done | lia].
    + split; [done |]. intros dish'. cbn [snd]. rewrite Hdish.
      intros [= <-]. split; [lia |]. intros i st0 Hi.
      exists st0. split; [done | lia].
Qed.

(** Slicing the bun that was added to a classic burger. *)
Lemma useToolOnDish_one_step_witness :
  ∃ dish,
    getDish "classic_burger" bunAdded = Some dish ∧
    (match List.find (accepts "slice" dish) (dish_ingredients dish) with
     | Some ing =>
         ∃ st, ingredientStates dish !! ing_id ing = Some st ∧
           useToolOnDish "classic_burger" "slice" bunAdded
           = (true,
              putDish "classic_burger"
                (withProgress dish (currentIngredients dish)
                   (<[ing_id ing := oneMorePrepStep ing st]>
                      (ingredientStates dish))
                   (finalStepsProgress dish) (isComplete dish))
                bunAdded)
     | None =>
         if finalAccepts "slice" dish
         then useToolOnDish "classic_burger" "slice" bunAdded
              = (true, putDish "classic_burger" (oneMoreFinalStep dish) bunAdded)
         else useToolOnDish "classic_burger" "slice" bunAdded = (false, bunAdded)
     end
     ∧ ∀ dish',
         getDish "classic_burger"
           (snd (useToolOnDish "classic_burger" "slice" bunAdded))
         = Some dish' →
         finalStepsProgress dish ≤ finalStepsProgress dish'
           ≤ S (finalStepsProgress dish)
         ∧ ∀ i st, ingredientStates dish !! i = Some st →
             ∃ st', ingredientStates dish' !! i = Some st'
               ∧ prepStepsCompleted st ≤ prepStepsCompleted st'
                   ≤ S (prepStepsCompleted st)).
Proof.
  eexists. split; [reflexivity |].
  apply (useToolOnDish_one_step "classic_burger" "slice" bunAdded).
  reflexivity.
Defined.

End ToolFacts.

(** ** Validity of a dish and serving *)

Section ValidityFacts.
Import DishSystemOps.

Lemma ingredientOk_true (dish : Dish) (ing : IngredientSpec) :
  ingredientOk dish ing = true
  ↔ ing_id ing ∈ currentIngredients dish
    ∧ ∃ st, ingredientStates dish !! ing_id ing = Some st ∧ isReady st = true.
Proof.
  unfold ingredientOk.
  destruct (bool_decide_reflect (ing_id ing ∈ currentIngredients dish))
    as [Hin|Hnotin]; cbn.
  - destruct (ingredientStates dish !! ing_id ing) as [st|].
    + split; [intros H; eauto | intros [_ (st' & [= <-] & H)]; done].
    + split; [done | intros [_ (st' & [=] & _)]].
  - split; [done | intros [? _]; done].
Qed.

Lemma isDishValid_requiredReady (dishId : string) (ds : DishSystem)
  (dish : Dish) :
  getDish dishId ds = Some dish →
  isDishValid dishId ds = true ↔ requiredReady dish.
Proof.
  intros Hdish. unfold isDishValid, requiredReady. rewrite Hdish.
  rewrite forallb_forall. split.
  - intros H ing Hin Hreq. apply ingredientOk_true, H.
    apply filter_In. split; [by apply list_elem_of_In | done].
  - intros H ing [Hin Hreq]%filter_In. apply ingredientOk_true.
    apply H; [by apply list_elem_of_In | done].
Qed.

(** C8.  For the selected order: [serveDish] succeeds exactly when
    [isDishValid] holds of the order's dish, whatever the completion flag and
    the final-step counter of the dish are; [isDishValid] holds exactly when
    every required ingredient of the recipe is in the added set and ready;
    and a second dish state that agrees with the first on the required
    ingredients, and differs in any way on the optional ones, has the same
    validity. *)
Theorem isDishValid_required_ready_gate (g : Game) (o : Order) :
  Orders.getActiveOrder (orderSystem g) = Some o →
  fst (GameOps.serveDish g) = isDishValid (order_dishId o) (dishSystem g) ∧
  ∀ dish,
    getDish (order_dishId o) (dishSystem g) = Some dish →
    (isDishValid (order_dishId o) (dishSystem g) = true ↔ requiredReady dish) ∧
    (∀ ds2 dish2,
       getDish (order_dishId o) ds2 = Some dish2 →
       dish_ingredients dish2 = dish_ingredients dish →
       (∀ ing, ing ∈ dish_ingredients dish → ing_required ing = true →
          (ing_id ing ∈ currentIngredients dish2
           ↔ ing_id ing ∈ currentIngredients dish)
          ∧ ingredientStates dish2 !! ing_id ing
            = ingredientStates dish !! ing_id ing) →
       isDishValid (order_dishId o) ds2
       = isDishValid (order_dishId o) (dishSystem g)).
Proof.
  intros Hactive. split.
  - unfold GameOps.serveDish. rewrite Hactive.
    destruct (getDish (order_dishId o) (dishSystem g)) as [dish|] eqn:Hdish.
    + destruct (isDishValid (order_dishId o) (dishSystem g)); cbn; [| done].
      destruct (Orders.completeOrder _ _ _ _), (resetDish _ _). done.
    + unfold isDishValid. by rewrite Hdish.
  - intros dish Hdish. split; [by apply isDishValid_requiredReady |].
    intros ds2 dish2 Hdish2 Hings Hagree.
    apply eq_true_iff_eq.
    rewrite (isDishValid_requiredReady _ _ _ Hdish2).
    rewrite (isDishValid_requiredReady _ _ _ Hdish).
    unfold requiredReady. rewrite Hings. split; intros H ing Hin Hreq.
    + destruct (Hagree ing Hin Hreq) as [Hcur Hst].
      rewrite <- Hcur, <- Hst. by apply H.
    + destruct (Hagree ing Hin Hreq) as [Hcur Hst].
      rewrite Hcur, Hst. by apply H.
Qed.

(** Fried chicken with salt, pepper and fried chicken breast, not plated:
    the dish is valid, not complete, and it is served. *)
Lemma isDishValid_required_ready_gate_witness :
  ∃ o,
    Orders.getActiveOrder (orderSystem friedChickenGame) = Some o ∧
    (isComplete <$> getDish (order_dishId o) (dishSystem friedChickenGame))
    = Some false ∧
    fst (GameOps.serveDish friedChickenGame) = true ∧
    (fst (GameOps.serveDish friedChickenGame)
     = isDishValid (order_dishId o) (dishSystem friedChickenGame) ∧
     ∀ dish,
       getDish (order_dishId o) (dishSystem friedChickenGame) = Some dish →
       (isDishValid (order_dishId o) (dishSystem friedChickenGame) = true
        ↔ requiredReady dish) ∧
       (∀ ds2 dish2,
          getDish (order_dishId o) ds2 = Some dish2 →
          dish_ingredients dish2 = dish_ingredients dish →
          (∀ ing, ing ∈ dish_ingredients dish → ing_required ing = true →
             (ing_id ing ∈ currentIngredients dish2
              ↔ ing_id ing ∈ currentIngredients dish)
             ∧ ingredientStates dish2 !! ing_id ing
               = ingredientStates dish !! ing_id ing) →
          isDishValid (order_dishId o) ds2
          = isDishValid (order_dishId o) (dishSystem friedChickenGame))).
Proof.
  eexists. split; [reflexivity |]. split; [reflexivity |].
  split; [reflexivity |].
  apply (isDishValid_required_ready_gate friedChickenGame); reflexivity.
Defined.

End ValidityFacts.

(** ** Reachable states *)

Lemma run_snoc (g : Game) (cs : list Command) (c : Command) :
  run g (cs ++ [c]) = step (run g cs) c.
Proof. unfold run. by rewrite fold_left_app. Qed.

(** Induction over the commands that led to a state. *)
Lemma run_invariant (P : Game → Prop) (g : Game) (cs : list Command) :
  P g → (∀ g' c, P g' → P (step g' c)) → P (run g cs).
Proof.
  intros Hinit Hstep. induction cs as [|c cs IH] using rev_ind; [done |].
  rewrite run_snoc. by apply Hstep.
Qed.

Lemma reachable_invariant (P : Game → Prop) :
  (∀ t0, P (GameOps.create t0)) → (∀ g c, P g → P (step g c)) →
  ∀ g, reachable g → P g.
Proof.
  intros Hinit Hstep g (t0 & cs & ->). by apply run_invariant.
Qed.

(** ** At most one active order *)

Section OrderFacts.
Import Orders.
Implicit Types (act : list (string * Order)) (os : OrderSystem).

Local Ltac os_simpl :=
  cbn [activeOrders completedOrders snd withOrders withRunning].

Lemma activeCount_set_le k o act :
  activeCount (JsMap.set k o act)
  ≤ activeCount act + (if order_isActive o then 1 else 0).
Proof.
  unfold activeCount. induction act as [|[k' o'] act IH]; cbn.
  - destruct (order_isActive o); cbn; lia.
  - destruct (decide (k = k')); cbn.
    + destruct (order_isActive o), (order_isActive o'); cbn; lia.
    + destruct (order_isActive o'); cbn; lia.
Qed.

Lemma activeCount_delete_le k act :
  activeCount (JsMap.delete k act) ≤ activeCount act.
Proof.
  unfold activeCount. induction act as [|[k' o'] act IH]; cbn; [done |].
  destruct (decide (k = k')); cbn.
  - destruct (order_isActive o'); cbn; lia.
  - destruct (order_isActive o'); cbn; lia.
Qed.

Lemma activeCount_demote act :
  activeCount (demoteFirstActive act) = pred (activeCount act).
Proof.
  unfold activeCount. induction act as [|[k o] act IH]; cbn; [done |].
  destruct (order_isActive o) eqn:E; cbn; [done |]. by rewrite E.
Qed.

Lemma keys_demote act :
  JsMap.keys (demoteFirstActive act) = JsMap.keys act.
Proof.
  unfold JsMap.keys. induction act as [|[k o] act IH]; csimpl; [done |].
  destruct (order_isActive o); csimpl; [done | by rewrite IH].
Qed.

Lemma open_demote act :
  Forall (λ kv, order_isComplete kv.2 = false) act →
  Forall (λ kv, order_isComplete kv.2 = false) (demoteFirstActive act).
Proof.
  induction 1 as [|[k o] act Ho Hact IH]; cbn; [done |].
  destruct (order_isActive o); by apply Forall_cons.
Qed.

Lemma ordersOk_withRunning os b : ordersOk os → ordersOk (withRunning os b).
Proof. done. Qed.

Lemma ordersOk_clearAllOrders os : ordersOk (clearAllOrders os).
Proof.
  unfold ordersOk, clearAllOrders, activeCount. cbn.
  repeat split; [apply NoDup_nil_2 | | | lia]; done.
Qed.

Lemma ordersOk_spawnOrder now newId pick jitter ds os :
  ordersOk os → ordersOk (snd (spawnOrder now newId pick jitter ds os)).
Proof.
  intros (Hnd & Hopen & Hdone & Hcount). unfold spawnOrder.
  destruct (Nat.leb _ _); [done |].
  destruct (DishSystemOps.getAllDishes ds !! pick) as [dish|]; [| done].
  unfold ordersOk; os_simpl. repeat split.
  - by apply jsmap_NoDup_set.
  - by apply jsmap_Forall_set.
  - done.
  - etrans; [apply activeCount_set_le |]. cbn. lia.
Qed.

Lemma ordersOk_demote os :
  ordersOk os → ordersOk (withOrders os (demoteFirstActive (activeOrders os))).
Proof.
  intros (Hnd & Hopen & Hdone & Hcount). unfold ordersOk; os_simpl.
  repeat split.
  - by rewrite keys_demote.
  - by apply open_demote.
  - done.
  - rewrite activeCount_demote. lia.
Qed.

Lemma ordersOk_selectOrder orderId os :
  ordersOk os → ordersOk (snd (selectOrder orderId os)).
Proof.
  intros (Hnd & Hopen & Hdone & Hcount). unfold selectOrder.
  destruct (JsMap.get orderId (activeOrders os)) as [order|] eqn:Hget; [| done].
  unfold ordersOk; os_simpl. repeat split.
  - apply jsmap_NoDup_set. by rewrite keys_demote.
  - apply jsmap_Forall_set; [by apply open_demote |].
    apply (jsmap_Forall_get _ _ _ _ Hopen Hget).
  - done.
  - etrans; [apply activeCount_set_le |]. rewrite activeCount_demote.
    cbn [order_isActive withActive]. lia.
Qed.

Lemma ordersOk_completeOrder now orderId dishValid os :
  ordersOk os → ordersOk (snd (completeOrder now orderId dishValid os)).
Proof.
  intros (Hnd & Hopen & Hdone & Hcount). unfold completeOrder.
  destruct (JsMap.get orderId (activeOrders os)) as [order|]; [| done].
  destruct (rate now dishValid order) as [rating score].
  unfold ordersOk; os_simpl. repeat split.
  - by apply jsmap_NoDup_delete.
  - by apply jsmap_Forall_delete.
  - apply Forall_app. split; [done | by apply Forall_singleton].
  - etrans; [apply activeCount_delete_le | done].
Qed.

Lemma ordersOk_expireOrder orderId os :
  ordersOk os → ordersOk (snd (expireOrder orderId os)).
Proof.
  intros (Hnd & Hopen & Hdone & Hcount). unfold expireOrder.
  destruct (JsMap.get orderId (activeOrders os)) as [order|]; [| done].
  unfold ordersOk; os_simpl. repeat split.
  - by apply jsmap_NoDup_delete.
  - by apply jsmap_Forall_delete.
  - apply Forall_app. split; [done | by apply Forall_singleton].
  - etrans; [apply activeCount_delete_le | done].
Qed.

End OrderFacts.

(** A result bound by a destructuring [let] is the second projection of the
    call. *)
Ltac name_snd :=
  repeat match goal with
         | H : ?call = (_, ?x) |- _ =>
             is_var x; apply (f_equal snd) in H; cbn [snd] in H; subst x
         end.

Lemma ordersOk_step (g : Game) (c : Command) :
  ordersOk (orderSystem g) → ordersOk (orderSystem (step g c)).
Proof.
  intros Hok. destruct c; cbn [step].
  - unfold GameOps.startGame. destruct (isRunning g); [done |].
    destruct (Orders.spawnOrder _ _ _ _ _ _) as [r os'] eqn:E. name_snd.
    cbn [orderSystem].
    by apply ordersOk_spawnOrder, ordersOk_withRunning.
  - unfold GameOps.pauseGame. destruct (negb (isRunning g)); [done |].
    by apply ordersOk_withRunning.
  - apply ordersOk_clearAllOrders.
  - unfold GameOps.spawnTimer. case_match; [| done].
    by apply ordersOk_spawnOrder.
  - unfold GameOps.orderTimer. repeat case_match; try done.
    by apply ordersOk_expireOrder.
  - done.
  - by apply ordersOk_selectOrder.
  - unfold GameOps.selectOrder.
    destruct (Orders.selectOrder orderId (orderSystem g)) as [[o|] os'] eqn:E;
      [| done].
    destruct (Manager.setActiveDish _ _ _ _). name_snd.
    by apply ordersOk_selectOrder.
  - unfold GameOps.addIngredient.
    by destruct (DishSystemOps.addIngredientToDish _ _ _).
  - unfold GameOps.useTool. repeat case_match; done.
  - unfold GameOps.serveDish. repeat case_match; try done. name_snd.
    by apply ordersOk_completeOrder.
  - unfold GameOps.cancelCurrentDish. repeat case_match; try done.
    by apply ordersOk_demote.
  - unfold GameOps.retrieveCookedItems. repeat case_match; done.
  - done.
Qed.

Lemma ordersOk_reachable (g : Game) : reachable g → ordersOk (orderSystem g).
Proof.
  revert g. apply reachable_invariant.
  - intros t0. unfold ordersOk, activeCount. cbn.
    repeat split; [apply NoDup_nil_2 | | | lia]; done.
  - intros g c. apply ordersOk_step.
Qed.

Lemma activeStatusCount_ordersOk (os : OrderSystem) :
  ordersOk os → activeStatusCount os = activeCount (activeOrders os).
Proof.
  intros (_ & Hopen & Hdone & _).
  unfold activeStatusCount, allOrders, activeCount, JsMap.values.
  rewrite List.filter_app, length_app.
  replace (List.filter isActiveStatus (completedOrders os)) with (@nil Order).
  - rewrite Nat.add_0_r. clear Hdone.
    induction Hopen as [|[k o] act Ho Hact IH]; csimpl; [done |].
    cbn in Ho. unfold isActiveStatus at 1, status. rewrite Ho.
    destruct (order_isActive o); cbn; by rewrite IH.
  - clear Hopen. induction Hdone as [|o l Ho Hl IH]; cbn; [done |].
    unfold isActiveStatus at 1, status. rewrite Ho.
    by destruct (order_rating o) as [[]|].
Qed.

Lemma find_active_set (act : list (string * Order)) (k : string) (o : Order) :
  activeCount act = 0 → order_isActive o = true →
  List.find (λ order, order_isActive order) (JsMap.values (JsMap.set k o act))
  = Some o.
Proof.
  unfold activeCount, JsMap.values. intros Hnone Hact.
  induction act as [|[k' o'] act IH]; csimpl.
  - by rewrite Hact.
  - cbn in Hnone. destruct (order_isActive o') eqn:E; [done |].
    destruct (decide (k = k')); csimpl.
    + by rewrite Hact.
    + rewrite E. by apply IH.
Qed.

Lemma inactive_get (act : list (string * Order)) (k : string) (o : Order) :
  activeCount act = 0 → JsMap.get k act = Some o → order_isActive o = false.
Proof.
  unfold activeCount. induction act as [|[k0 o0] act IH]; cbn; [done |].
  destruct (order_isActive o0) eqn:E; cbn; [done |].
  destruct (decide (k = k0)); [by intros _ [= <-] | exact IH].
Qed.

Lemma withActive_same (o : Order) :
  order_isActive o = false → Orders.withActive o false = o.
Proof. destruct o. cbn. by intros ->. Qed.

(** After the demotion every open order is where it was, with its flag
    cleared. *)
Lemma demote_get (act : list (string * Order)) (k : string) (o : Order) :
  activeCount act ≤ 1 → JsMap.get k act = Some o →
  JsMap.get k (Orders.demoteFirstActive act)
  = Some (Orders.withActive o false).
Proof.
  unfold activeCount. induction act as [|[k0 o0] act IH]; cbn; [done |].
  destruct (order_isActive o0) eqn:E; cbn.
  - intros Hcount. destruct (decide (k = k0)); [by intros [= <-] |].
    intros Hget. rewrite withActive_same; [done |].
    apply (inactive_get act k); [unfold activeCount; lia | done].
  - intros Hcount. destruct (decide (k = k0)); [| by apply IH].
    intros [= <-]. by rewrite withActive_same.
Qed.

(** C10.  In every reachable state at most one order has status active, and
    selecting an order keeps it so by demoting the order that was active.
    Selecting an unknown id changes nothing.  Selecting an open order returns
    it, leaves it stored under its id as the one active order, and leaves
    every other open order stored where it was with the same data and its
    flag cleared, so that the order that was active before is pending; no
    order is added or removed, and the terminal orders are as before. *)
Theorem at_most_one_active_order :
  (∀ g, reachable g → activeStatusCount (orderSystem g) ≤ 1) ∧
  (∀ orderId os,
     ordersOk os →
     let os' := snd (Orders.selectOrder orderId os) in
     activeStatusCount os' ≤ 1
     ∧ (JsMap.get orderId (activeOrders os) = None →
        Orders.selectOrder orderId os = (None, os))
     ∧ (∀ order,
          fst (Orders.selectOrder orderId os) = Some order →
          Orders.getActiveOrder os' = Some order
          ∧ JsMap.get orderId (activeOrders os') = Some order
          ∧ status order = active
          ∧ (∃ o, JsMap.get orderId (activeOrders os) = Some o
                  ∧ order = Orders.withActive o true)
          ∧ (∀ k o,
               k ≠ orderId →
               JsMap.get k (activeOrders os) = Some o →
               JsMap.get k (activeOrders os')
               = Some (Orders.withActive o false)
               ∧ status (Orders.withActive o false) = pending)
          ∧ (∀ k,
               JsMap.get k (activeOrders os) = None →
               JsMap.get k (activeOrders os') = None)
          ∧ JsMap.keys (activeOrders os') = JsMap.keys (activeOrders os)
          ∧ completedOrders os' = completedOrders os)).
Proof.
  split.
  - intros g Hg. apply ordersOk_reachable in Hg.
    rewrite (activeStatusCount_ordersOk _ Hg). apply Hg.
  - intros orderId os Hok os'. split; [| split].
    + pose proof (ordersOk_selectOrder orderId os Hok) as Hok'.
      unfold os'. rewrite (activeStatusCount_ordersOk _ Hok'). apply Hok'.
    + unfold Orders.selectOrder. by intros ->.
    + destruct Hok as (_ & Hopen & _ & Hcount).
      unfold os', Orders.selectOrder, Orders.getActiveOrder.
      destruct (JsMap.get orderId (activeOrders os)) as [o|] eqn:Hget;
        [| done].
      cbn [fst snd activeOrders completedOrders Orders.withOrders].
      intros order [= <-].
      pose proof (jsmap_Forall_get _ _ _ _ Hopen Hget) as Ho. cbn in Ho.
      split; [| split; [| split; [| split; [| split; [| split; [| split]]]]]].
      * apply find_active_set; [| done]. rewrite activeCount_demote. lia.
      * apply jsmap_get_set_eq.
      * unfold status. cbn. by rewrite Ho.
      * by exists o.
      * intros k o1 Hne Hk. rewrite jsmap_get_set_ne by done. split.
        -- by apply demote_get.
        -- pose proof (jsmap_Forall_get _ _ _ _ Hopen Hk) as Ho1. cbn in Ho1.
           unfold status. cbn. by rewrite Ho1.
      * intros k Hk. assert (orderId ≠ k) as Hne by congruence.
        rewrite jsmap_get_set_ne by done.
        apply jsmap_get_None_keys. rewrite keys_demote.
        by apply jsmap_get_None_keys.
      * rewrite (jsmap_keys_set_existing _ _ (Orders.withActive o false)).
        -- apply keys_demote.
        -- by apply demote_get.
      * done.
Qed.

(** ** Capacity of the cooking stations *)

Section StationFacts.
Implicit Types (st : CookingStation) (m : CookingStationManager)
  (sts : list (string * CookingStation)).

Lemma jsmap_has_set_mono {V : Type} (i k : nat) (v : V)
  (items : list (nat * V)) :
  JsMap.has i items = true → JsMap.has i (JsMap.set k v items) = true.
Proof.
  unfold JsMap.has. destruct (decide (k = i)) as [->|Hne].
  - by rewrite jsmap_get_set_eq.
  - by rewrite jsmap_get_set_ne.
Qed.

Lemma stationOk_size st :
  stationOk st → JsMap.size (st_currentItems st) ≤ st_cookingSlots st.
Proof.
  intros [Hnd Hlt]. unfold JsMap.size.
  assert (JsMap.keys (st_currentItems st) ⊆+ seq 0 (st_cookingSlots st))
    as Hsub.
  { apply NoDup_submseteq; [exact Hnd |].
    intros i Hi. apply list_elem_of_fmap in Hi as ([k v] & -> & Hkv).
    rewrite Forall_forall in Hlt. apply Hlt in Hkv. cbn in *.
    apply elem_of_seq. lia. }
  apply submseteq_length in Hsub. unfold JsMap.keys in Hsub.
  by rewrite length_fmap, length_seq in Hsub.
Qed.

Lemma stationOk_withActive st b : stationOk st → stationOk (Station.withActive st b).
Proof. done. Qed.

Lemma stationOk_cookingTimer st slotIndex :
  stationOk st → stationOk (Station.cookingTimer slotIndex st).
Proof.
  intros [Hnd Hlt]. unfold Station.cookingTimer.
  destruct (JsMap.get slotIndex (st_currentItems st)) as [item|] eqn:Hget;
    [| done].
  split; cbn [st_currentItems st_cookingSlots Station.withItems].
  - by apply jsmap_NoDup_set.
  - apply jsmap_Forall_set; [done |].
    apply (jsmap_Forall_get _ _ _ _ Hlt Hget).
Qed.

Lemma stationOk_addItem now slotIndex name action ingredient cookingTime st :
  stationOk st →
  stationOk
    (snd (Station.addItem now slotIndex name action ingredient cookingTime st)).
Proof.
  intros [Hnd Hlt]. unfold Station.addItem.
  destruct (Nat.leb_spec (st_cookingSlots st) slotIndex); [done |].
  split; cbn [snd st_currentItems st_cookingSlots Station.withItems].
  - by apply jsmap_NoDup_set.
  - by apply jsmap_Forall_set.
Qed.

Lemma stationOk_removeItem st slotIndex :
  stationOk st → stationOk (snd (Station.removeItem slotIndex st)).
Proof.
  intros [Hnd Hlt].
  split; cbn [snd st_currentItems st_cookingSlots Station.withItems
              Station.removeItem].
  - by apply jsmap_NoDup_delete.
  - by apply jsmap_Forall_delete.
Qed.

Lemma stationsOk_set sts sid st :
  Forall (λ ks, stationOk ks.2) sts → stationOk st →
  Forall (λ ks, stationOk ks.2) (JsMap.set sid st sts).
Proof. intros. by apply jsmap_Forall_set. Qed.

Lemma stationsOk_onStation sts key (f : CookingStation → CookingStation) :
  (∀ st, stationOk st → stationOk (f st)) →
  Forall (λ ks, stationOk ks.2) sts →
  Forall (λ ks, stationOk ks.2) (Manager.onStation key f sts).
Proof.
  intros Hf Hsts. unfold Manager.onStation.
  destruct (JsMap.get key sts) as [st|] eqn:Hget; [| done].
  apply stationsOk_set; [done |]. apply Hf.
  apply (jsmap_Forall_get _ _ _ _ Hsts Hget).
Qed.

Lemma stationsOk_setActiveDish dishId stationId ds m :
  stationsOk m → stationsOk (snd (Manager.setActiveDish dishId stationId ds m)).
Proof.
  intros Hok. unfold Manager.setActiveDish.
  destruct (DishSystemOps.getDish dishId ds) as [dish|]; [| done].
  cbn [stations]. case_match; [| done].
  unfold stationsOk. cbn [snd stations activeStation].
  apply stationsOk_onStation; [by intros; apply stationOk_withActive |].
  destruct (activeStation m); [| done].
  apply stationsOk_onStation; [by intros; apply stationOk_withActive | done].
Qed.

Lemma stationsOk_clearCurrentDish m :
  stationsOk m → stationsOk (Manager.clearCurrentDish m).
Proof.
  intros Hok. unfold stationsOk, Manager.clearCurrentDish. cbn [stations].
  destruct (activeStation m); [| done].
  apply stationsOk_onStation; [by intros; apply stationOk_withActive | done].
Qed.

Lemma stationsOk_handleCookingAction now action ingredient ds m :
  stationsOk m →
  stationsOk (snd (Manager.handleCookingAction now action ingredient ds m)).
Proof.
  intros Hok. unfold Manager.handleCookingAction.
  destruct (activeStation m) as [sid|]; [| done].
  destruct (currentDish m) as [dishId|]; [| done].
  destruct (negb (truthy dishId)); [done |].
  destruct (JsMap.get sid (stations m)) as [station|] eqn:Hst; [| done].
  destruct (DishSystemOps.getDish dishId ds) as [dish|]; [| done].
  destruct (negb _); [done |]. destruct (Nat.ltb _ _); [| done].
  destruct (Station.getNextAvailableSlot station) as [slotIndex|]; [| done].
  destruct (Station.addItem _ _ _ _ _ _ _) as [ok station'] eqn:E. name_snd.
  unfold stationsOk. cbn [snd stations].
  apply stationsOk_set; [done |]. apply stationOk_addItem.
  apply (jsmap_Forall_get _ _ _ _ Hok Hst).
Qed.

Lemma stationsOk_removeCookedItem stationId slotIndex m :
  stationsOk m →
  stationsOk (snd (Manager.removeCookedItem stationId slotIndex m)).
Proof.
  intros Hok. unfold Manager.removeCookedItem.
  destruct (JsMap.get stationId (stations m)) as [station|] eqn:Hst; [| done].
  destruct (JsMap.get slotIndex (st_currentItems station)) as [item|]; [| done].
  destruct (negb (ci_isReady item)); [done |].
  unfold stationsOk. cbn [snd stations Station.removeItem].
  apply stationsOk_set; [done |].
  apply (stationOk_removeItem station slotIndex).
  apply (jsmap_Forall_get _ _ _ _ Hok Hst).
Qed.

Lemma stationsOk_retrieve dishId readyItems retrieved ds m :
  stationsOk m →
  stationsOk
    (snd (fold_left (GameOps.retrieveOne dishId) readyItems (retrieved, ds, m))).
Proof.
  revert retrieved ds m.
  induction readyItems as [|[[sid slot] item] rest IH]; intros n ds m Hok;
    [done |].
  cbn [fold_left]. unfold GameOps.retrieveOne at 2.
  pose proof (stationsOk_removeCookedItem sid slot m Hok) as Hok'.
  destruct (Manager.removeCookedItem sid slot m) as [[r|] m']; by apply IH.
Qed.

Lemma manager_pauseGame (g : Game) :
  cookingStationManager (GameOps.pauseGame g) = cookingStationManager g.
Proof. unfold GameOps.pauseGame. by destruct (negb (isRunning g)). Qed.

Lemma dishSystem_pauseGame (g : Game) :
  dishSystem (GameOps.pauseGame g) = dishSystem g.
Proof. unfold GameOps.pauseGame. by destruct (negb (isRunning g)). Qed.

Lemma stationsOk_step (g : Game) (c : Command) :
  stationsOk (cookingStationManager g) →
  stationsOk (cookingStationManager (step g c)).
Proof.
  intros Hok. destruct c; cbn [step].
  - unfold GameOps.startGame. repeat case_match; done.
  - unfold GameOps.pauseGame. repeat case_match; done.
  - unfold GameOps.resetGame. cbn [cookingStationManager].
    rewrite manager_pauseGame. by apply stationsOk_clearCurrentDish.
  - unfold GameOps.spawnTimer. repeat case_match; done.
  - unfold GameOps.orderTimer. repeat case_match; done.
  - unfold stationsOk. cbn [GameOps.cookingTimer GameOps.withManager
                            cookingStationManager stations].
    apply stationsOk_onStation; [| done].
    intros st. apply stationOk_cookingTimer.
  - done.
  - unfold GameOps.selectOrder.
    destruct (Orders.selectOrder _ _) as [[o|] os']; [| done].
    destruct (Manager.setActiveDish _ _ _ _) as [b m'] eqn:E. name_snd.
    by apply stationsOk_setActiveDish.
  - unfold GameOps.addIngredient.
    by destruct (DishSystemOps.addIngredientToDish _ _ _).
  - unfold GameOps.useTool.
    destruct (DishSystemOps.getDish _ _); [| done].
    destruct (DishSystemOps.getTool _ _); [| done].
    destruct (DishSystemOps.useToolOnDish _ _ _) as [[] ds]; [| done].
    destruct (DishSystemOps.getDish dishId ds) as [dish|]; [| done].
    destruct (GameOps.cookingTrigger _ _ _) as [[ingredientId station]|];
      [| done].
    destruct (Manager.setActiveDish _ _ _ _) as [b1 m1] eqn:E1.
    destruct (Manager.handleCookingAction _ _ _ _ _) as [b2 m2] eqn:E2.
    name_snd.
    by apply stationsOk_handleCookingAction, stationsOk_setActiveDish.
  - unfold GameOps.serveDish. repeat case_match; try done.
    by apply stationsOk_clearCurrentDish.
  - unfold GameOps.cancelCurrentDish. repeat case_match; try done.
    by apply stationsOk_clearCurrentDish.
  - unfold GameOps.retrieveCookedItems.
    destruct (Manager.getReadyItems _) as [|r rs] eqn:Hready; [done |].
    destruct (Orders.getActiveOrder _) as [o|]; [| done].
    destruct (DishSystemOps.getDish _ _); [| done].
    pose proof (stationsOk_retrieve (order_dishId o) (r :: rs) 0
                  (dishSystem g) _ Hok) as Hfold.
    destruct (fold_left _ _ _) as [[n ds] m]. cbn [snd] in Hfold.
    destruct (Nat.ltb 0 n); [| done].
    destruct (Manager.setActiveDish _ _ _ _) as [b m'] eqn:E. name_snd.
    by apply stationsOk_setActiveDish.
  - done.
Qed.

Lemma stationsOk_reachable (g : Game) :
  reachable g → stationsOk (cookingStationManager g).
Proof.
  revert g. apply reachable_invariant.
  - intros t0. unfold stationsOk, stationOk. cbn.
    repeat (apply Forall_cons; split; [split; [apply NoDup_nil_2 | done] |]).
    done.
  - intros g c. apply stationsOk_step.
Qed.

Lemma stationGrows_refl st : stationGrows st st.
Proof. done. Qed.

Lemma stationGrows_trans st1 st2 st3 :
  stationGrows st1 st2 → stationGrows st2 st3 → stationGrows st1 st3.
Proof.
  intros [Hc1 Hi1] [Hc2 Hi2]. split; [congruence |].
  intros i Hi. by apply Hi2, Hi1.
Qed.

Lemma stationGrows_withActive st b : stationGrows st (Station.withActive st b).
Proof. done. Qed.

Lemma stationGrows_cookingTimer st slotIndex :
  stationGrows st (Station.cookingTimer slotIndex st).
Proof.
  unfold Station.cookingTimer.
  destruct (JsMap.get slotIndex (st_currentItems st)); [| done].
  split; [done |]. intros i Hi. by apply jsmap_has_set_mono.
Qed.

Lemma stationGrows_addItem now slotIndex name action ingredient cookingTime st :
  stationGrows st
    (snd (Station.addItem now slotIndex name action ingredient cookingTime st)).
Proof.
  unfold Station.addItem. destruct (Nat.leb _ _); [done |].
  split; [done |]. intros i Hi. by apply jsmap_has_set_mono.
Qed.

Lemma stationsGrow_refl sts : stationsGrow sts sts.
Proof. intros sid st Hget. by exists st. Qed.

Lemma stationsGrow_trans sts1 sts2 sts3 :
  stationsGrow sts1 sts2 → stationsGrow sts2 sts3 → stationsGrow sts1 sts3.
Proof.
  intros H12 H23 sid st1 Hget.
  destruct (H12 _ _ Hget) as (st2 & Hget2 & Hg12).
  destruct (H23 _ _ Hget2) as (st3 & Hget3 & Hg23).
  exists st3. split; [done |]. by apply (stationGrows_trans _ st2).
Qed.

Lemma stationsGrow_set sts sid st st' :
  JsMap.get sid sts = Some st → stationGrows st st' →
  stationsGrow sts (JsMap.set sid st' sts).
Proof.
  intros Hget Hgrow key st0 Hkey. destruct (decide (sid = key)) as [->|Hne].
  - rewrite jsmap_get_set_eq. exists st'. split; [done |]. congruence.
  - rewrite jsmap_get_set_ne by done. by exists st0.
Qed.

Lemma stationsGrow_onStation sts key (f : CookingStation → CookingStation) :
  (∀ st, stationGrows st (f st)) →
  stationsGrow sts (Manager.onStation key f sts).
Proof.
  intros Hf. unfold Manager.onStation.
  destruct (JsMap.get key sts) as [st|] eqn:Hget;
    [| apply stationsGrow_refl].
  by apply (stationsGrow_set _ _ st).
Qed.

Lemma stationsGrow_setActiveDish dishId stationId ds m :
  stationsGrow (stations m)
    (stations (snd (Manager.setActiveDish dishId stationId ds m))).
Proof.
  unfold Manager.setActiveDish.
  destruct (DishSystemOps.getDish dishId ds) as [dish|];
    [| apply stationsGrow_refl].
  cbn [stations]. case_match; [| apply stationsGrow_refl].
  cbn [snd stations activeStation].
  eapply stationsGrow_trans;
    [| apply stationsGrow_onStation; intros; apply stationGrows_withActive].
  destruct (activeStation m); [| apply stationsGrow_refl].
  apply stationsGrow_onStation. intros. apply stationGrows_withActive.
Qed.

Lemma stationsGrow_clearCurrentDish m :
  stationsGrow (stations m) (stations (Manager.clearCurrentDish m)).
Proof.
  unfold Manager.clearCurrentDish. cbn [stations].
  destruct (activeStation m); [| apply stationsGrow_refl].
  apply stationsGrow_onStation. intros. apply stationGrows_withActive.
Qed.

Lemma stationsGrow_handleCookingAction now action ingredient ds m :
  stationsGrow (stations m)
    (stations (snd (Manager.handleCookingAction now action ingredient ds m))).
Proof.
  unfold Manager.handleCookingAction.
  destruct (activeStation m) as [sid|]; [| apply stationsGrow_refl].
  destruct (currentDish m) as [dishId|]; [| apply stationsGrow_refl].
  destruct (negb (truthy dishId)); [apply stationsGrow_refl |].
  destruct (JsMap.get sid (stations m)) as [station|] eqn:Hst;
    [| apply stationsGrow_refl].
  destruct (DishSystemOps.getDish dishId ds) as [dish|];
    [| apply stationsGrow_refl].
  destruct (negb _); [apply stationsGrow_refl |].
  destruct (Nat.ltb _ _); [| apply stationsGrow_refl].
  destruct (Station.getNextAvailableSlot station) as [slotIndex|];
    [| apply stationsGrow_refl].
  destruct (Station.addItem _ _ _ _ _ _ _) as [ok station'] eqn:E. name_snd.
  cbn [snd stations].
  apply (stationsGrow_set _ _ station); [done |]. apply stationGrows_addItem.
Qed.

Lemma stationsGrow_step (g : Game) (c : Command) :
  c ≠ RetrieveCookedItems →
  stationsGrow (stations (cookingStationManager g))
    (stations (cookingStationManager (step g c))).
Proof.
  intros Hc. destruct c; cbn [step]; try done.
  - unfold GameOps.startGame. repeat case_match; apply stationsGrow_refl.
  - unfold GameOps.pauseGame. repeat case_match; apply stationsGrow_refl.
  - unfold GameOps.resetGame. cbn [cookingStationManager].
    rewrite manager_pauseGame. apply stationsGrow_clearCurrentDish.
  - unfold GameOps.spawnTimer. repeat case_match; apply stationsGrow_refl.
  - unfold GameOps.orderTimer. repeat case_match; apply stationsGrow_refl.
  - cbn [GameOps.cookingTimer GameOps.withManager cookingStationManager
         stations].
    apply stationsGrow_onStation. intros st. apply stationGrows_cookingTimer.
  - apply stationsGrow_refl.
  - unfold GameOps.selectOrder.
    destruct (Orders.selectOrder _ _) as [[o|] os'];
      [| apply stationsGrow_refl].
    destruct (Manager.setActiveDish _ _ _ _) as [b m'] eqn:E. name_snd.
    apply stationsGrow_setActiveDish.
  - unfold GameOps.addIngredient.
    destruct (DishSystemOps.addIngredientToDish _ _ _).
    apply stationsGrow_refl.
  - unfold GameOps.useTool.
    destruct (DishSystemOps.getDish _ _); [| apply stationsGrow_refl].
    destruct (DishSystemOps.getTool _ _); [| apply stationsGrow_refl].
    destruct (DishSystemOps.useToolOnDish _ _ _) as [[] ds];
      [| apply stationsGrow_refl].
    destruct (DishSystemOps.getDish dishId ds) as [dish|];
      [| apply stationsGrow_refl].
    destruct (GameOps.cookingTrigger _ _ _) as [[ingredientId station]|];
      [| apply stationsGrow_refl].
    destruct (Manager.setActiveDish _ _ _ _) as [b1 m1] eqn:E1.
    destruct (Manager.handleCookingAction _ _ _ _ _) as [b2 m2] eqn:E2.
    name_snd. cbn [snd cookingStationManager].
    eapply stationsGrow_trans;
      [apply stationsGrow_setActiveDish | apply stationsGrow_handleCookingAction].
  - unfold GameOps.serveDish.
    repeat case_match; try apply stationsGrow_refl.
    apply stationsGrow_clearCurrentDish.
  - unfold GameOps.cancelCurrentDish.
    repeat case_match; try apply stationsGrow_refl.
    apply stationsGrow_clearCurrentDish.
  - apply stationsGrow_refl.
Qed.

Lemma stationFull_grows st st' :
  stationGrows st st' → stationFull st → stationFull st'.
Proof.
  intros [Hcap Hitems] Hfull i Hi. apply Hitems, Hfull. by rewrite <- Hcap.
Qed.

Lemma find_all_false {A : Type} (f : A → bool) (l : list A) :
  (∀ x, x ∈ l → f x = false) → List.find f l = None.
Proof.
  induction l as [|x l IH]; intros Hall; cbn; [done |].
  rewrite (Hall x) by left. apply IH. intros y Hy. apply Hall. by right.
Qed.

Lemma getNextAvailableSlot_full st :
  stationFull st → Station.getNextAvailableSlot st = None.
Proof.
  intros Hfull. apply find_all_false. intros i Hi%elem_of_seq.
  rewrite Hfull by lia. done.
Qed.

(** The grill has three slots: three abandoned attempts fill it, and the
    fourth chicken finds no slot. *)
Lemma grill_fills_up :
  let full :=
    run (GameOps.create 0)
      (StartGame "order_1" 3 10
       :: abandonedGrill ++ abandonedGrill ++ abandonedGrill) in
  slotsOf "grill" full = [0; 1; 2]
  ∧ slotsOf "grill" (run full abandonedGrill) = [0; 1; 2]
  ∧ (ingredientStates
       <$> DishSystemOps.getDish "caesar_salad"
             (dishSystem (run full (take 3 abandonedGrill))))
    = Some {["chicken_breast" := mkIngredientState true 1 false]}.
Proof. cbv zeta. repeat split; by vm_compute. Qed.

(** C9.  In every reachable state each station holds jobs in distinct slots,
    all below its capacity, hence at most [cookingSlots] of them.  A
    submission to a multi-slot station whose slots are all taken returns
    [false] and leaves the stations as they were; a station of capacity one
    never takes a job.  A full station stays full under every command but the
    retrieval of cooked items, so only a retrieval can make room for the next
    submission. *)
Theorem station_capacity_respected :
  (∀ g, reachable g →
     ∀ sid st, JsMap.get sid (stations (cookingStationManager g)) = Some st →
       NoDup (JsMap.keys (st_currentItems st))
       ∧ Forall (λ kv, kv.1 < st_cookingSlots st) (st_currentItems st)
       ∧ JsMap.size (st_currentItems st) ≤ st_cookingSlots st) ∧
  (∀ now action ingredient ds m sid st,
     activeStation m = Some sid → JsMap.get sid (stations m) = Some st →
     (1 < st_cookingSlots st → stationFull st →
      Manager.handleCookingAction now action ingredient ds m = (false, m))
     ∧ (st_cookingSlots st ≤ 1 →
        snd (Manager.handleCookingAction now action ingredient ds m) = m)) ∧
  (∀ g c sid st,
     c ≠ RetrieveCookedItems →
     JsMap.get sid (stations (cookingStationManager g)) = Some st →
     stationFull st →
     ∃ st', JsMap.get sid (stations (cookingStationManager (step g c)))
            = Some st'
            ∧ st_cookingSlots st' = st_cookingSlots st ∧ stationFull st').
Proof.
  split; [| split].
  - intros g Hg sid st Hget. apply stationsOk_reachable in Hg.
    pose proof (jsmap_Forall_get _ _ _ _ Hg Hget) as Hok. cbn in Hok.
    destruct Hok as [Hnd Hlt]. repeat split; [done | done |].
    by apply stationOk_size.
  - intros now action ingredient ds m sid st Hactive Hget.
    unfold Manager.handleCookingAction. rewrite Hactive, Hget. split.
    + intros Hcap Hfull. apply Nat.ltb_lt in Hcap.
      destruct (currentDish m) as [dishId|]; [| done].
      destruct (negb (truthy dishId)); [done |].
      destruct (DishSystemOps.getDish dishId ds); [| done].
      destruct (negb _); [done |]. rewrite Hcap.
      by rewrite getNextAvailableSlot_full.
    + intros Hcap. apply Nat.ltb_ge in Hcap.
      destruct (currentDish m) as [dishId|]; [| done].
      destruct (negb (truthy dishId)); [done |].
      destruct (DishSystemOps.getDish dishId ds); [| done].
      destruct (negb _); [done |]. by rewrite Hcap.
  - intros g c sid st Hc Hget Hfull.
    destruct (stationsGrow_step g c Hc sid st Hget) as (st' & Hget' & Hgrow).
    exists st'. split; [done |]. split; [apply Hgrow |].
    by apply (stationFull_grows st).
Qed.

End StationFacts.

(** ** The catalog at run time *)

Section CatalogFacts.
Import DishSystemOps.
Implicit Types (ds : DishSystem) (d dish : Dish).

Lemma sameCatalog_refl ds : sameCatalog ds ds.
Proof. done. Qed.

Lemma sameCatalog_trans ds1 ds2 ds3 :
  sameCatalog ds1 ds2 → sameCatalog ds2 ds3 → sameCatalog ds1 ds3.
Proof.
  intros (? & ? & ? & ?) (? & ? & ? & ?). repeat split; congruence.
Qed.

Lemma recipes_set_same (dishId : string) (d d' : Dish)
  (m : list (string * Dish)) :
  JsMap.get dishId m = Some d → recipeOf d' = recipeOf d →
  (λ kd, (kd.1, recipeOf kd.2)) <$> JsMap.set dishId d' m
  = (λ kd : string * Dish, (kd.1, recipeOf kd.2)) <$> m.
Proof.
  intros Hget Heq. induction m as [|[k d0] m IH]; [done |].
  cbn in Hget |- *. destruct (decide (dishId = k)) as [->|Hne]; csimpl.
  - injection Hget as ->. by rewrite Heq.
  - by rewrite IH.
Qed.

Lemma sameCatalog_putDish dishId dish cur sts fin complete ds :
  getDish dishId ds = Some dish →
  sameCatalog (putDish dishId (withProgress dish cur sts fin complete) ds) ds.
Proof.
  intros Hget. repeat split. unfold recipes, putDish. cbn [dishes].
  by apply (recipes_set_same _ dish).
Qed.

Lemma sameCatalog_addIngredientToDish dishId ingredientId ds :
  sameCatalog (snd (addIngredientToDish dishId ingredientId ds)) ds.
Proof.
  unfold addIngredientToDish.
  destruct (getDish dishId ds) as [dish|] eqn:Hget; [| done].
  repeat case_match; try done. by apply sameCatalog_putDish.
Qed.

Lemma sameCatalog_useToolOnDish dishId toolId ds :
  sameCatalog (snd (useToolOnDish dishId toolId ds)) ds.
Proof.
  unfold useToolOnDish.
  destruct (getDish dishId ds) as [dish|] eqn:Hget; [| done].
  repeat case_match; try done; by apply sameCatalog_putDish.
Qed.

Lemma sameCatalog_resetDish dishId ds :
  sameCatalog (snd (resetDish dishId ds)) ds.
Proof.
  unfold resetDish.
  destruct (getDish dishId ds) as [dish|] eqn:Hget; [| done].
  by apply sameCatalog_putDish.
Qed.

Lemma sameCatalog_markReady dishId ingredient ds :
  sameCatalog (GameOps.markReady dishId ingredient ds) ds.
Proof.
  unfold GameOps.markReady.
  destruct (getDish dishId ds) as [dish|] eqn:Hget; [| done].
  case_match; [| done]. by apply sameCatalog_putDish.
Qed.

Lemma sameCatalog_resetAll (l : list Dish) ds :
  sameCatalog
    (fold_left (λ acc dish, snd (resetDish (dish_id dish) acc)) l ds) ds.
Proof.
  revert ds. induction l as [|d l IH]; intros ds; [done |].
  cbn [fold_left]. eapply sameCatalog_trans; [apply IH |].
  apply sameCatalog_resetDish.
Qed.

Lemma sameCatalog_retrieve dishId readyItems retrieved ds m :
  sameCatalog
    (snd (fst (fold_left (GameOps.retrieveOne dishId) readyItems
                 (retrieved, ds, m))))
    ds.
Proof.
  revert retrieved ds m.
  induction readyItems as [|[[sid slot] item] rest IH]; intros n ds m; [done |].
  cbn [fold_left]. unfold GameOps.retrieveOne at 2.
  destruct (Manager.removeCookedItem sid slot m) as [[r|] m']; [| apply IH].
  eapply sameCatalog_trans; [apply IH |].
  destruct (truthy (ci_ingredient item)); [| done].
  apply sameCatalog_markReady.
Qed.

Lemma sameCatalog_step (g : Game) (c : Command) :
  sameCatalog (dishSystem (step g c)) (dishSystem g).
Proof.
  destruct c; cbn [step]; try done.
  - unfold GameOps.startGame. by repeat case_match.
  - unfold GameOps.pauseGame. by repeat case_match.
  - unfold GameOps.resetGame. cbn [dishSystem].
    rewrite dishSystem_pauseGame. apply sameCatalog_resetAll.
  - unfold GameOps.spawnTimer. by repeat case_match.
  - unfold GameOps.orderTimer. by repeat case_match.
  - unfold GameOps.selectOrder. by repeat case_match.
  - unfold GameOps.addIngredient.
    destruct (addIngredientToDish _ _ _) as [b ds] eqn:E. name_snd.
    apply sameCatalog_addIngredientToDish.
  - unfold GameOps.useTool.
    destruct (getDish _ _); [| done]. destruct (getTool _ _); [| done].
    destruct (useToolOnDish _ _ _) as [b ds] eqn:E. name_snd.
    repeat case_match; try done; apply sameCatalog_useToolOnDish.
  - unfold GameOps.serveDish. repeat case_match; try done. name_snd.
    apply sameCatalog_resetDish.
  - unfold GameOps.cancelCurrentDish. repeat case_match; try done. name_snd.
    apply sameCatalog_resetDish.
  - unfold GameOps.retrieveCookedItems.
    destruct (Manager.getReadyItems _) as [|r rs]; [done |].
    destruct (Orders.getActiveOrder _) as [o|]; [| done].
    destruct (getDish _ _); [| done].
    pose proof (sameCatalog_retrieve (order_dishId o) (r :: rs) 0
                  (dishSystem g) (cookingStationManager g)) as Hfold.
    destruct (fold_left _ _ _) as [[n ds] m]. cbn [fst snd] in Hfold.
    by repeat case_match.
Qed.

Lemma sameCatalog_run (g : Game) (cs : list Command) :
  sameCatalog (dishSystem (run g cs)) (dishSystem g).
Proof.
  apply (run_invariant (λ g', sameCatalog (dishSystem g') (dishSystem g)));
    [done |].
  intros g' c H. eapply sameCatalog_trans; [apply sameCatalog_step | done].
Qed.

Lemma getDish_recipes dishId ds :
  recipeOf <$> getDish dishId ds = JsMap.get dishId (recipes ds).
Proof.
  unfold getDish, recipes. induction (dishes ds) as [|[k d] m IH]; [done |].
  csimpl. by destruct (decide (dishId = k)).
Qed.

Lemma getAllDishes_recipes ds :
  recipeOf <$> getAllDishes ds = JsMap.values (recipes ds).
Proof.
  unfold getAllDishes, recipes, JsMap.values.
  rewrite <- !list_fmap_compose. done.
Qed.

(** C4, as stated, fails: once cheese is added to the classic burger of the
    selected order, [getDish] no longer returns the data loaded at startup. *)
Lemma getDish_mutated_counterexample :
  getDish "classic_burger" (dishSystem (run (GameOps.create 0) cheeseTrace))
  ≠ getDish "classic_burger" (dishSystem (GameOps.create 0)).
Proof.
  intros H.
  apply (f_equal
           (λ od, match od with
                  | Some d => bool_decide ("cheese" ∈ currentIngredients d)
                  | None => false
                  end)) in H.
  vm_compute in H. discriminate H.
Qed.

(** C4, amended.  Whatever commands a game has run, [getIngredient],
    [getTool] and [getCookingStation] return what they returned at startup,
    and so do [getDish] and [getAllDishes] as far as the recipe goes: id,
    name, station, colour, ingredients with their prep steps, final steps,
    difficulty and prep time, in the same order.  The four progress fields
    kept on the same entries are not part of that. *)
Theorem catalog_recipes_unchanged (t0 : Z) (cs : list Command) :
  let ds := dishSystem (run (GameOps.create t0) cs) in
  (∀ id, getIngredient id ds = getIngredient id DishSystemOps.create) ∧
  (∀ id, getTool id ds = getTool id DishSystemOps.create) ∧
  (∀ id, getCookingStation id ds = getCookingStation id DishSystemOps.create) ∧
  (∀ id, recipeOf <$> getDish id ds = getDish id DishSystemOps.create) ∧
  recipeOf <$> getAllDishes ds = getAllDishes DishSystemOps.create.
Proof.
  intros ds.
  destruct (sameCatalog_run (GameOps.create t0) cs) as (Hr & Hi & Ht & Hs).
  fold ds in Hr, Hi, Ht, Hs. cbn [dishSystem GameOps.create] in Hr, Hi, Ht, Hs.
  assert (recipes DishSystemOps.create = dishes DishSystemOps.create) as H0
    by reflexivity.
  unfold getIngredient, getTool, getCookingStation.
  rewrite Hi, Ht, Hs. do 3 (split; [done |]). split.
  - intros id. by rewrite getDish_recipes, Hr, H0.
  - by rewrite getAllDishes_recipes, Hr, H0.
Qed.

End CatalogFacts.

(** ** Readiness of the ingredients *)

Section ReadyFacts.
Import DishSystemOps.
Implicit Types (ds : DishSystem) (dish : Dish) (ing : IngredientSpec).

Lemma readyIffDoneb_spec dish : readyIffDoneb dish = true ↔ readyIffDone dish.
Proof.
  unfold readyIffDoneb, readyIffDone. rewrite forallb_forall. split.
  - intros H ing st Hin%list_elem_of_In Hst. specialize (H ing Hin).
    rewrite Hst in H. apply Bool.eqb_prop in H. rewrite H.
    apply Nat.eqb_eq.
  - intros H ing Hin%list_elem_of_In.
    destruct (ingredientStates dish !! ing_id ing) as [st|] eqn:Hst; [| done].
    specialize (H ing st Hin Hst). apply Bool.eqb_true_iff.
    apply eq_true_iff_eq. by rewrite H, Nat.eqb_eq.
Qed.

Lemma recipeWf_same_id dish ing ing' :
  recipeWf dish → ing ∈ dish_ingredients dish → ing' ∈ dish_ingredients dish →
  ing_id ing = ing_id ing' → ing = ing'.
Proof.
  unfold recipeWf. intros Hnd Hin Hin' Hid.
  apply list_elem_of_lookup in Hin as [i Hi].
  apply list_elem_of_lookup in Hin' as [j Hj].
  assert (i = j) as ->; [| congruence].
  apply (NoDup_lookup _ i j (ing_id ing) Hnd).
  - by rewrite list_lookup_fmap, Hi.
  - by rewrite list_lookup_fmap, Hj, Hid.
Qed.

(** The invariant only reads the recipe, the added set and the progress
    entries. *)
Lemma dishInv_final strict dish fin complete :
  dishInv strict dish →
  dishInv strict
    (withProgress dish (currentIngredients dish) (ingredientStates dish) fin
       complete).
Proof. by destruct strict. Qed.

Lemma dishInv_reset strict dish :
  recipeWf dish → dishInv strict (withProgress dish ∅ ∅ 0 false).
Proof.
  intros Hwf. split; [done |]. split.
  - unfold progressTracked. cbn. apply dom_empty_L.
  - destruct strict; intros ing st _ Hst; cbn in Hst;
      by rewrite lookup_empty in Hst.
Qed.

(** Writing the progress entry of one ingredient of the recipe. *)
Lemma dishInv_insert (strict : bool) dish ing st' cur :
  dishInv strict dish → ing ∈ dish_ingredients dish →
  cur = {[ing_id ing]} ∪ currentIngredients dish →
  (if strict
   then isReady st' = true ↔ prepStepsCompleted st' = length (ing_prepSteps ing)
   else prepStepsCompleted st' ≤ length (ing_prepSteps ing)
        ∧ (prepStepsCompleted st' = length (ing_prepSteps ing) →
           isReady st' = true)) →
  dishInv strict
    (withProgress dish cur (<[ing_id ing := st']> (ingredientStates dish))
       (finalStepsProgress dish) (isComplete dish)).
Proof.
  intros (Hwf & Hdom & Hinv) Hin -> Hnew. split; [done |]. split.
  - unfold progressTracked in *. cbn. by rewrite dom_insert_L, Hdom.
  - destruct strict; intros ing0 st0 Hin0 Hst0; cbn in Hin0, Hst0.
    + destruct (decide (ing_id ing = ing_id ing0)) as [Heq|Hne].
      * rewrite Heq, lookup_insert_eq in Hst0. injection Hst0 as <-.
        by rewrite <- (recipeWf_same_id dish ing ing0 Hwf Hin Hin0 Heq).
      * rewrite lookup_insert_ne in Hst0 by done. by apply Hinv.
    + destruct (decide (ing_id ing = ing_id ing0)) as [Heq|Hne].
      * rewrite Heq, lookup_insert_eq in Hst0. injection Hst0 as <-.
        by rewrite <- (recipeWf_same_id dish ing ing0 Hwf Hin Hin0 Heq).
      * rewrite lookup_insert_ne in Hst0 by done. by apply Hinv.
Qed.

Lemma dishInv_tracked_cur strict dish i st :
  dishInv strict dish → ingredientStates dish !! i = Some st →
  {[i]} ∪ currentIngredients dish = currentIngredients dish.
Proof.
  intros (_ & Hdom & _) Hst. unfold progressTracked in Hdom.
  apply subseteq_union_1_L, singleton_subseteq_l.
  rewrite <- Hdom. apply elem_of_dom. by exists st.
Qed.

Lemma dishesInv_putDish strict dishId d ds :
  dishesInv strict ds → dishInv strict d →
  dishesInv strict (putDish dishId d ds).
Proof. intros Hds Hd. by apply jsmap_Forall_set. Qed.

Lemma dishesInv_getDish strict dishId dish ds :
  dishesInv strict ds → getDish dishId ds = Some dish → dishInv strict dish.
Proof.
  intros Hds Hget. apply (jsmap_Forall_get _ _ _ _ Hds Hget).
Qed.

Lemma dishesInv_addIngredientToDish strict dishId ingredientId ds :
  dishesInv strict ds →
  dishesInv strict (snd (addIngredientToDish dishId ingredientId ds)).
Proof.
  intros Hds. unfold addIngredientToDish.
  destruct (getDish dishId ds) as [dish|] eqn:Hget; [| done].
  destruct (List.find _ _) as [ingredient|] eqn:Hfind; [| done].
  case_bool_decide; [done |]. cbn [snd].
  apply find_some in Hfind as [Hin Hid]. apply String.eqb_eq in Hid.
  subst ingredientId. apply list_elem_of_In in Hin.
  apply dishesInv_putDish; [done |].
  apply dishInv_insert; [by apply (dishesInv_getDish _ dishId _ ds) | done.. |].
  cbn. destruct strict.
  - rewrite Nat.eqb_eq. split; intros; congruence.
  - split; [lia |]. intros Hlen. by apply Nat.eqb_eq.
Qed.

Lemma dishesInv_useToolOnDish strict dishId toolId ds :
  dishesInv strict ds →
  dishesInv strict (snd (useToolOnDish dishId toolId ds)).
Proof.
  intros Hds. unfold useToolOnDish.
  destruct (getDish dishId ds) as [dish|] eqn:Hget; [| done].
  pose proof (dishesInv_getDish _ _ _ _ Hds Hget) as Hdish.
  rewrite prepLoop_first_match.
  destruct (List.find _ _) as [ing|] eqn:Hfind.
  - apply find_some in Hfind as [Hin Hacc]. apply list_elem_of_In in Hin.
    unfold accepts in Hacc. apply andb_prop in Hacc as [_ Hacc].
    destruct (ingredientStates dish !! ing_id ing) as [st|] eqn:Hst; [| done].
    apply andb_prop in Hacc as [_ Hacc].
    destruct (ing_prepSteps ing !! prepStepsCompleted st) as [s|] eqn:Hs;
      [| done].
    apply lookup_lt_Some in Hs. cbn [fmap option_fmap option_map snd].
    apply dishesInv_putDish; [done |].
    apply dishInv_insert; [done | done | |].
    + symmetry. by apply (dishInv_tracked_cur strict dish _ st).
    + unfold oneMorePrepStep. cbn. destruct strict.
      * by rewrite bool_decide_eq_true.
      * split; [lia |]. intros Hlen. by apply bool_decide_eq_true.
  - destruct (dish_finalSteps dish !! finalStepsProgress dish) as [s|];
      [| done].
    destruct (String.eqb _ _); [| done]. cbn [snd].
    apply dishesInv_putDish; [done |]. by apply dishInv_final.
Qed.

Lemma dishesInv_resetDish strict dishId ds :
  dishesInv strict ds → dishesInv strict (snd (resetDish dishId ds)).
Proof.
  intros Hds. unfold resetDish.
  destruct (getDish dishId ds) as [dish|] eqn:Hget; [| done].
  cbn [snd]. apply dishesInv_putDish; [done |]. apply dishInv_reset.
  apply (dishesInv_getDish _ _ _ _ Hds Hget).
Qed.

Lemma dishesInv_resetAll strict (l : list Dish) ds :
  dishesInv strict ds →
  dishesInv strict
    (fold_left (λ acc dish, snd (resetDish (dish_id dish) acc)) l ds).
Proof.
  revert ds. induction l as [|d l IH]; intros ds Hds; [done |].
  cbn [fold_left]. by apply IH, dishesInv_resetDish.
Qed.

Lemma dishesInv_markReady dishId ingredient ds :
  dishesInv false ds → dishesInv false (GameOps.markReady dishId ingredient ds).
Proof.
  intros Hds. unfold GameOps.markReady.
  destruct (getDish dishId ds) as [dish|] eqn:Hget; [| done].
  destruct (ingredientStates dish !! ingredient) as [st|] eqn:Hst; [| done].
  apply dishesInv_putDish; [done |].
  destruct (dishesInv_getDish _ _ _ _ Hds Hget) as (Hwf & Hdom & Hinv).
  split; [done |]. split.
  - unfold progressTracked in *. cbn. rewrite dom_insert_L, Hdom.
    apply subseteq_union_1_L, singleton_subseteq_l.
    rewrite <- Hdom. apply elem_of_dom. by exists st.
  - intros ing0 st0 Hin0 Hst0. cbn in Hin0, Hst0.
    destruct (decide (ingredient = ing_id ing0)) as [->|Hne].
    + rewrite lookup_insert_eq in Hst0. injection Hst0 as <-. cbn.
      split; [| done]. by apply (Hinv ing0 st).
    + rewrite lookup_insert_ne in Hst0 by done. by apply Hinv.
Qed.

Lemma dishesInv_retrieve dishId readyItems retrieved ds m :
  dishesInv false ds →
  dishesInv false
    (snd (fst (fold_left (GameOps.retrieveOne dishId) readyItems
                 (retrieved, ds, m)))).
Proof.
  revert retrieved ds m.
  induction readyItems as [|[[sid slot] item] rest IH]; intros n ds m Hds;
    [done |].
  cbn [fold_left]. unfold GameOps.retrieveOne at 2.
  destruct (Manager.removeCookedItem sid slot m) as [[r|] m']; [| by apply IH].
  apply IH. destruct (truthy (ci_ingredient item)); [| done].
  by apply dishesInv_markReady.
Qed.

Lemma dishesInv_step strict (g : Game) (c : Command) :
  (strict = true → c ≠ RetrieveCookedItems) →
  dishesInv strict (dishSystem g) → dishesInv strict (dishSystem (step g c)).
Proof.
  intros Hc Hds. destruct c; cbn [step]; try done.
  - unfold GameOps.startGame. by repeat case_match.
  - unfold GameOps.pauseGame. by repeat case_match.
  - unfold GameOps.resetGame. cbn [dishSystem].
    rewrite dishSystem_pauseGame. by apply dishesInv_resetAll.
  - unfold GameOps.spawnTimer. by repeat case_match.
  - unfold GameOps.orderTimer. by repeat case_match.
  - unfold GameOps.selectOrder. by repeat case_match.
  - unfold GameOps.addIngredient.
    destruct (addIngredientToDish _ _ _) as [b ds] eqn:E. name_snd.
    by apply dishesInv_addIngredientToDish.
  - unfold GameOps.useTool.
    destruct (getDish _ _); [| done]. destruct (getTool _ _); [| done].
    destruct (useToolOnDish _ _ _) as [b ds] eqn:E. name_snd.
    repeat case_match; try done; by apply dishesInv_useToolOnDish.
  - unfold GameOps.serveDish. repeat case_match; try done. name_snd.
    by apply dishesInv_resetDish.
  - unfold GameOps.cancelCurrentDish. repeat case_match; try done. name_snd.
    by apply dishesInv_resetDish.
  - destruct strict; [by destruct Hc |].
    unfold GameOps.retrieveCookedItems.
    destruct (Manager.getReadyItems _) as [|r rs]; [done |].
    destruct (Orders.getActiveOrder _) as [o|]; [| done].
    destruct (getDish _ _); [| done].
    pose proof (dishesInv_retrieve (order_dishId o) (r :: rs) 0
                  (dishSystem g) (cookingStationManager g) Hds) as Hfold.
    destruct (fold_left _ _ _) as [[n ds] m]. cbn [fst snd] in Hfold.
    by repeat case_match.
Qed.

Lemma dishesInv_create strict : dishesInv strict DishSystemOps.create.
Proof.
  assert (∀ d, recipeWf d → recipeOf d = d → dishInv strict d) as Hfresh.
  { intros d Hwf <-. by apply dishInv_reset. }
  unfold dishesInv. set (l := dishes DishSystemOps.create).
  vm_compute in l. subst l.
  repeat (apply Forall_cons; split;
          [apply Hfresh;
           [unfold recipeWf; apply (bool_decide_unpack _); vm_compute; exact I
           | reflexivity] |]).
  apply Forall_nil_2.
Qed.

Lemma dishesInv_run strict (t0 : Z) (cs : list Command) :
  (strict = true → RetrieveCookedItems ∉ cs) →
  dishesInv strict (dishSystem (run (GameOps.create t0) cs)).
Proof.
  induction cs as [|c cs IH] using rev_ind; intros Hcs.
  - apply dishesInv_create.
  - rewrite run_snoc. apply dishesInv_step.
    + intros Hs ->. apply (Hcs Hs), elem_of_app. right. left.
    + apply IH. intros Hs Hin. apply (Hcs Hs), elem_of_app. by left.
Qed.

(** C3, as stated, fails.  The chicken of a Caesar salad has two prep steps
    (grill, slice).  Before the cooked chicken is retrieved from the grill the
    dish satisfies the equivalence; the retrieval then marks the chicken
    ready with one prep step completed out of two. *)
Lemma retrieve_breaks_readyIffDone_counterexample :
  ∃ before after,
    getDish "caesar_salad"
      (dishSystem (run (GameOps.create 0) (take 6 cookedChickenTrace)))
    = Some before ∧
    getDish "caesar_salad"
      (dishSystem (run (GameOps.create 0) cookedChickenTrace))
    = Some after ∧
    readyIffDone before ∧
    "chicken_breast" ∈ currentIngredients after ∧
    ingredientStates after !! "chicken_breast"
    = Some (mkIngredientState true 1 true) ∧
    (length <$> (ing_prepSteps
                   <$> List.find (λ ing, String.eqb (ing_id ing) "chicken_breast")
                         (dish_ingredients after)))
    = Some 2 ∧
    ¬ readyIffDone after.
Proof.
  eexists _, _. split; [reflexivity |]. split; [reflexivity |].
  split; [by apply readyIffDoneb_spec |].
  split; [apply (bool_decide_unpack _); vm_compute; exact I |].
  split; [reflexivity |]. split; [reflexivity |].
  rewrite <- readyIffDoneb_spec. by vm_compute.
Qed.

(** C3, amended.  As long as no cooked item has been retrieved, every dish
    keeps a progress entry exactly for its added ingredients, and on each
    entry [isReady] is true iff [prepStepsCompleted] is the number of prep
    steps of the recipe.  In every reachable state, retrievals included, the
    entries are those of the added ingredients, the counter never passes the
    number of prep steps, and an ingredient whose prep steps are all completed
    is ready.  Adding an ingredient and applying a tool preserve either form
    of the invariant on any catalog. *)
Theorem readyIffDone_until_retrieval :
  (∀ t0 cs dishId dish,
     RetrieveCookedItems ∉ cs →
     getDish dishId (dishSystem (run (GameOps.create t0) cs)) = Some dish →
     progressTracked dish ∧ readyIffDone dish) ∧
  (∀ g dishId dish,
     reachable g → getDish dishId (dishSystem g) = Some dish →
     progressTracked dish ∧ doneThenReady dish) ∧
  (∀ strict ds dishId x,
     dishesInv strict ds →
     dishesInv strict (snd (addIngredientToDish dishId x ds))
     ∧ dishesInv strict (snd (useToolOnDish dishId x ds))).
Proof.
  split; [| split].
  - intros t0 cs dishId dish Hcs Hget.
    pose proof (dishesInv_run true t0 cs (λ _, Hcs)) as Hds.
    destruct (dishesInv_getDish _ _ _ _ Hds Hget) as (_ & Hdom & Hinv).
    done.
  - intros g dishId dish (t0 & cs & ->) Hget.
    assert (dishesInv false (dishSystem (run (GameOps.create t0) cs))) as Hds
      by (by apply dishesInv_run).
    destruct (dishesInv_getDish _ _ _ _ Hds Hget) as (_ & Hdom & Hinv).
    done.
  - intros strict ds dishId x Hds. split.
    + by apply dishesInv_addIngredientToDish.
    + by apply dishesInv_useToolOnDish.
Qed.

End ReadyFacts.

(** ** The dish of an order that leaves the kitchen *)

Section DiscardFacts.
Import DishSystemOps.

Lemma resetDish_isReset (dishId : string) (ds : DishSystem) (dish dish' : Dish) :
  getDish dishId ds = Some dish →
  getDish dishId (snd (resetDish dishId ds)) = Some dish' → isReset dish'.
Proof.
  intros Hget. unfold resetDish. rewrite Hget. cbn [snd].
  rewrite lookup_getDish_putDish. by intros [= <-].
Qed.

(** C6.  Serving and cancelling reset the dish of the selected order, but
    expiry does not: when the selected classic burger, cheese added, expires,
    the order becomes terminal while the dish entry keeps the cheese and its
    progress entry, and the station manager still holds the dish as the
    current one. *)
Theorem expiry_leaves_dish_unreset :
  (∀ g o dish,
     Orders.getActiveOrder (orderSystem g) = Some o →
     fst (GameOps.serveDish g) = true →
     getDish (order_dishId o) (dishSystem (snd (GameOps.serveDish g)))
     = Some dish →
     isReset dish) ∧
  (∀ g o dish,
     Orders.getActiveOrder (orderSystem g) = Some o →
     getDish (order_dishId o) (dishSystem g) ≠ None →
     getDish (order_dishId o) (dishSystem (GameOps.cancelCurrentDish g))
     = Some dish →
     isReset dish) ∧
  (let before := run (GameOps.create 0) (take 4 expiredCheeseTrace) in
   let after := run (GameOps.create 0) expiredCheeseTrace in
   (order_id <$> Orders.getActiveOrder (orderSystem before)) = Some "order_1" ∧
   (Orders.getRemainingTime (clock before)
      <$> Orders.getActiveOrder (orderSystem before)) = Some 0%Z ∧
   activeOrders (orderSystem after) = [] ∧
   (status <$> completedOrders (orderSystem after)) = [expired] ∧
   currentDish (cookingStationManager after) = Some "classic_burger" ∧
   ∃ dish,
     getDish "classic_burger" (dishSystem after) = Some dish ∧
     "cheese" ∈ currentIngredients dish ∧
     ingredientStates dish !! "cheese" = Some (mkIngredientState true 0 true) ∧
     ¬ isReset dish).
Proof.
  split; [| split].
  - intros g o dish Hactive. unfold GameOps.serveDish. rewrite Hactive.
    destruct (getDish (order_dishId o) (dishSystem g)) as [d|] eqn:Hget;
      [| done].
    destruct (isDishValid _ _); [| done]. cbn [negb].
    destruct (Orders.completeOrder _ _ _ _) as [r os].
    destruct (resetDish _ _) as [b ds] eqn:E. name_snd.
    cbn [fst snd dishSystem]. intros _. by apply (resetDish_isReset _ _ d).
  - intros g o dish Hactive. unfold GameOps.cancelCurrentDish. rewrite Hactive.
    destruct (getDish (order_dishId o) (dishSystem g)) as [d|] eqn:Hget;
      [| done].
    destruct (resetDish _ _) as [b ds] eqn:E. name_snd.
    cbn [dishSystem]. intros _. by apply (resetDish_isReset _ _ d).
  - cbv zeta. do 5 (split; [vm_compute; reflexivity |]).
    eexists. split; [vm_compute; reflexivity |].
    split; [apply (bool_decide_unpack _); vm_compute; exact I |].
    split; [reflexivity |].
    intros (_ & Hsts & _).
    apply (f_equal (λ m : gmap string IngredientState, m !! "cheese")) in Hsts.
    vm_compute in Hsts. discriminate Hsts.
Qed.

End DiscardFacts.

(** * Further properties of the code *)

(** ** The countdown of an order *)

(** Division by the constant 1000 as a multiplication, for [lra]. *)
Ltac by_thousand :=
  unfold Qdiv in *; change (/ 1000)%Q with (1 # 1000)%Q in *.

Section CountdownFacts.
Import Orders.


Lemma remaining_as_clamp (now : Z) (o : Order) :
  ∃ c : Q,
    getRemainingTime now o = Qceiling (c / 1000)%Q
    ∧ (0 <= c)%Q ∧ (timeLeft now o <= c)%Q
    ∧ ((0 <= timeLeft now o)%Q → c = timeLeft now o)
    ∧ ((timeLeft now o <= 0)%Q → (c == 0)%Q).
Proof.
  unfold getRemainingTime. fold (timeLeft now o).
  destruct (Qle_bool 0 (timeLeft now o)) eqn:E.
  - apply Qle_bool_iff in E. exists (timeLeft now o).
    repeat split; try done; [lra | intros; lra].
  - assert (¬ (0 <= timeLeft now o)%Q) as Hneg
      by (intros H; apply Qle_bool_iff in H; congruence).
    exists 0%Q. repeat split; try done; lra.
Qed.

(** X1.  The remaining time of an order is never negative, never grows as
    time passes, is 0 exactly when the time limit has elapsed (which is when
    [isExpired] answers true), and before that is the number of seconds left
    rounded up. *)
Theorem getRemainingTime_countdown (now now' : Z) (o : Order) :
  (0 ≤ getRemainingTime now o)%Z
  ∧ ((now ≤ now')%Z → (getRemainingTime now' o ≤ getRemainingTime now o)%Z)
  ∧ (getRemainingTime now o = 0%Z ↔ (timeLeft now o <= 0)%Q)
  ∧ (isExpired now o = true ↔ (timeLeft now o <= 0)%Q)
  ∧ ((0 <= timeLeft now o)%Q →
     (inject_Z (getRemainingTime now o) - 1 < timeLeft now o / 1000)%Q
     ∧ (timeLeft now o / 1000 <= inject_Z (getRemainingTime now o))%Q).
Proof.
  destruct (remaining_as_clamp now o) as (c & Hrem & Hc0 & Hcl & Hpos & Hneg).
  assert (0 ≤ getRemainingTime now o)%Z as Hnonneg.
  { rewrite Hrem. change 0%Z with (Qceiling 0).
    apply Qceiling_resp_le. by_thousand. lra. }
  assert (getRemainingTime now o = 0%Z ↔ (timeLeft now o <= 0)%Q) as Hzero.
  { split.
    - intros H0. pose proof (Qle_ceiling (c / 1000)) as Hle.
      rewrite <- Hrem, H0 in Hle. change (inject_Z 0) with 0%Q in Hle.
      by_thousand. lra.
    - intros Hl. rewrite Hrem.
      rewrite (Qceiling_comp (c / 1000) 0); [done |].
      rewrite (Hneg Hl). reflexivity. }
  split; [done |]. split; [| split; [done | split]].
  - intros Hle.
    destruct (remaining_as_clamp now' o)
      as (c' & Hrem' & Hc0' & Hcl' & Hpos' & Hneg').
    rewrite Hrem, Hrem'. apply Qceiling_resp_le.
    assert (timeLeft now' o <= timeLeft now o)%Q as Hmono.
    { rewrite Zle_Qle in Hle. unfold timeLeft, Z.sub.
      rewrite !inject_Z_plus. lra. }
    destruct (Qlt_le_dec (timeLeft now' o) 0) as [Hlt|Hge].
    + rewrite (Hneg' (Qlt_le_weak _ _ Hlt)). by_thousand. lra.
    + rewrite (Hpos' Hge). by_thousand. lra.
  - unfold isExpired. rewrite Z.leb_le, <- Hzero. lia.
  - intros Hl. rewrite Hrem, (Hpos Hl). split.
    + pose proof (Qceiling_lt (timeLeft now o / 1000)) as Hlt.
      unfold Z.sub in Hlt. rewrite inject_Z_plus in Hlt.
      change (inject_Z (Z.opp 1)) with (-1)%Q in Hlt.
      set (x := (timeLeft now o / 1000)%Q) in *. lra.
    + apply Qle_ceiling.
Qed.

End CountdownFacts.

(** ** Urgency and rating *)


Section UrgencyFacts.
Import Orders.




End UrgencyFacts.

(** ** What a command does to the order system *)

Section OrderStepFacts.
Import Orders.
Implicit Types (os : OrderSystem) (g : Game).

Lemma orderSystem_pauseGame g :
  orderSystem (GameOps.pauseGame g) = orderSystem g
  ∨ orderSystem (GameOps.pauseGame g) = withRunning (orderSystem g) false.
Proof.
  unfold GameOps.pauseGame. destruct (negb (isRunning g)); [by left | by right].
Qed.

Lemma step_orderStep g (c : Command) : orderStep g (orderSystem (step g c)).
Proof.
  destruct c; cbn [step].
  - unfold GameOps.startGame. destruct (isRunning g); [exact (os_same g) |].
    destruct (spawnOrder _ _ _ _ _ _) as [r os'] eqn:E. name_snd.
    exact (os_start g newId pick jitter).
  - destruct (orderSystem_pauseGame g) as [-> | ->];
      [exact (os_same g) | exact (os_running g false)].
  - exact (os_clear g).
  - unfold GameOps.spawnTimer.
    destruct (os_isRunning (orderSystem g)) eqn:Hrun; [| exact (os_same g)].
    destruct (Nat.ltb _ _); [| exact (os_same g)]. exact (os_spawn g newId pick jitter Hrun).
  - unfold GameOps.orderTimer.
    destruct (JsMap.get orderId (activeOrders (orderSystem g))) as [order|]
      eqn:Hget; [| exact (os_same g)].
    destruct (order_isComplete order); [exact (os_same g) |].
    destruct (Z.ltb 0 _) eqn:Hrem; [exact (os_same g) |].
    exact (os_expire g orderId order Hget Hrem).
  - exact (os_same g).
  - exact (os_select g orderId).
  - unfold GameOps.selectOrder.
    destruct (selectOrder orderId (orderSystem g)) as [[o|] os'] eqn:E;
      [| exact (os_same g)].
    destruct (Manager.setActiveDish _ _ _ _). name_snd. exact (os_select g orderId).
  - unfold GameOps.addIngredient.
    destruct (DishSystemOps.addIngredientToDish _ _ _). exact (os_same g).
  - unfold GameOps.useTool. repeat case_match; exact (os_same g).
  - unfold GameOps.serveDish.
    destruct (getActiveOrder (orderSystem g)) as [o|] eqn:Hact;
      [| exact (os_same g)].
    destruct (DishSystemOps.getDish _ _); [| exact (os_same g)].
    destruct (DishSystemOps.isDishValid _ _) eqn:Hvalid; [| exact (os_same g)].
    cbn [negb].
    destruct (completeOrder _ _ _ _) as [r os'] eqn:E.
    destruct (DishSystemOps.resetDish _ _). name_snd. exact (os_serve g o Hact Hvalid).
  - unfold GameOps.cancelCurrentDish.
    destruct (getActiveOrder (orderSystem g)); [| exact (os_same g)].
    destruct (DishSystemOps.resetDish _ _). exact (os_cancel g).
  - unfold GameOps.retrieveCookedItems. repeat case_match; exact (os_same g).
  - exact (os_same g).
Qed.

Lemma clock_step g (c : Command) : (clock g ≤ clock (step g c))%Z.
Proof.
  destruct c; cbn [step]; try done.
  - unfold GameOps.startGame. repeat case_match; done.
  - unfold GameOps.pauseGame. repeat case_match; done.
  - unfold GameOps.resetGame, GameOps.pauseGame. repeat case_match; done.
  - unfold GameOps.spawnTimer. repeat case_match; done.
  - unfold GameOps.orderTimer. repeat case_match; done.
  - unfold GameOps.selectOrder. repeat case_match; done.
  - unfold GameOps.addIngredient. repeat case_match; done.
  - unfold GameOps.useTool. repeat case_match; done.
  - unfold GameOps.serveDish. repeat case_match; done.
  - unfold GameOps.cancelCurrentDish. repeat case_match; done.
  - unfold GameOps.retrieveCookedItems. repeat case_match; done.
  - cbn. lia.
Qed.

(** *** The terminal record and the counters under each operation *)

Lemma spawnOrder_frame now newId pick jitter ds os :
  let os' := snd (spawnOrder now newId pick jitter ds os) in
  completedOrders os' = completedOrders os ∧ totalScore os' = totalScore os
  ∧ ordersCompleted os' = ordersCompleted os
  ∧ perfectOrders os' = perfectOrders os
  ∧ maxActiveOrders os' = maxActiveOrders os
  ∧ os_isRunning os' = os_isRunning os.
Proof. cbv zeta. unfold spawnOrder. by repeat case_match. Qed.

Lemma selectOrder_frame orderId os :
  let os' := snd (selectOrder orderId os) in
  completedOrders os' = completedOrders os ∧ totalScore os' = totalScore os
  ∧ ordersCompleted os' = ordersCompleted os
  ∧ perfectOrders os' = perfectOrders os
  ∧ maxActiveOrders os' = maxActiveOrders os
  ∧ os_isRunning os' = os_isRunning os.
Proof. cbv zeta. unfold selectOrder. by repeat case_match. Qed.

Lemma rate_scoreOf now dishValid o :
  snd (rate now dishValid o) = scoreOf (Some (fst (rate now dishValid o)))
  ∧ fst (rate now dishValid o) ≠ failed.
Proof. unfold rate. by repeat case_match. Qed.

Lemma jsmap_size_set_le {V : Type} (k : string) (v : V)
  (m : list (string * V)) :
  JsMap.size (JsMap.set k v m) ≤ S (JsMap.size m).
Proof.
  unfold JsMap.size. rewrite <- !(length_fmap fst).
  change (fst <$> JsMap.set k v m) with (JsMap.keys (JsMap.set k v m)).
  rewrite jsmap_keys_set. destruct (JsMap.has k m).
  - unfold JsMap.keys. lia.
  - unfold JsMap.keys. rewrite length_app. cbn. lia.
Qed.

Lemma jsmap_size_keys {V : Type} (m : list (string * V)) :
  JsMap.size m = length (JsMap.keys m).
Proof. unfold JsMap.size, JsMap.keys. by rewrite length_fmap. Qed.

Lemma jsmap_size_delete_le {V : Type} (k : string) (m : list (string * V)) :
  JsMap.size (JsMap.delete k m) ≤ JsMap.size m.
Proof.
  unfold JsMap.size. induction m as [|[k' v'] m IH]; cbn; [done |].
  destruct (decide (k = k')); cbn; lia.
Qed.

Lemma capacityOk_orderStep g os' :
  capacityOk (orderSystem g) → orderStep g os' → capacityOk os'.
Proof.
  intros [Hsize Hmax] Hstep. unfold capacityOk.
  destruct Hstep as [| b | newId pick jitter | newId pick jitter Hrun | | orderId
                     | o Hact Hvalid | orderId order Hget Hrem |].
  - done.
  - done.
  - unfold spawnOrder. cbn [maxActiveOrders activeOrders withRunning].
    destruct (Nat.leb_spec (maxActiveOrders (orderSystem g))
                (JsMap.size (activeOrders (orderSystem g)))); [done |].
    destruct (_ !! pick); [| done].
    cbn [snd activeOrders maxActiveOrders withOrders withRunning].
    split; [| done]. pose proof (jsmap_size_set_le newId
      (newOrder (clock g) newId (dish_id d) (dish_name d)
         (JsNumber.roundDouble
            (45 + inject_Z (dish_difficulty d * 10) + jitter)))
      (activeOrders (orderSystem g))). lia.
  - unfold spawnOrder.
    destruct (Nat.leb_spec (maxActiveOrders (orderSystem g))
                (JsMap.size (activeOrders (orderSystem g)))); [done |].
    destruct (_ !! pick); [| done].
    cbn [snd activeOrders maxActiveOrders withOrders].
    split; [| done]. pose proof (jsmap_size_set_le newId
      (newOrder (clock g) newId (dish_id d) (dish_name d)
         (JsNumber.roundDouble
            (45 + inject_Z (dish_difficulty d * 10) + jitter)))
      (activeOrders (orderSystem g))). lia.
  - cbn. destruct (orderSystem_pauseGame g) as [-> | ->]; cbn; lia.
  - unfold selectOrder.
    destruct (JsMap.get orderId (activeOrders (orderSystem g))) as [order|]
      eqn:Hget; [| done].
    cbn [snd activeOrders maxActiveOrders withOrders]. split; [| done].
    rewrite jsmap_size_keys.
    assert (JsMap.has orderId (demoteFirstActive (activeOrders (orderSystem g)))
            = true) as Hhas.
    { unfold JsMap.has.
      destruct (JsMap.get orderId (demoteFirstActive _)) eqn:E; [done |].
      apply jsmap_get_None_keys in E. rewrite keys_demote in E.
      apply jsmap_get_None_keys in E. congruence. }
    rewrite jsmap_keys_set, Hhas, keys_demote, <- jsmap_size_keys. done.
  - unfold completeOrder.
    destruct (JsMap.get _ _); [| done]. destruct (rate _ _ _).
    cbn [snd activeOrders maxActiveOrders]. split; [| done].
    etrans; [apply jsmap_size_delete_le | done].
  - unfold expireOrder. rewrite Hget.
    cbn [snd activeOrders maxActiveOrders]. split; [| done].
    etrans; [apply jsmap_size_delete_le | done].
  - cbn [activeOrders maxActiveOrders withOrders]. split; [| done].
    by rewrite jsmap_size_keys, keys_demote, <- jsmap_size_keys.
Qed.

Lemma capacityOk_run (t0 : Z) (cs : list Command) :
  capacityOk (orderSystem (run (GameOps.create t0) cs)).
Proof.
  apply (run_invariant (λ g, capacityOk (orderSystem g))).
  - split; cbn; lia.
  - intros g c H. apply (capacityOk_orderStep g); [done |].
    apply step_orderStep.
Qed.

(** X3.  A game never holds more than five open orders: [spawnOrder] returns
    null and changes nothing when the open orders have reached
    [maxActiveOrders], and no command raises that maximum or adds an order by
    another way. *)
Theorem open_orders_bounded (t0 : Z) (cs : list Command) :
  let os := orderSystem (run (GameOps.create t0) cs) in
  JsMap.size (activeOrders os) ≤ 5
  ∧ maxActiveOrders os = 5
  ∧ ∀ now newId pick jitter ds (os0 : OrderSystem),
      maxActiveOrders os0 ≤ JsMap.size (activeOrders os0) →
      spawnOrder now newId pick jitter ds os0 = (None, os0).
Proof.
  intros os. destruct (capacityOk_run t0 cs) as [Hsize Hmax]. fold os in Hsize, Hmax.
  split; [lia |]. split; [done |].
  intros now newId pick jitter ds os0 Hfull. unfold spawnOrder.
  by rewrite (proj2 (Nat.leb_le _ _) Hfull).
Qed.

End OrderStepFacts.

(** ** The score and the record of terminal orders *)

Section ScoreFacts.
Import Orders.
Implicit Types (os : OrderSystem) (g : Game) (l : list Order).

Lemma sumScores_snoc l o :
  sumScores (l ++ [o]) = (sumScores l + scoreOf (order_rating o))%Z.
Proof.
  unfold sumScores. induction l as [|x l IH]; cbn; [lia |].
  rewrite IH. lia.
Qed.

Lemma filter_length_snoc (f : Order → bool) l o :
  Z.of_nat (length (List.filter f (l ++ [o])))
  = (Z.of_nat (length (List.filter f l)) + (if f o then 1 else 0))%Z.
Proof.
  rewrite List.filter_app, length_app. cbn. destruct (f o); cbn; lia.
Qed.

Lemma scoreOk_orderStep g os' :
  scoreOk (orderSystem g) → orderStep g os' → scoreOk os'.
Proof.
  intros (Htotal & Hserved & Hperfect) Hstep. unfold scoreOk.
  destruct Hstep as [| b | newId pick jitter | newId pick jitter Hrun | | orderId
                     | o Hact Hvalid | orderId order Hget Hrem |].
  - done.
  - done.
  - destruct (spawnOrder_frame (clock g) newId pick jitter (dishSystem g)
                (withRunning (orderSystem g) true)) as (-> & -> & -> & -> & _).
    done.
  - destruct (spawnOrder_frame (clock g) newId pick jitter (dishSystem g)
                (orderSystem g)) as (-> & -> & -> & -> & _).
    done.
  - done.
  - destruct (selectOrder_frame orderId (orderSystem g))
      as (-> & -> & -> & -> & _).
    done.
  - unfold completeOrder.
    destruct (JsMap.get _ _) as [order|]; [| done].
    pose proof (rate_scoreOf (clock g) true order) as [Hscore Hnf].
    destruct (rate (clock g) true order) as [rating score]. cbn in Hscore, Hnf.
    cbn [snd totalScore ordersCompleted perfectOrders completedOrders].
    rewrite sumScores_snoc, !filter_length_snoc, Htotal, Hserved, Hperfect.
    unfold wasServed, wasPerfect. cbn [order_rating complete]. subst score.
    destruct rating; cbn; first [done | repeat split; lia].
  - unfold expireOrder. rewrite Hget.
    cbn [snd totalScore ordersCompleted perfectOrders completedOrders].
    rewrite sumScores_snoc, !filter_length_snoc, Htotal, Hserved, Hperfect.
    unfold wasServed, wasPerfect. cbn. lia.
  - done.
Qed.

Lemma scoreOk_run (t0 : Z) (cs : list Command) :
  scoreOk (orderSystem (run (GameOps.create t0) cs)).
Proof.
  apply (run_invariant (λ g, scoreOk (orderSystem g))); [done |].
  intros g c H. apply (scoreOk_orderStep g); [done |]. apply step_orderStep.
Qed.

Lemma sumScores_bounds l :
  (100 * Z.of_nat (length (List.filter wasPerfect l)) ≤ sumScores l
   ≤ 100 * Z.of_nat (length (List.filter wasServed l)))%Z
  ∧ length (List.filter wasPerfect l) ≤ length (List.filter wasServed l).
Proof.
  unfold sumScores, wasPerfect, wasServed.
  induction l as [|o l IH]; cbn; [lia |].
  destruct (order_rating o) as [[]|]; cbn; lia.
Qed.

(** X4.  In every reachable state the counters of the order system are
    tallies of the record of terminal orders: [totalScore] is the sum of 100,
    60, 30 or 0 points over the recorded orders by rating (an expired order
    counts 0), [ordersCompleted] counts the served ones and [perfectOrders]
    the perfect ones.  Hence the score is never negative, is at least 100
    times the perfect orders and at most 100 times the served ones. *)
Theorem score_is_tally_of_record (t0 : Z) (cs : list Command) :
  let os := orderSystem (run (GameOps.create t0) cs) in
  totalScore os = sumScores (completedOrders os)
  ∧ ordersCompleted os
    = Z.of_nat (length (List.filter wasServed (completedOrders os)))
  ∧ perfectOrders os
    = Z.of_nat (length (List.filter wasPerfect (completedOrders os)))
  ∧ (0 ≤ 100 * perfectOrders os ≤ totalScore os)%Z
  ∧ (totalScore os ≤ 100 * ordersCompleted os)%Z
  ∧ (perfectOrders os ≤ ordersCompleted os)%Z.
Proof.
  intros os. destruct (scoreOk_run t0 cs) as (Ht & Hs & Hp).
  fold os in Ht, Hs, Hp.
  pose proof (sumScores_bounds (completedOrders os)) as [Hb Hle].
  rewrite Ht, Hs, Hp. repeat split; try done; lia.
Qed.

Lemma jsRound_bounds (lo hi : Z) (q : Q) :
  (inject_Z lo <= q)%Q → (q <= inject_Z hi)%Q →
  (lo ≤ jsRound q ≤ hi)%Z.
Proof.
  intros Hlo Hhi. unfold jsRound. split.
  - rewrite <- (Qfloor_Z lo). apply Qfloor_resp_le. lra.
  - pose proof (Qfloor_le (q + (1 # 2))) as Hfl.
    assert (inject_Z (Qfloor (q + (1 # 2))) < inject_Z (hi + 1))%Q as Hlt.
    { rewrite inject_Z_plus. change (inject_Z 1) with 1%Q. lra. }
    rewrite <- Zlt_Qlt in Hlt. lia.
Qed.

Lemma Qdiv_bounds (a b lo hi : Z) :
  (0 < b)%Z → (lo * b ≤ a ≤ hi * b)%Z →
  (inject_Z lo <= inject_Z a / inject_Z b)%Q
  ∧ (inject_Z a / inject_Z b <= inject_Z hi)%Q.
Proof.
  intros Hb [Hlo Hhi].
  assert (0 < inject_Z b)%Q as Hb'
    by (change 0%Q with (inject_Z 0); by rewrite <- Zlt_Qlt).
  split.
  - apply Qle_shift_div_l; [done |]. rewrite <- inject_Z_mult.
    by rewrite <- Zle_Qle.
  - apply Qle_shift_div_r; [done |]. rewrite <- inject_Z_mult.
    by rewrite <- Zle_Qle.
Qed.

(** X5.  In every reachable state the statistics are well-formed: the
    average score and the perfect rate, each rounded from a quotient of
    doubles as the source computes it, are 0 while nothing has been served
    and otherwise lie between 0 and 100, and the number of open orders
    reported is at most 5. *)
Theorem getStats_in_range (t0 : Z) (cs : list Command) :
  let stats := getStats (orderSystem (run (GameOps.create t0) cs)) in
  (0 ≤ stats_averageScore stats ≤ 100)%Z
  ∧ (0 ≤ stats_perfectRate stats ≤ 100)%Z
  ∧ stats_activeOrders stats ≤ 5
  ∧ (stats_ordersCompleted stats = 0%Z →
     stats_averageScore stats = 0%Z ∧ stats_perfectRate stats = 0%Z).
Proof.
  cbv zeta. set (os := orderSystem (run (GameOps.create t0) cs)).
  destruct (scoreOk_run t0 cs) as (Ht & Hs & Hp). fold os in Ht, Hs, Hp.
  pose proof (sumScores_bounds (completedOrders os)) as [Hb Hle].
  destruct (capacityOk_run t0 cs) as [Hsize Hmax]. fold os in Hsize, Hmax.
  unfold getStats.
  cbn [stats_averageScore stats_perfectRate stats_activeOrders
       stats_ordersCompleted].
  destruct (Z.ltb_spec 0 (ordersCompleted os)) as [Hpos|Hzero].
  - split; [| split; [| split; [lia | lia]]].
    + destruct (Qdiv_bounds (totalScore os) (ordersCompleted os) 0 100 Hpos)
        as [H0 H100]; [lia |].
      destruct (roundDouble_range _ 100 H0 H100) as [Hr0 Hr100]; [done |].
      by apply jsRound_bounds.
    + destruct (Qdiv_bounds (perfectOrders os) (ordersCompleted os) 0 1 Hpos)
        as [H0 H1]; [lia |].
      destruct (roundDouble_range _ 1 H0 H1) as [Hr0 Hr1]; [done |].
      set (q := JsNumber.roundDouble
                  (inject_Z (perfectOrders os)
                   / inject_Z (ordersCompleted os))) in *.
      change (inject_Z 1) with 1%Q in Hr1.
      destruct (roundDouble_range (q * 100) 100) as [Hp0 Hp100];
        [lra | change (inject_Z 100) with 100%Q; lra | done |].
      by apply jsRound_bounds.
  - repeat split; lia.
Qed.

(** 23 perfect orders of 40: the rate is rounded from the product of doubles,
    which is just below 57.5, not from the exact 57.5. *)
Lemma getStats_rounds_the_product :
  stats_perfectRate (getStats (mkOrderSystem [] [] 5 true 3000 40 23)) = 57%Z.
Proof. vm_compute. reflexivity. Qed.

(** *** Expiry *)

Lemma getRemainingTime_zero_iff (now : Z) (o : Order) :
  Z.ltb 0 (getRemainingTime now o) = false ↔ (timeLeft now o <= 0)%Q.
Proof.
  destruct (remaining_as_clamp now o) as (c & Hrem & Hc0 & Hcl & Hpos & Hneg).
  rewrite Z.ltb_ge. split.
  - intros H0. pose proof (Qle_ceiling (c / 1000)) as Hle.
    rewrite <- Hrem in Hle. rewrite Zle_Qle in H0.
    change (inject_Z 0) with 0%Q in H0. by_thousand. lra.
  - intros Hl. rewrite Hrem.
    rewrite (Qceiling_comp (c / 1000) 0); [done |].
    rewrite (Hneg Hl). reflexivity.
Qed.

Lemma timeLeft_antitone (now now' : Z) (o : Order) :
  (now ≤ now')%Z → (timeLeft now' o <= timeLeft now o)%Q.
Proof.
  intros Hle. rewrite Zle_Qle in Hle. unfold timeLeft, Z.sub.
  rewrite !inject_Z_plus. lra.
Qed.

Lemma expiredInTime_step g (c : Command) :
  expiredInTime g → expiredInTime (step g c).
Proof.
  unfold expiredInTime. intros Hinv.
  assert (Forall (λ o, order_rating o = Some failed →
                       (timeLeft (clock (step g c)) o <= 0)%Q)
            (completedOrders (orderSystem g))) as Hold.
  { eapply Forall_impl; [exact Hinv |]. intros o Ho Hfailed. cbn beta.
    pose proof (timeLeft_antitone _ _ o (clock_step g c)) as Hanti.
    specialize (Ho Hfailed). lra. }
  pose proof (step_orderStep g c) as Hstep.
  destruct Hstep as [| b | newId pick jitter | newId pick jitter Hrun | | orderId
                     | o Hact Hvalid | orderId order Hget Hrem |].
  - done.
  - done.
  - by destruct (spawnOrder_frame (clock g) newId pick jitter (dishSystem g)
                   (withRunning (orderSystem g) true)) as (-> & _).
  - by destruct (spawnOrder_frame (clock g) newId pick jitter (dishSystem g)
                   (orderSystem g)) as (-> & _).
  - apply Forall_nil_2.
  - by destruct (selectOrder_frame orderId (orderSystem g)) as (-> & _).
  - unfold completeOrder.
    destruct (JsMap.get _ _) as [order|]; [| done].
    pose proof (rate_scoreOf (clock g) true order) as [_ Hnf].
    destruct (rate (clock g) true order) as [rating score]. cbn in Hnf.
    cbn [snd completedOrders]. apply Forall_app. split; [done |].
    apply Forall_singleton. cbn. congruence.
  - unfold expireOrder. rewrite Hget. cbn [snd completedOrders].
    apply Forall_app. split; [done |]. apply Forall_singleton. intros _.
    apply getRemainingTime_zero_iff in Hrem.
    pose proof (timeLeft_antitone _ _ order (clock_step g c)) as Hanti.
    change (timeLeft (clock (step g c)) (complete failed order))
      with (timeLeft (clock (step g c)) order). lra.
  - done.
Qed.

(** X6.  No order expires early: in every reachable state each order
    recorded as failed is marked complete and has used up its whole time
    limit.  The timer of an order whose countdown has not reached 0 changes
    nothing. *)
Theorem orders_expire_only_when_due (t0 : Z) (cs : list Command) :
  let g := run (GameOps.create t0) cs in
  Forall (λ o, order_isComplete o = true
               ∧ (order_rating o = Some failed →
                  (timeLeft (clock g) o <= 0)%Q))
    (completedOrders (orderSystem g))
  ∧ ∀ orderId order,
      JsMap.get orderId (activeOrders (orderSystem g)) = Some order →
      (0 < timeLeft (clock g) order)%Q →
      GameOps.orderTimer orderId g = g.
Proof.
  intros g. split.
  - assert (expiredInTime g) as Hexp.
    { apply (run_invariant expiredInTime); [apply Forall_nil_2 |].
      intros g' c. apply expiredInTime_step. }
    assert (reachable g) as Hreach by (by exists t0, cs).
    destruct (ordersOk_reachable g Hreach) as (_ & _ & Hdone & _).
    unfold expiredInTime in Hexp. rewrite Forall_forall in Hexp, Hdone.
    apply Forall_forall. intros o Ho. split; [by apply Hdone |].
    by apply Hexp.
  - intros orderId order Hget Hleft. unfold GameOps.orderTimer. rewrite Hget.
    destruct (order_isComplete order); [done |].
    destruct (Z.ltb 0 _) eqn:Hrem; [done |].
    apply getRemainingTime_zero_iff in Hrem. lra.
Qed.

End ScoreFacts.

(** ** Selecting an order *)

Section SelectFacts.
Import Orders.
Implicit Types (act : list (string * Order)) (os : OrderSystem).

Lemma get_demote orderId act :
  JsMap.get orderId (demoteFirstActive act)
  = None ∧ JsMap.get orderId act = None
  ∨ ∃ o o', JsMap.get orderId act = Some o
            ∧ JsMap.get orderId (demoteFirstActive act) = Some o'
            ∧ sameButActive o o'.
Proof.
  induction act as [|[k o] act IH]; cbn; [by left |].
  destruct (order_isActive o) eqn:Hact; cbn.
  - destruct (decide (orderId = k)).
    + right. by exists o, (withActive o false).
    + destruct (JsMap.get orderId act) as [o1|]; [| by left].
      right. by exists o1, o1.
  - destruct (decide (orderId = k)); [| exact IH].
    right. by exists o, o.
Qed.

Lemma select_again act orderId (o : Order) :
  activeCount act = 0 → order_isActive o = true →
  JsMap.set orderId o (demoteFirstActive (JsMap.set orderId o act))
  = JsMap.set orderId o act.
Proof.
  unfold activeCount. intros Hnone Hact.
  induction act as [|[k v] act IH]; cbn.
  - rewrite Hact. cbn. by rewrite decide_True.
  - cbn in Hnone. destruct (order_isActive v) eqn:Hv; [done |].
    destruct (decide (orderId = k)) as [->|Hne]; cbn.
    + rewrite Hact. cbn. by rewrite decide_True.
    + rewrite Hv. cbn. rewrite decide_False by done. by rewrite IH.
Qed.

(** X7.  Selecting an order touches nothing but [isActive] flags: an unknown
    id fails and leaves the order system as it was; a known one keeps the
    open orders in their places, each with the same data up to its flag, and
    keeps the terminal record and the counters.  Selecting the order that is
    already selected changes nothing. *)
Theorem selectOrder_only_moves_flag (orderId : string) (os : OrderSystem) :
  (JsMap.get orderId (activeOrders os) = None →
   selectOrder orderId os = (None, os))
  ∧ (let os' := snd (selectOrder orderId os) in
     JsMap.keys (activeOrders os') = JsMap.keys (activeOrders os)
     ∧ (∀ k o, JsMap.get k (activeOrders os) = Some o →
          ∃ o', JsMap.get k (activeOrders os') = Some o' ∧ sameButActive o o')
     ∧ completedOrders os' = completedOrders os
     ∧ totalScore os' = totalScore os
     ∧ ordersCompleted os' = ordersCompleted os
     ∧ perfectOrders os' = perfectOrders os
     ∧ (activeCount (activeOrders os) ≤ 1 →
        snd (selectOrder orderId os') = os')).
Proof.
  split.
  - intros Hget. unfold selectOrder. by rewrite Hget.
  - cbv zeta.
    destruct (selectOrder_frame orderId os) as (Hc & Ht & Ho & Hp & _).
    unfold selectOrder in *.
    destruct (JsMap.get orderId (activeOrders os)) as [order|] eqn:Hget.
    + cbn [snd activeOrders withOrders] in *.
      assert (JsMap.get orderId (demoteFirstActive (activeOrders os)) ≠ None)
        as Hin.
      { destruct (get_demote orderId (activeOrders os))
          as [[_ Hn] | (o1 & o2 & _ & H2 & _)]; congruence. }
      split; [| split; [| repeat split; try done]].
      * destruct (JsMap.get orderId (demoteFirstActive (activeOrders os)))
          as [o2|] eqn:E; [| done].
        by rewrite (jsmap_keys_set_existing _ _ o2), keys_demote.
      * intros k o Hk. destruct (decide (orderId = k)) as [<-|Hne].
        -- rewrite jsmap_get_set_eq. eexists. split; [done |].
           rewrite Hget in Hk. by injection Hk as <-.
        -- rewrite jsmap_get_set_ne by done.
           destruct (get_demote k (activeOrders os))
             as [[_ Hn] | (o1 & o2 & H1 & H2 & Hsame)]; [congruence |].
           exists o2. split; [done |]. congruence.
      * intros Hcount. rewrite jsmap_get_set_eq.
        cbn [snd activeOrders withOrders].
        change (withActive (withActive order true) true)
          with (withActive order true).
        rewrite select_again; [done | | done].
        rewrite activeCount_demote. lia.
    + cbn [snd] in *. repeat split; try done.
      * intros k o Hk. by exists o.
      * intros _. by rewrite Hget.
Qed.

End SelectFacts.

(** ** Resetting a dish and adding ingredients *)

Section DishOpFacts.
Import DishSystemOps.
Implicit Types (ds : DishSystem) (dish : Dish).

Lemma jsmap_set_set {V : Type} (k : string) (v v' : V)
  (m : list (string * V)) :
  JsMap.set k v (JsMap.set k v' m) = JsMap.set k v m.
Proof.
  induction m as [|[k0 v0] m IH]; cbn.
  - by rewrite decide_True.
  - destruct (decide (k = k0)) as [->|Hne]; cbn.
    + by rewrite decide_True.
    + rewrite decide_False by done. by rewrite IH.
Qed.

(** X8.  [resetDish] on an unknown id fails and changes nothing; on a known
    dish it clears the four progress fields of that entry and nothing else,
    twice is the same as once, and in a reachable game it puts the entry back
    to what was loaded at startup. *)
Theorem resetDish_restores_entry (dishId : string) (ds : DishSystem) :
  (getDish dishId ds = None → resetDish dishId ds = (false, ds))
  ∧ (∀ dish, getDish dishId ds = Some dish →
       fst (resetDish dishId ds) = true
       ∧ getDish dishId (snd (resetDish dishId ds)) = Some (recipeOf dish)
       ∧ (∀ other, other ≠ dishId →
            getDish other (snd (resetDish dishId ds)) = getDish other ds)
       ∧ sameCatalog (snd (resetDish dishId ds)) ds)
  ∧ snd (resetDish dishId (snd (resetDish dishId ds)))
    = snd (resetDish dishId ds)
  ∧ ∀ t0 cs,
      ds = dishSystem (run (GameOps.create t0) cs) →
      getDish dishId (snd (resetDish dishId ds))
      = getDish dishId DishSystemOps.create.
Proof.
  split; [| split; [| split]].
  - intros Hget. unfold resetDish. by rewrite Hget.
  - intros dish Hget. unfold resetDish. rewrite Hget. cbn [fst snd].
    split; [done |]. split; [apply lookup_getDish_putDish |].
    split; [| by apply sameCatalog_putDish].
    intros other Hne. by apply lookup_getDish_putDish_ne.
  - unfold resetDish at 2 3.
    destruct (getDish dishId ds) as [dish|] eqn:Hget; cbn [snd].
    + unfold resetDish. rewrite lookup_getDish_putDish. cbn [snd].
      unfold putDish. cbn [dishes ingredients tools cookingStations].
      by rewrite jsmap_set_set.
    + unfold resetDish. by rewrite Hget.
  - intros t0 cs ->. set (ds := dishSystem (run (GameOps.create t0) cs)).
    destruct (sameCatalog_run (GameOps.create t0) cs) as (Hr & _).
    fold ds in Hr. cbn [dishSystem GameOps.create] in Hr.
    assert (recipes DishSystemOps.create = dishes DishSystemOps.create) as H0
      by reflexivity.
    pose proof (getDish_recipes dishId ds) as Hd.
    rewrite Hr, H0 in Hd. fold (getDish dishId DishSystemOps.create) in Hd.
    unfold resetDish. destruct (getDish dishId ds) as [dish|] eqn:Hget.
    + cbn [snd]. rewrite lookup_getDish_putDish. exact Hd.
    + cbn [snd]. rewrite Hget. exact Hd.
Qed.

(** X9.  [addIngredientToDish] either fails and leaves the dish system as it
    was, or succeeds; it succeeds exactly when the dish exists, the recipe
    lists the ingredient and the ingredient is not yet in the added set.  On
    success the ingredient is in the added set with a fresh progress entry,
    ready iff the recipe gives it no prep step, the other entries and the
    final-step progress are as before, and adding it a second time fails. *)
Theorem addIngredientToDish_outcome (dishId ingredientId : string)
  (ds : DishSystem) :
  let r := addIngredientToDish dishId ingredientId ds in
  (fst r = false → snd r = ds)
  ∧ (fst r = true
     ↔ ∃ dish ing,
         getDish dishId ds = Some dish
         ∧ List.find (λ i, String.eqb (ing_id i) ingredientId)
             (dish_ingredients dish) = Some ing
         ∧ ingredientId ∉ currentIngredients dish)
  ∧ (fst r = true →
     ∃ dish ing dish',
       getDish dishId ds = Some dish
       ∧ List.find (λ i, String.eqb (ing_id i) ingredientId)
           (dish_ingredients dish) = Some ing
       ∧ getDish dishId (snd r) = Some dish'
       ∧ currentIngredients dish' = {[ingredientId]} ∪ currentIngredients dish
       ∧ ingredientStates dish' !! ingredientId
         = Some (mkIngredientState true 0
                   (bool_decide (ing_prepSteps ing = [])))
       ∧ (∀ other, other ≠ ingredientId →
            ingredientStates dish' !! other = ingredientStates dish !! other)
       ∧ finalStepsProgress dish' = finalStepsProgress dish
       ∧ isComplete dish' = isComplete dish
       ∧ addIngredientToDish dishId ingredientId (snd r) = (false, snd r)).
Proof.
  cbv zeta.
  assert ((addIngredientToDish dishId ingredientId ds = (false, ds)
           ∧ ¬ ∃ dish ing,
                 getDish dishId ds = Some dish
                 ∧ List.find (λ i, String.eqb (ing_id i) ingredientId)
                     (dish_ingredients dish) = Some ing
                 ∧ ingredientId ∉ currentIngredients dish)
          ∨ ∃ dish ing,
              getDish dishId ds = Some dish
              ∧ List.find (λ i, String.eqb (ing_id i) ingredientId)
                  (dish_ingredients dish) = Some ing
              ∧ (ingredientId ∉ currentIngredients dish)
              ∧ addIngredientToDish dishId ingredientId ds
                = (true,
                   putDish dishId
                     (withProgress dish
                        ({[ingredientId]} ∪ currentIngredients dish)
                        (<[ingredientId :=
                             mkIngredientState true 0
                               (Nat.eqb (length (ing_prepSteps ing)) 0)]>
                           (ingredientStates dish))
                        (finalStepsProgress dish) (isComplete dish))
                     ds)) as [[Hfail Hnot] | (dish & ing & Hget & Hfind & Hin & Hok)].
  { unfold addIngredientToDish.
    destruct (getDish dishId ds) as [dish|] eqn:Hget.
    - destruct (List.find _ (dish_ingredients dish)) as [ing|] eqn:Hfind.
      + case_bool_decide as Hin.
        * left. split; [done |]. intros (d & i & [= <-] & _ & Hnot). done.
        * right. by exists dish, ing.
      + left. split; [done |]. intros (d & i & [= <-] & Hf & _). congruence.
    - left. split; [done |]. intros (d & i & [=] & _). }
  - rewrite Hfail. cbn [fst snd]. split; [done |]. split; [| done].
    split; [done |]. intros H. by destruct Hnot.
  - rewrite Hok. cbn [fst snd]. split; [done |]. split.
    { split; [| done]. intros _. by exists dish, ing. }
    intros _. exists dish, ing. eexists. split; [done |].
    split; [done |]. split; [apply lookup_getDish_putDish |].
    cbn [currentIngredients ingredientStates finalStepsProgress isComplete
         withProgress].
    split; [done |]. split.
    { rewrite lookup_insert_eq. do 2 f_equal.
      destruct (ing_prepSteps ing); by cbn. }
    split; [by intros other Hne; rewrite lookup_insert_ne |].
    split; [done |]. split; [done |].
    unfold addIngredientToDish. rewrite lookup_getDish_putDish.
    cbn [dish_ingredients withProgress currentIngredients]. rewrite Hfind.
    rewrite bool_decide_eq_true_2; [done |]. set_solver.
Qed.

End DishOpFacts.

(** ** Slots of a cooking station *)

Section SlotFacts.
Implicit Types (st : CookingStation) (m : CookingStationManager).

Lemma find_seq_least (f : nat → bool) (start len i : nat) :
  List.find f (seq start len) = Some i →
  start ≤ i < start + len ∧ f i = true ∧ ∀ j, start ≤ j < i → f j = false.
Proof.
  revert start. induction len as [|len IH]; intros start; cbn; [done |].
  destruct (f start) eqn:Hf.
  - intros [= <-]. repeat split; [lia.. | done | intros; lia].
  - intros Hfind. destruct (IH _ Hfind) as (Hrange & Hi & Hlow).
    repeat split; [lia.. | done |].
    intros j Hj. destruct (decide (j = start)) as [->|Hne]; [done |].
    apply Hlow. lia.
Qed.

Lemma find_seq_none (f : nat → bool) (start len : nat) :
  List.find f (seq start len) = None →
  ∀ j, start ≤ j < start + len → f j = false.
Proof.
  revert start. induction len as [|len IH]; intros start; cbn; [intros; lia |].
  destruct (f start) eqn:Hf; [done |].
  intros Hfind j Hj. destruct (decide (j = start)) as [->|Hne]; [done |].
  apply (IH _ Hfind). lia.
Qed.

Lemma getNextAvailableSlot_Some st i :
  Station.getNextAvailableSlot st = Some i →
  i < st_cookingSlots st ∧ JsMap.has i (st_currentItems st) = false
  ∧ ∀ j, j < i → JsMap.has j (st_currentItems st) = true.
Proof.
  unfold Station.getNextAvailableSlot. intros Hfind.
  apply find_seq_least in Hfind as (Hrange & Hi & Hlow).
  split; [lia |]. split; [by apply negb_true_iff |].
  intros j Hj. apply negb_false_iff, Hlow. lia.
Qed.

Lemma getNextAvailableSlot_None st :
  Station.getNextAvailableSlot st = None → stationFull st.
Proof.
  unfold Station.getNextAvailableSlot. intros Hfind i Hi.
  apply negb_false_iff. apply (find_seq_none _ _ _ Hfind). lia.
Qed.

(** X10.  [getNextAvailableSlot] returns the lowest-numbered free slot of the
    station, and -1 (here [None]) exactly when every slot holds a job. *)
Theorem getNextAvailableSlot_lowest_free (st : CookingStation) :
  match Station.getNextAvailableSlot st with
  | Some i =>
      i < st_cookingSlots st ∧ JsMap.has i (st_currentItems st) = false
      ∧ ∀ j, j < i → JsMap.has j (st_currentItems st) = true
  | None => stationFull st
  end
  ∧ (Station.getNextAvailableSlot st = None ↔ stationFull st).
Proof.
  split.
  - destruct (Station.getNextAvailableSlot st) as [i|] eqn:E.
    + by apply getNextAvailableSlot_Some.
    + by apply getNextAvailableSlot_None.
  - split; [apply getNextAvailableSlot_None | apply getNextAvailableSlot_full].
Qed.

Lemma slots_size_keys (items : list (nat * CookingItem)) :
  JsMap.size items = length (JsMap.keys items).
Proof. unfold JsMap.size, JsMap.keys. by rewrite length_fmap. Qed.

(** Slots with distinct indices below the capacity: the free ones are found
    by counting as well as by looking. *)
Lemma stationOk_free_slot st :
  stationOk st →
  Station.hasAvailableSlot st = true
  ↔ ∃ i, Station.getNextAvailableSlot st = Some i.
Proof.
  intros [Hnd Hlt]. unfold Station.hasAvailableSlot. rewrite Nat.ltb_lt.
  rewrite slots_size_keys. split.
  - intros Hsize.
    destruct (Station.getNextAvailableSlot st) as [i|] eqn:E; [by exists i |].
    apply getNextAvailableSlot_None in E. exfalso.
    assert (seq 0 (st_cookingSlots st) ⊆+ JsMap.keys (st_currentItems st))
      as Hsub.
    { apply NoDup_submseteq; [apply NoDup_seq |].
      intros i Hi%elem_of_seq. specialize (E i ltac:(lia)).
      unfold JsMap.has in E.
      destruct (JsMap.get i (st_currentItems st)) as [item|] eqn:Hget;
        [| done].
      apply jsmap_get_Some_elem in Hget.
      apply list_elem_of_fmap. by exists (i, item). }
    apply submseteq_length in Hsub. rewrite length_seq in Hsub. lia.
  - intros [i Hi]. apply getNextAvailableSlot_Some in Hi as (Hcap & Hfree & _).
    assert (i :: JsMap.keys (st_currentItems st) ⊆+ seq 0 (st_cookingSlots st))
      as Hsub.
    { apply NoDup_submseteq.
      - apply NoDup_cons. split; [| done].
        apply jsmap_get_None_keys. unfold JsMap.has in Hfree.
        by destruct (JsMap.get i (st_currentItems st)).
      - intros j [->|Hj]%elem_of_cons; [apply elem_of_seq; lia |].
        apply list_elem_of_fmap in Hj as ([k v] & -> & Hkv).
        rewrite Forall_forall in Hlt. apply Hlt in Hkv. cbn in *.
        apply elem_of_seq. lia. }
    apply submseteq_length in Hsub. rewrite length_seq in Hsub. cbn in Hsub.
    lia.
Qed.

(** X11.  The two ways the source asks whether a station has room agree in
    every reachable game: [hasAvailableSlot], which compares the number of
    jobs with the capacity, is true exactly when [getNextAvailableSlot],
    which scans the slots, finds one. *)
Theorem hasAvailableSlot_agrees (t0 : Z) (cs : list Command) :
  ∀ sid st,
    JsMap.get sid (stations (cookingStationManager (run (GameOps.create t0) cs)))
    = Some st →
    Station.hasAvailableSlot st = true
    ↔ ∃ i, Station.getNextAvailableSlot st = Some i.
Proof.
  intros sid st Hget. apply stationOk_free_slot.
  assert (reachable (run (GameOps.create t0) cs)) as Hreach
    by (by exists t0, cs).
  apply stationsOk_reachable in Hreach.
  apply (jsmap_Forall_get _ _ _ _ Hreach Hget).
Qed.

(** The grill of a fresh game has room, by either test. *)
Lemma hasAvailableSlot_agrees_witness :
  ∃ st,
    JsMap.get "grill"
      (stations (cookingStationManager (run (GameOps.create 0) [])))
    = Some st
    ∧ Station.hasAvailableSlot st = true
    ∧ (Station.hasAvailableSlot st = true
       ↔ ∃ i, Station.getNextAvailableSlot st = Some i).
Proof.
  eexists. split; [reflexivity |]. split; [reflexivity |].
  apply (hasAvailableSlot_agrees 0 [] "grill"). reflexivity.
Defined.

(** X12.  A job that [handleCookingAction] accepts on a multi-slot station
    goes to the station's lowest free slot, not ready, started at the time of
    the call, for the given ingredient and action; every other slot and every
    other station is as before. *)
Theorem handleCookingAction_takes_lowest_slot
  (now : Z) (action ingredient : string) (ds : DishSystem)
  (m m' : CookingStationManager) (sid : string) (st : CookingStation) :
  activeStation m = Some sid → JsMap.get sid (stations m) = Some st →
  1 < st_cookingSlots st →
  Manager.handleCookingAction now action ingredient ds m = (true, m') →
  ∃ i st' item,
    Station.getNextAvailableSlot st = Some i
    ∧ JsMap.get sid (stations m') = Some st'
    ∧ JsMap.get i (st_currentItems st') = Some item
    ∧ ci_isReady item = false ∧ ci_startTime item = now
    ∧ ci_action item = action ∧ ci_ingredient item = ingredient
    ∧ (∀ j, j ≠ i →
         JsMap.get j (st_currentItems st') = JsMap.get j (st_currentItems st))
    ∧ (∀ other, other ≠ sid →
         JsMap.get other (stations m') = JsMap.get other (stations m))
    ∧ activeStation m' = activeStation m ∧ currentDish m' = currentDish m.
Proof.
  intros Hactive Hget Hcap. unfold Manager.handleCookingAction.
  rewrite Hactive, Hget. apply Nat.ltb_lt in Hcap.
  destruct (currentDish m) as [dishId|]; [| done].
  destruct (negb (truthy dishId)); [done |].
  destruct (DishSystemOps.getDish dishId ds) as [dish|]; [| done].
  destruct (negb _); [done |]. rewrite Hcap.
  destruct (Station.getNextAvailableSlot st) as [i|] eqn:Hslot; [| done].
  destruct (getNextAvailableSlot_Some st i Hslot) as (Hi & Hfree & Hlow).
  unfold Station.addItem. rewrite (proj2 (Nat.leb_gt _ _) Hi).
  intros [= <-]. eexists i, _, _. split; [done |].
  cbn [stations activeStation currentDish].
  split; [apply jsmap_get_set_eq |].
  cbn [st_currentItems Station.withItems].
  split; [apply jsmap_get_set_eq |]. cbn.
  do 4 (split; [done |]).
  split; [by intros j Hj; apply jsmap_get_set_ne |].
  split; [by intros other Hne; apply jsmap_get_set_ne |]. done.
Qed.

(** The first chicken put on the empty grill. *)
Lemma handleCookingAction_takes_lowest_slot_witness :
  ∃ st m',
    activeStation grillManager = Some "grill"
    ∧ JsMap.get "grill" (stations grillManager) = Some st
    ∧ 1 < st_cookingSlots st
    ∧ Manager.handleCookingAction 0 "grill" "chicken_breast"
        DishSystemOps.create grillManager = (true, m')
    ∧ ∃ i st' item,
        Station.getNextAvailableSlot st = Some i
        ∧ JsMap.get "grill" (stations m') = Some st'
        ∧ JsMap.get i (st_currentItems st') = Some item
        ∧ ci_isReady item = false ∧ ci_startTime item = 0%Z
        ∧ ci_action item = "grill" ∧ ci_ingredient item = "chicken_breast"
        ∧ (∀ j, j ≠ i →
             JsMap.get j (st_currentItems st')
             = JsMap.get j (st_currentItems st))
        ∧ (∀ other, other ≠ "grill" →
             JsMap.get other (stations m')
             = JsMap.get other (stations grillManager))
        ∧ activeStation m' = activeStation grillManager
        ∧ currentDish m' = currentDish grillManager.
Proof.
  eexists _, _. split; [reflexivity |]. split; [reflexivity |].
  split; [cbn; lia |]. split; [reflexivity |].
  apply (handleCookingAction_takes_lowest_slot 0 "grill" "chicken_breast"
           DishSystemOps.create grillManager _ "grill");
    [reflexivity | reflexivity | cbn; lia | reflexivity].
Defined.

(** X13.  [removeCookedItem] returns null and changes nothing unless the
    station exists and the slot holds a ready job; then it returns that job,
    frees the slot and leaves the other slots, the capacity and the other
    stations as they were. *)
Theorem removeCookedItem_outcome (stationId : string) (slotIndex : nat)
  (m : CookingStationManager) :
  let r := Manager.removeCookedItem stationId slotIndex m in
  (fst r = None → snd r = m)
  ∧ (∀ item,
       fst r = Some item
       ↔ ∃ st, JsMap.get stationId (stations m) = Some st
               ∧ JsMap.get slotIndex (st_currentItems st) = Some item
               ∧ ci_isReady item = true)
  ∧ (∀ item st,
       fst r = Some item → JsMap.get stationId (stations m) = Some st →
       ∃ st', JsMap.get stationId (stations (snd r)) = Some st'
              ∧ st_cookingSlots st' = st_cookingSlots st
              ∧ (NoDup (JsMap.keys (st_currentItems st)) →
                 JsMap.get slotIndex (st_currentItems st') = None)
              ∧ ∀ j, j ≠ slotIndex →
                  JsMap.get j (st_currentItems st')
                  = JsMap.get j (st_currentItems st))
  ∧ (∀ other, other ≠ stationId →
       JsMap.get other (stations (snd r)) = JsMap.get other (stations m))
  ∧ activeStation (snd r) = activeStation m
  ∧ currentDish (snd r) = currentDish m.
Proof.
  cbv zeta. unfold Manager.removeCookedItem.
  destruct (JsMap.get stationId (stations m)) as [st|] eqn:Hst.
  - destruct (JsMap.get slotIndex (st_currentItems st)) as [item|] eqn:Hitem.
    + destruct (ci_isReady item) eqn:Hready; cbn [negb fst snd].
      * cbn [Station.removeItem fst snd stations activeStation currentDish].
        rewrite Hitem. split; [done |]. split.
        { intros item'. split.
          - intros [= <-]. by exists st.
          - intros (st0 & [= <-] & Hi & _). congruence. }
        split.
        { intros item' st0 _ [= <-]. eexists.
          split; [apply jsmap_get_set_eq |].
          cbn [st_cookingSlots st_currentItems Station.withItems].
          split; [done |]. split; [apply jsmap_get_delete_eq |].
          intros j Hj. by apply jsmap_get_delete_ne. }
        split; [by intros other Hne; apply jsmap_get_set_ne |]. done.
      * split; [done |]. split.
        { intros item'. split; [done |].
          intros (st0 & [= <-] & Hi & Hr). congruence. }
        split; [done |]. done.
    + cbn [fst snd]. split; [done |]. split.
      { intros item'. split; [done |].
        intros (st0 & [= <-] & Hi & _). congruence. }
      split; [done |]. done.
  - cbn [fst snd]. split; [done |]. split.
    { intros item'. split; [done |]. intros (st0 & [=] & _). }
    split; [done |]. done.
Qed.

End SlotFacts.

(** ** What a command does to the stations *)

Section ManagerStepFacts.
Implicit Types (st : CookingStation) (m : CookingStationManager) (g : Game).

Lemma managerOps_weaken r m m' : managerOps false m m' → managerOps r m m'.
Proof.
  induction 1 as [|m1 m2 m3 _ IH Hop]; [apply mos_refl |].
  eapply mos_step; [exact IH |]. destruct r; [| done].
  inversion Hop; subst; constructor.
Qed.

Lemma managerOps_one r m m' : managerOp r m m' → managerOps r m m'.
Proof. intros. eapply mos_step; [apply mos_refl | done]. Qed.

Lemma managerOps_retrieve dishId readyItems retrieved ds m :
  managerOps true m
    (snd (fold_left (GameOps.retrieveOne dishId) readyItems
            (retrieved, ds, m))).
Proof.
  revert retrieved ds m.
  assert (∀ readyItems retrieved ds m m0,
            managerOps true m0 m →
            managerOps true m0
              (snd (fold_left (GameOps.retrieveOne dishId) readyItems
                      (retrieved, ds, m)))) as Hgen.
  { clear. induction readyItems as [|[[sid slot] item] rest IH];
      intros n ds m m0 Hm0; [done |].
    cbn [fold_left]. unfold GameOps.retrieveOne at 2.
    pose proof (mo_removeCookedItem sid slot m) as Hop.
    destruct (Manager.removeCookedItem sid slot m) as [[r|] m'];
      cbn [snd] in Hop; apply IH; by eapply mos_step. }
  intros. apply Hgen, mos_refl.
Qed.

Lemma step_managerOps g (c : Command) :
  managerOps (isRetrieve c) (cookingStationManager g)
    (cookingStationManager (step g c)).
Proof.
  destruct c; cbn [step isRetrieve].
  - unfold GameOps.startGame. repeat case_match; apply mos_refl.
  - rewrite manager_pauseGame. apply mos_refl.
  - unfold GameOps.resetGame. cbn [cookingStationManager].
    rewrite manager_pauseGame. apply managerOps_one. constructor.
  - unfold GameOps.spawnTimer. repeat case_match; apply mos_refl.
  - unfold GameOps.orderTimer. repeat case_match; apply mos_refl.
  - apply managerOps_one.
    exact (mo_cookingTimer false stationId slotIndex (cookingStationManager g)).
  - exact (mos_refl false (cookingStationManager g)).
  - unfold GameOps.selectOrder.
    destruct (Orders.selectOrder _ _) as [[o|] os']; [| apply mos_refl].
    destruct (Manager.setActiveDish _ _ _ _) as [b m'] eqn:E. name_snd.
    apply managerOps_one. constructor.
  - unfold GameOps.addIngredient.
    destruct (DishSystemOps.addIngredientToDish _ _ _). apply mos_refl.
  - unfold GameOps.useTool.
    destruct (DishSystemOps.getDish _ _); [| apply mos_refl].
    destruct (DishSystemOps.getTool _ _); [| apply mos_refl].
    destruct (DishSystemOps.useToolOnDish _ _ _) as [[] ds];
      [| apply mos_refl].
    destruct (DishSystemOps.getDish dishId ds) as [dish|]; [| apply mos_refl].
    destruct (GameOps.cookingTrigger _ _ _) as [[ingredientId station]|];
      [| apply mos_refl].
    destruct (Manager.setActiveDish _ _ _ _) as [b1 m1] eqn:E1.
    destruct (Manager.handleCookingAction _ _ _ _ _) as [b2 m2] eqn:E2.
    name_snd. cbn [snd cookingStationManager].
    eapply mos_step; [apply managerOps_one |]; constructor.
  - unfold GameOps.serveDish. repeat case_match; try apply mos_refl.
    apply managerOps_one. constructor.
  - unfold GameOps.cancelCurrentDish. repeat case_match; try apply mos_refl.
    apply managerOps_one. constructor.
  - unfold GameOps.retrieveCookedItems.
    destruct (Manager.getReadyItems _) as [|r rs]; [apply mos_refl |].
    destruct (Orders.getActiveOrder _) as [o|]; [| apply mos_refl].
    destruct (DishSystemOps.getDish _ _); [| apply mos_refl].
    pose proof (managerOps_retrieve (order_dishId o) (r :: rs) 0
                  (dishSystem g) (cookingStationManager g)) as Hfold.
    destruct (fold_left _ _ _) as [[n ds] m]. cbn [snd] in Hfold.
    destruct (Nat.ltb 0 n); [| done].
    destruct (Manager.setActiveDish _ _ _ _) as [b m'] eqn:E. name_snd.
    eapply mos_step; [exact Hfold | constructor].
  - exact (mos_refl false (cookingStationManager g)).
Qed.

(** *** The configuration of the stations *)

Lemma configs_set_same (sid : string) (st st' : CookingStation)
  (sts : list (string * CookingStation)) :
  JsMap.get sid sts = Some st → configOf st' = configOf st →
  (λ ks, (ks.1, configOf ks.2)) <$> JsMap.set sid st' sts
  = (λ ks : string * CookingStation, (ks.1, configOf ks.2)) <$> sts.
Proof.
  intros Hget Heq. induction sts as [|[k s0] sts IH]; [done |].
  cbn in Hget |- *. destruct (decide (sid = k)) as [->|Hne]; csimpl.
  - injection Hget as ->. by rewrite Heq.
  - by rewrite IH.
Qed.

Lemma configs_onStation key (f : CookingStation → CookingStation)
  (sts : list (string * CookingStation)) :
  (∀ st, configOf (f st) = configOf st) →
  (λ ks, (ks.1, configOf ks.2)) <$> Manager.onStation key f sts
  = (λ ks : string * CookingStation, (ks.1, configOf ks.2)) <$> sts.
Proof.
  intros Hf. unfold Manager.onStation.
  destruct (JsMap.get key sts) as [st|] eqn:Hget; [| done].
  by apply (configs_set_same _ st).
Qed.

Lemma configOf_cookingTimer st slot :
  configOf (Station.cookingTimer slot st) = configOf st.
Proof. unfold Station.cookingTimer. by case_match. Qed.

Lemma configOf_addItem now slot name action ingredient cookingTime st :
  configOf (snd (Station.addItem now slot name action ingredient cookingTime st))
  = configOf st.
Proof. unfold Station.addItem. by case_match. Qed.

Lemma stationConfigs_managerOp r m m' :
  managerOp r m m' → stationConfigs m' = stationConfigs m.
Proof.
  unfold stationConfigs. destruct 1 as [r dishId stationId ds m | r m
    | r now action ingredient ds m | r sid slot m | sid slot m].
  - unfold Manager.setActiveDish. repeat case_match; try done;
      cbn [snd stations];
      rewrite ?configs_onStation; done.
  - unfold Manager.clearCurrentDish. case_match; cbn [stations];
      rewrite ?configs_onStation; done.
  - unfold Manager.handleCookingAction.
    destruct (activeStation m) as [a|]; [| done].
    destruct (currentDish m) as [dishId|]; [| done].
    destruct (negb (truthy dishId)); [done |].
    destruct (JsMap.get a (stations m)) as [station|] eqn:Hst; [| done].
    destruct (DishSystemOps.getDish dishId ds) as [dish|]; [| done].
    destruct (negb _); [done |]. destruct (Nat.ltb _ _); [| done].
    destruct (Station.getNextAvailableSlot station) as [slotIndex|]; [| done].
    destruct (Station.addItem _ _ _ _ _ _ _) as [ok station'] eqn:E. name_snd.
    cbn [snd stations]. apply (configs_set_same _ station); [done |].
    apply configOf_addItem.
  - cbn [stations]. apply configs_onStation. intros st.
    apply configOf_cookingTimer.
  - unfold Manager.removeCookedItem.
    destruct (JsMap.get sid (stations m)) as [station|] eqn:Hst; [| done].
    destruct (JsMap.get slot (st_currentItems station)) as [item|]; [| done].
    destruct (negb (ci_isReady item)); [done |].
    unfold Station.removeItem. cbn [snd stations].
    by apply (configs_set_same _ station).
Qed.

Lemma stationConfigs_run (t0 : Z) (cs : list Command) :
  stationConfigs (cookingStationManager (run (GameOps.create t0) cs))
  = stationConfigs (cookingStationManager (GameOps.create t0)).
Proof.
  apply (run_invariant
           (λ g, stationConfigs (cookingStationManager g)
                 = stationConfigs (cookingStationManager (GameOps.create t0))));
    [done |].
  intros g c <-. pose proof (step_managerOps g c) as Hops.
  induction Hops as [|m1 m2 m3 _ IH Hop]; [done |].
  by rewrite (stationConfigs_managerOp _ _ _ Hop).
Qed.

Lemma getStation_configs sid m :
  configOf <$> JsMap.get sid (stations m) = JsMap.get sid (stationConfigs m).
Proof.
  unfold stationConfigs. induction (stations m) as [|[k st] sts IH]; [done |].
  csimpl. by destruct (decide (sid = k)).
Qed.

(** X14.  The stations of a game are those of the dish system's table, for
    good: whatever the game has run, [getStation] finds a station exactly
    under the ids prep, grill, fryer and stove, in that order, and its id,
    name, permitted actions and number of slots are the configured ones (one
    slot where the table gives none).  Only the jobs and the highlight of a
    station change. *)
Theorem stations_keep_configuration (t0 : Z) (cs : list Command) :
  let m := cookingStationManager (run (GameOps.create t0) cs) in
  JsMap.keys (stations m) = JsMap.keys (cookingStations DishSystemOps.create)
  ∧ ∀ sid,
      configOf <$> Manager.getStation sid m
      = Station.create sid
          <$> DishSystemOps.getCookingStation sid DishSystemOps.create.
Proof.
  intros m. pose proof (stationConfigs_run t0 cs) as Hcfg. fold m in Hcfg.
  split.
  - transitivity (JsMap.keys (stationConfigs m)).
    + unfold stationConfigs, JsMap.keys. rewrite <- list_fmap_compose. done.
    + rewrite Hcfg. reflexivity.
  - intros sid. unfold Manager.getStation. rewrite getStation_configs, Hcfg.
    unfold DishSystemOps.getCookingStation.
    set (cfgs := stationConfigs (cookingStationManager (GameOps.create t0))).
    vm_compute in cfgs. subst cfgs.
    set (tbl := cookingStations DishSystemOps.create).
    vm_compute in tbl. subst tbl.
    cbn [JsMap.get].
    repeat (case_decide; [subst; reflexivity |]). reflexivity.
Qed.

End ManagerStepFacts.

(** ** Jobs stay on their station *)

Section JobFacts.
Implicit Types (st : CookingStation) (m : CookingStationManager) (g : Game).

Lemma jobKept_refl item : jobKept item item.
Proof. by repeat split. Qed.

Lemma jobKept_trans i1 i2 i3 : jobKept i1 i2 → jobKept i2 i3 → jobKept i1 i3.
Proof.
  intros (? & ? & ? & ? & ? & H12) (? & ? & ? & ? & ? & H23).
  repeat split; try congruence. intros. by apply H23, H12.
Qed.

Lemma stationKeeps_refl st : stationKeeps st st.
Proof. intros slot item Hget. exists item. split; [done | apply jobKept_refl]. Qed.

Lemma stationsKeep_refl m : stationsKeep m m.
Proof. intros sid st Hget. exists st. split; [done | apply stationKeeps_refl]. Qed.

Lemma stationsKeep_trans m1 m2 m3 :
  stationsKeep m1 m2 → stationsKeep m2 m3 → stationsKeep m1 m3.
Proof.
  intros H12 H23 sid st1 Hget.
  destruct (H12 _ _ Hget) as (st2 & Hget2 & Hk12).
  destruct (H23 _ _ Hget2) as (st3 & Hget3 & Hk23).
  exists st3. split; [done |]. intros slot item Hitem.
  destruct (Hk12 _ _ Hitem) as (item2 & Hitem2 & Hj12).
  destruct (Hk23 _ _ Hitem2) as (item3 & Hitem3 & Hj23).
  exists item3. split; [done |]. by apply (jobKept_trans _ item2).
Qed.

Lemma stationsKeep_set m sid st st' a c :
  JsMap.get sid (stations m) = Some st → stationKeeps st st' →
  stationsKeep m (mkManager (JsMap.set sid st' (stations m)) a c).
Proof.
  intros Hget Hkeep key st0 Hkey. cbn [stations].
  destruct (decide (sid = key)) as [->|Hne].
  - rewrite jsmap_get_set_eq. exists st'. split; [done |].
    rewrite Hget in Hkey. by injection Hkey as <-.
  - rewrite jsmap_get_set_ne by done. exists st0.
    split; [done | apply stationKeeps_refl].
Qed.

Lemma stationsKeep_onStation m key (f : CookingStation → CookingStation) a c :
  (∀ st, stationKeeps st (f st)) →
  stationsKeep m (mkManager (Manager.onStation key f (stations m)) a c).
Proof.
  intros Hf. unfold Manager.onStation.
  destruct (JsMap.get key (stations m)) as [st|] eqn:Hget.
  - by apply (stationsKeep_set _ _ st).
  - intros sid st Hsid. exists st. split; [done | apply stationKeeps_refl].
Qed.

Lemma stationKeeps_withActive st b : stationKeeps st (Station.withActive st b).
Proof. exact (stationKeeps_refl st). Qed.

Lemma stationKeeps_cookingTimer st slotIndex :
  stationKeeps st (Station.cookingTimer slotIndex st).
Proof.
  unfold Station.cookingTimer.
  destruct (JsMap.get slotIndex (st_currentItems st)) as [cooking|] eqn:Hget;
    [| apply stationKeeps_refl].
  intros slot item Hitem. cbn [st_currentItems Station.withItems].
  destruct (decide (slotIndex = slot)) as [->|Hne].
  - rewrite jsmap_get_set_eq. eexists. split; [done |].
    rewrite Hget in Hitem. injection Hitem as <-. by repeat split.
  - rewrite jsmap_get_set_ne by done. exists item.
    split; [done | apply jobKept_refl].
Qed.

Lemma stationKeeps_addItem now slotIndex name action ingredient cookingTime st :
  JsMap.has slotIndex (st_currentItems st) = false →
  stationKeeps st
    (snd (Station.addItem now slotIndex name action ingredient cookingTime st)).
Proof.
  intros Hfree. unfold Station.addItem.
  destruct (Nat.leb _ _); [apply stationKeeps_refl |].
  intros slot item Hitem. cbn [snd st_currentItems Station.withItems].
  assert (slotIndex ≠ slot) as Hne.
  { intros ->. unfold JsMap.has in Hfree. by rewrite Hitem in Hfree. }
  rewrite jsmap_get_set_ne by done. exists item.
  split; [done | apply jobKept_refl].
Qed.

Lemma stationsKeep_same m m' : stations m' = stations m → stationsKeep m m'.
Proof.
  intros Heq sid st Hget. exists st. rewrite Heq.
  split; [done | apply stationKeeps_refl].
Qed.

Lemma stationsKeep_managerOp m m' : managerOp false m m' → stationsKeep m m'.
Proof.
  intros Hop. inversion Hop as [r dishId stationId ds m0 | r m0
    | r now action ingredient ds m0 | r sid slot m0 |]; subst.
  - unfold Manager.setActiveDish.
    destruct (DishSystemOps.getDish dishId ds) as [dish|];
      [| by apply stationsKeep_same].
    cbn [stations]. case_match; [| by apply stationsKeep_same].
    cbn [snd activeStation].
    eapply stationsKeep_trans;
      [| apply (stationsKeep_onStation
                  (mkManager _ (activeStation m) (currentDish m)));
         intros; apply stationKeeps_withActive].
    destruct (activeStation m); [| by apply stationsKeep_same].
    apply stationsKeep_onStation. intros. apply stationKeeps_withActive.
  - unfold Manager.clearCurrentDish.
    destruct (activeStation m); [| by apply stationsKeep_same].
    apply stationsKeep_onStation. intros. apply stationKeeps_withActive.
  - unfold Manager.handleCookingAction.
    destruct (activeStation m) as [a|]; [| by apply stationsKeep_same].
    destruct (currentDish m) as [dishId|]; [| by apply stationsKeep_same].
    destruct (negb (truthy dishId)); [by apply stationsKeep_same |].
    destruct (JsMap.get a (stations m)) as [station|] eqn:Hst;
      [| by apply stationsKeep_same].
    destruct (DishSystemOps.getDish dishId ds) as [dish|];
      [| by apply stationsKeep_same].
    destruct (negb _); [by apply stationsKeep_same |].
    destruct (Nat.ltb _ _); [| by apply stationsKeep_same].
    destruct (Station.getNextAvailableSlot station) as [slotIndex|] eqn:Hslot;
      [| by apply stationsKeep_same].
    apply getNextAvailableSlot_Some in Hslot as (_ & Hfree & _).
    destruct (Station.addItem _ _ _ _ _ _ _) as [ok station'] eqn:E. name_snd.
    cbn [snd]. apply (stationsKeep_set _ _ station); [done |].
    by apply stationKeeps_addItem.
  - apply stationsKeep_onStation. intros st. apply stationKeeps_cookingTimer.
Qed.

Lemma stationsKeep_step g (c : Command) :
  isRetrieve c = false →
  stationsKeep (cookingStationManager g) (cookingStationManager (step g c)).
Proof.
  intros Hc. pose proof (step_managerOps g c) as Hops. rewrite Hc in Hops.
  induction Hops as [|m1 m2 m3 _ IH Hop]; [apply stationsKeep_refl |].
  eapply stationsKeep_trans; [exact IH |]. by apply stationsKeep_managerOp.
Qed.

(** X15.  A job stays in its slot until cooked items are retrieved: under
    any commands other than a retrieval the slot keeps holding the same job,
    with the same ingredient, action, name, start and cooking time, and a job
    that was ready stays ready. *)
Theorem jobs_stay_until_retrieved
  (g : Game) (cs : list Command) (sid : string) (st : CookingStation)
  (slot : nat) (item : CookingItem) :
  Forall (λ c, isRetrieve c = false) cs →
  JsMap.get sid (stations (cookingStationManager g)) = Some st →
  JsMap.get slot (st_currentItems st) = Some item →
  ∃ st' item',
    JsMap.get sid (stations (cookingStationManager (run g cs))) = Some st'
    ∧ JsMap.get slot (st_currentItems st') = Some item'
    ∧ jobKept item item'.
Proof.
  intros Hcs Hst Hitem.
  assert (stationsKeep (cookingStationManager g)
            (cookingStationManager (run g cs))) as Hkeep.
  { induction cs as [|c cs IH] using rev_ind; [apply stationsKeep_refl |].
    apply Forall_app in Hcs as [Hcs Hc].
    apply (proj1 (Forall_singleton _ _)) in Hc.
    rewrite run_snoc. eapply stationsKeep_trans; [by apply IH |].
    apply stationsKeep_step. exact Hc. }
  destruct (Hkeep _ _ Hst) as (st' & Hst' & Hk).
  destruct (Hk _ _ Hitem) as (item' & Hitem' & Hj).
  by exists st', item'.
Qed.

(** The chicken on the grill, four seconds and one timer later. *)
Lemma jobs_stay_until_retrieved_witness :
  ∃ st item,
    Forall (λ c, isRetrieve c = false) [Elapse 4000; CookingTimer "grill" 0]
    ∧ JsMap.get "grill" (stations (cookingStationManager chickenOnGrill))
      = Some st
    ∧ JsMap.get 0 (st_currentItems st) = Some item
    ∧ ∃ st' item',
        JsMap.get "grill"
          (stations (cookingStationManager
                       (run chickenOnGrill
                          [Elapse 4000; CookingTimer "grill" 0])))
        = Some st'
        ∧ JsMap.get 0 (st_currentItems st') = Some item'
        ∧ jobKept item item'.
Proof.
  eexists _, _.
  split; [by repeat constructor |]. split; [reflexivity |].
  split; [reflexivity |].
  eapply (jobs_stay_until_retrieved chickenOnGrill
            [Elapse 4000; CookingTimer "grill" 0] "grill" _ 0);
    [by repeat constructor | reflexivity | reflexivity].
Defined.

End JobFacts.

(** ** Selecting an open order in the game *)

Section SelectGameFacts.
Import DishSystemOps.
Implicit Types (g : Game) (ds : DishSystem).

(** The catalog files each dish under its id and prepares it at the prep
    station. *)
Lemma catalog_dishes_filed :
  Forall (λ kd, kd.1 = dish_id kd.2 ∧ dish_station kd.2 = "prep"
                ∧ getDish (dish_id kd.2) DishSystemOps.create = Some kd.2)
    (dishes DishSystemOps.create).
Proof.
  set (l := dishes DishSystemOps.create). vm_compute in l. subst l.
  repeat (apply Forall_cons; split; [by repeat split |]).
  apply Forall_nil_2.
Qed.

Lemma picked_dish_known ds (pick : nat) (d : Dish) :
  sameCatalog ds DishSystemOps.create → getAllDishes ds !! pick = Some d →
  is_Some (getDish (dish_id d) DishSystemOps.create).
Proof.
  intros (Hr & _) Hpick.
  assert (getAllDishes DishSystemOps.create !! pick = Some (recipeOf d))
    as Hpick0.
  { assert (recipes DishSystemOps.create = dishes DishSystemOps.create) as H0
      by reflexivity.
    unfold getAllDishes at 1. rewrite <- H0, <- Hr.
    fold (JsMap.values (recipes ds)). rewrite <- getAllDishes_recipes.
    by rewrite list_lookup_fmap, Hpick. }
  unfold getAllDishes, JsMap.values in Hpick0.
  rewrite list_lookup_fmap in Hpick0.
  destruct (dishes DishSystemOps.create !! pick) as [[k d0]|] eqn:Hk; [| done].
  cbn in Hpick0. injection Hpick0 as ->.
  pose proof catalog_dishes_filed as Hall. rewrite Forall_forall in Hall.
  destruct (Hall (k, recipeOf d)) as (_ & _ & Hget).
  { apply list_elem_of_lookup. by exists pick. }
  cbn in Hget. by eexists.
Qed.

Lemma demote_Forall (P : string * Order → Prop)
  (act : list (string * Order)) :
  (∀ k o, P (k, o) → P (k, Orders.withActive o false)) →
  Forall P act → Forall P (Orders.demoteFirstActive act).
Proof.
  intros Hflag. induction 1 as [|[k o] act Ho Hact IH]; cbn; [done |].
  destruct (order_isActive o); apply Forall_cons; split; auto.
Qed.

Lemma ordersKnown_step g (c : Command) : ordersKnown g → ordersKnown (step g c).
Proof.
  intros [Hcat Hall]. split.
  { eapply sameCatalog_trans; [apply sameCatalog_step | done]. }
  pose proof (step_orderStep g c) as Hstep.
  assert (∀ now newId pick jitter os,
            Forall (λ kv, kv.1 = order_id kv.2
                          ∧ is_Some (getDish (order_dishId kv.2)
                                       DishSystemOps.create))
              (activeOrders os) →
            Forall (λ kv, kv.1 = order_id kv.2
                          ∧ is_Some (getDish (order_dishId kv.2)
                                       DishSystemOps.create))
              (activeOrders
                 (snd (Orders.spawnOrder now newId pick jitter (dishSystem g)
                         os)))) as Hspawn.
  { intros now newId pick jitter os Hos. unfold Orders.spawnOrder.
    destruct (Nat.leb _ _); [done |].
    destruct (getAllDishes (dishSystem g) !! pick) as [d|] eqn:Hpick;
      [| done].
    cbn [snd activeOrders Orders.withOrders].
    apply jsmap_Forall_set; [done |]. split; [done |].
    by apply (picked_dish_known (dishSystem g) pick). }
  destruct Hstep as [| b | newId pick jitter | newId pick jitter Hrun | | orderId
                     | o Hact Hvalid | orderId order Hget Hrem |].
  - done.
  - done.
  - by apply Hspawn.
  - by apply Hspawn.
  - apply Forall_nil_2.
  - unfold Orders.selectOrder.
    destruct (JsMap.get orderId (activeOrders (orderSystem g))) as [order|]
      eqn:Hget; [| done].
    cbn [snd activeOrders Orders.withOrders].
    apply jsmap_Forall_set; [by apply demote_Forall |].
    exact (jsmap_Forall_get _ _ _ _ Hall Hget).
  - unfold Orders.completeOrder.
    destruct (JsMap.get _ _); [| done]. destruct (Orders.rate _ _ _).
    cbn [snd activeOrders]. by apply jsmap_Forall_delete.
  - unfold Orders.expireOrder. rewrite Hget. cbn [snd activeOrders].
    by apply jsmap_Forall_delete.
  - cbn [activeOrders Orders.withOrders]. by apply demote_Forall.
Qed.

Lemma ordersKnown_run (t0 : Z) (cs : list Command) :
  ordersKnown (run (GameOps.create t0) cs).
Proof.
  apply (run_invariant ordersKnown).
  - split; [apply sameCatalog_refl | apply Forall_nil_2].
  - apply ordersKnown_step.
Qed.

Lemma get_onStation (k key : string) (f : CookingStation → CookingStation)
  (sts : list (string * CookingStation)) :
  JsMap.get k (Manager.onStation key f sts)
  = (if decide (key = k) then f else id) <$> JsMap.get k sts.
Proof.
  unfold Manager.onStation.
  destruct (JsMap.get key sts) as [st|] eqn:Hget.
  - destruct (decide (key = k)) as [->|Hne].
    + by rewrite jsmap_get_set_eq, Hget.
    + rewrite jsmap_get_set_ne by done. by destruct (JsMap.get k sts).
  - destruct (decide (key = k)) as [->|Hne].
    + by rewrite Hget.
    + by destruct (JsMap.get k sts).
Qed.

(** X16.  Selecting an open order of a reachable game always succeeds: the
    order becomes the active one, the prep station becomes the active,
    highlighted station with the order's dish as current dish, and the
    progress of every dish is left as it was. *)
Theorem selectOrder_activates_prep
  (t0 : Z) (cs : list Command) (orderId : string) (order : Order) :
  let g := run (GameOps.create t0) cs in
  JsMap.get orderId (activeOrders (orderSystem g)) = Some order →
  ∃ g',
    GameOps.selectOrder orderId g = (true, g')
    ∧ dishSystem g' = dishSystem g
    ∧ Orders.getActiveOrder (orderSystem g')
      = Some (Orders.withActive order true)
    ∧ activeStation (cookingStationManager g') = Some "prep"
    ∧ currentDish (cookingStationManager g') = Some (order_dishId order)
    ∧ (st_isActive
         <$> Manager.getStation "prep" (cookingStationManager g'))
      = Some true.
Proof.
  intros g Hget.
  assert (reachable g) as Hreach by (by exists t0, cs).
  destruct (ordersOk_reachable g Hreach) as (_ & _ & _ & Hcount).
  destruct (ordersKnown_run t0 cs) as [(Hr & _) Hall]. fold g in Hr, Hall.
  destruct (jsmap_Forall_get _ _ _ _ Hall Hget) as [_ [d0 Hd0]].
  cbn [snd] in Hd0.
  (* the dish of the order, in the game's dish system *)
  pose proof (getDish_recipes (order_dishId order) (dishSystem g)) as Hdish.
  assert (JsMap.get (order_dishId order) (recipes (dishSystem g)) = Some d0)
    as Hrec by (rewrite Hr; exact Hd0).
  rewrite Hrec in Hdish. clear Hrec.
  destruct (getDish (order_dishId order) (dishSystem g)) as [dish|] eqn:Hdg;
    [| done].
  cbn in Hdish. injection Hdish as Hdish.
  assert (dish_station dish = "prep") as Hprep.
  { pose proof catalog_dishes_filed as Hfiled.
    destruct (jsmap_Forall_get _ _ _ _ Hfiled Hd0) as (_ & Hs & _).
    cbn in Hs. by rewrite <- Hdish in Hs. }
  (* the prep station *)
  pose proof (getStation_configs "prep" (cookingStationManager g)) as Hst.
  unfold g in Hst at 2. rewrite stationConfigs_run in Hst. fold g in Hst.
  destruct (JsMap.get "prep" (stations (cookingStationManager g)))
    as [prep|] eqn:Hprepst; [| by vm_compute in Hst].
  clear Hst.
  unfold GameOps.selectOrder, Orders.selectOrder. rewrite Hget.
  unfold Manager.setActiveDish.
  cbn [order_dishId Orders.withActive]. rewrite Hdg, Hprep.
  cbn [stations]. rewrite Hprepst. eexists. split; [reflexivity |].
  cbn [dishSystem orderSystem cookingStationManager activeStation currentDish
       stations snd activeOrders Orders.withOrders].
  split; [done |]. split.
  { apply find_active_set; [| done]. rewrite activeCount_demote. lia. }
  split; [done |]. split; [done |].
  unfold Manager.getStation. cbn [stations]. rewrite get_onStation.
  rewrite decide_True by done.
  destruct (activeStation (cookingStationManager g)) as [prev|].
  - rewrite get_onStation, Hprepst. by destruct (decide (prev = "prep")).
  - by rewrite Hprepst.
Qed.

(** The first order of a game, selected. *)
Lemma selectOrder_activates_prep_witness :
  ∃ order,
    JsMap.get "order_1"
      (activeOrders
         (orderSystem (run (GameOps.create 0) [StartGame "order_1" 0 10])))
    = Some order
    ∧ ∃ g',
        GameOps.selectOrder "order_1"
          (run (GameOps.create 0) [StartGame "order_1" 0 10]) = (true, g')
        ∧ dishSystem g'
          = dishSystem (run (GameOps.create 0) [StartGame "order_1" 0 10])
        ∧ Orders.getActiveOrder (orderSystem g')
          = Some (Orders.withActive order true)
        ∧ activeStation (cookingStationManager g') = Some "prep"
        ∧ currentDish (cookingStationManager g') = Some (order_dishId order)
        ∧ (st_isActive
             <$> Manager.getStation "prep" (cookingStationManager g'))
          = Some true.
Proof.
  eexists. split; [reflexivity |].
  apply (selectOrder_activates_prep 0 [StartGame "order_1" 0 10] "order_1").
  reflexivity.
Defined.

End SelectGameFacts.

(** ** Serving and cancelling the selected order *)

Section ServeFacts.
Import DishSystemOps.
Implicit Types (g : Game) (act : list (string * Order)).

(** An open order of a game is filed under its own id, and its dish is in
    the game's dish system. *)
Lemma open_order_filed (t0 : Z) (cs : list Command) (k : string) (o : Order) :
  JsMap.get k (activeOrders (orderSystem (run (GameOps.create t0) cs)))
  = Some o →
  k = order_id o
  ∧ is_Some (getDish (order_dishId o)
               (dishSystem (run (GameOps.create t0) cs))).
Proof.
  intros Hget.
  destruct (ordersKnown_run t0 cs) as [(Hr & _) Hall].
  destruct (jsmap_Forall_get _ _ _ _ Hall Hget) as [Hk [d0 Hd0]].
  cbn [fst snd] in Hk, Hd0. split; [done |].
  pose proof (getDish_recipes (order_dishId o)
                (dishSystem (run (GameOps.create t0) cs))) as Hdish.
  rewrite Hr in Hdish.
  assert (JsMap.get (order_dishId o) (recipes DishSystemOps.create) = Some d0)
    as Hrec by exact Hd0.
  rewrite Hrec in Hdish.
  by destruct (getDish (order_dishId o)
                 (dishSystem (run (GameOps.create t0) cs))).
Qed.

Lemma find_active_none act :
  activeCount act = 0 →
  List.find (λ order, order_isActive order) (JsMap.values act) = None.
Proof.
  unfold activeCount, JsMap.values.
  induction act as [|[k o] act IH]; csimpl; [done |].
  destruct (order_isActive o); [done | exact IH].
Qed.

(** The order [getActiveOrder] finds, among orders filed under their ids. *)
Lemma active_order_facts act (a : Order) :
  Forall (λ kv, kv.1 = order_id kv.2) act → NoDup (JsMap.keys act) →
  List.find (λ order, order_isActive order) (JsMap.values act) = Some a →
  order_isActive a = true
  ∧ JsMap.get (order_id a) act = Some a
  ∧ JsMap.get (order_id a) (Orders.demoteFirstActive act)
    = Some (Orders.withActive a false)
  ∧ (∀ k, k ≠ order_id a →
          JsMap.get k (Orders.demoteFirstActive act) = JsMap.get k act)
  ∧ activeCount (JsMap.delete (order_id a) act) = pred (activeCount act).
Proof.
  unfold activeCount, JsMap.values, JsMap.keys.
  induction act as [|[k o] act IH]; csimpl; [done |].
  intros [Hk Hfiled]%Forall_cons [Hnotin Hnd]%NoDup_cons. cbn in Hk.
  destruct (order_isActive o) eqn:Hact.
  - intros [= <-]. subst k. cbn. rewrite !decide_True by done.
    repeat split; try done.
    intros k' Hne. by rewrite !decide_False by done.
  - intros Hfind. destruct (IH Hfiled Hnd Hfind) as (Ha & Hget & Hdem & Hrest
                                                     & Hcount).
    assert (order_id a ≠ k) as Hne.
    { intros Heq. apply Hnotin. rewrite <- Heq.
      apply jsmap_get_Some_elem in Hget.
      by apply (list_elem_of_fmap_2 fst) in Hget. }
    rewrite !decide_False by done. cbn. rewrite Hact, ?decide_False by done.
    repeat split; try done.
    intros k' Hne'. destruct (decide (k' = k)); [done | by apply Hrest].
Qed.

(** X17.  Serving in a reachable game succeeds exactly when an order is
    selected and its dish is valid.  A failed attempt changes nothing.  A
    successful one closes the selected order and no other: the order leaves
    the open orders and goes last into the record with a rating other than
    failed, its points are added to the score, no order is selected any more,
    and the station manager has no active station and no current dish. *)
Theorem serveDish_outcome (t0 : Z) (cs : list Command) :
  let g := run (GameOps.create t0) cs in
  let os := orderSystem g in
  match Orders.getActiveOrder os with
  | None => GameOps.serveDish g = (false, g)
  | Some a =>
      if isDishValid (order_dishId a) (dishSystem g) then
        ∃ g' rating,
          GameOps.serveDish g = (true, g')
          ∧ rating = fst (Orders.rate (clock g) true a)
          ∧ rating ≠ failed
          ∧ JsMap.get (order_id a) (activeOrders (orderSystem g')) = None
          ∧ (∀ k, k ≠ order_id a →
                  JsMap.get k (activeOrders (orderSystem g'))
                  = JsMap.get k (activeOrders os))
          ∧ completedOrders (orderSystem g')
            = completedOrders os ++ [Orders.complete rating a]
          ∧ totalScore (orderSystem g')
            = (totalScore os + scoreOf (Some rating))%Z
          ∧ Orders.getActiveOrder (orderSystem g') = None
          ∧ activeStation (cookingStationManager g') = None
          ∧ currentDish (cookingStationManager g') = None
      else GameOps.serveDish g = (false, g)
  end.
Proof.
  intros g os. unfold GameOps.serveDish. fold os.
  destruct (Orders.getActiveOrder os) as [a|] eqn:Hactive; [| done].
  assert (reachable g) as Hreach by (by exists t0, cs).
  destruct (ordersOk_reachable g Hreach) as (Hnd & _ & _ & Hcount).
  fold os in Hnd, Hcount.
  destruct (ordersKnown_run t0 cs) as [_ Hall]. fold g os in Hall.
  destruct (active_order_facts (activeOrders os) a) as (_ & Hget & _ & _ & Hdel).
  { eapply Forall_impl; [exact Hall |]. by intros [k o] [Hk _]. }
  { done. }
  { done. }
  destruct (open_order_filed t0 cs _ _ Hget) as [_ [dish Hdish]].
  fold g in Hdish. rewrite Hdish.
  destruct (isDishValid (order_dishId a) (dishSystem g)); [| done].
  cbn [negb]. unfold Orders.completeOrder. fold os. rewrite Hget.
  pose proof (rate_scoreOf (clock g) true a) as [Hscore Hrating].
  destruct (Orders.rate (clock g) true a) as [rating score].
  cbn [fst snd] in Hscore, Hrating. subst score.
  unfold resetDish. rewrite Hdish.
  eexists _, rating. split; [reflexivity |].
  cbn [orderSystem cookingStationManager activeOrders completedOrders
       totalScore activeStation currentDish Manager.clearCurrentDish].
  split; [done |]. split; [done |].
  split; [by apply jsmap_get_delete_eq |].
  split; [intros k Hne; by apply jsmap_get_delete_ne |].
  split; [done |]. split; [done |]. split; [| done].
  unfold Orders.getActiveOrder. cbn [activeOrders].
  apply find_active_none. lia.
Qed.

(** X18.  Cancelling in a reachable game does nothing when no order is
    selected.  Otherwise the selected order stays open with its data, only
    its flag cleared; the other open orders, the record and the score are
    as before; no order is selected any more, and the station manager has no
    active station and no current dish. *)
Theorem cancelCurrentDish_outcome (t0 : Z) (cs : list Command) :
  let g := run (GameOps.create t0) cs in
  let os := orderSystem g in
  let g' := GameOps.cancelCurrentDish g in
  match Orders.getActiveOrder os with
  | None => g' = g
  | Some a =>
      JsMap.get (order_id a) (activeOrders (orderSystem g'))
      = Some (Orders.withActive a false)
      ∧ (∀ k, k ≠ order_id a →
              JsMap.get k (activeOrders (orderSystem g'))
              = JsMap.get k (activeOrders os))
      ∧ JsMap.keys (activeOrders (orderSystem g'))
        = JsMap.keys (activeOrders os)
      ∧ completedOrders (orderSystem g') = completedOrders os
      ∧ totalScore (orderSystem g') = totalScore os
      ∧ Orders.getActiveOrder (orderSystem g') = None
      ∧ activeStation (cookingStationManager g') = None
      ∧ currentDish (cookingStationManager g') = None
      ∧ clock g' = clock g
  end.
Proof.
  intros g os g'. unfold g', GameOps.cancelCurrentDish. fold os.
  destruct (Orders.getActiveOrder os) as [a|] eqn:Hactive; [| done].
  assert (reachable g) as Hreach by (by exists t0, cs).
  destruct (ordersOk_reachable g Hreach) as (Hnd & _ & _ & Hcount).
  fold os in Hnd, Hcount.
  destruct (ordersKnown_run t0 cs) as [_ Hall]. fold g os in Hall.
  destruct (active_order_facts (activeOrders os) a)
    as (_ & _ & Hdem & Hrest & _).
  { eapply Forall_impl; [exact Hall |]. by intros [k o] [Hk _]. }
  { done. }
  { done. }
  destruct (resetDish (order_dishId a) (dishSystem g)) as [b ds].
  cbn [orderSystem cookingStationManager activeOrders completedOrders
       totalScore activeStation currentDish Manager.clearCurrentDish clock
       Orders.withOrders].
  split; [done |]. split; [done |]. split; [apply keys_demote |].
  split; [done |]. split; [done |]. split; [| done].
  apply find_active_none. cbn -[activeCount Orders.demoteFirstActive].
  rewrite activeCount_demote. lia.
Qed.

End ServeFacts.

(** ** Resetting the game *)

Section ResetFacts.
Import DishSystemOps.
Implicit Types (g : Game) (ds : DishSystem).

(** The running flags of the game and of its order system agree. *)
Lemma running_step g (c : Command) :
  os_isRunning (orderSystem g) = isRunning g →
  os_isRunning (orderSystem (step g c)) = isRunning (step g c).
Proof.
  intros Hsync.
  assert (os_isRunning (orderSystem (GameOps.pauseGame g))
          = isRunning (GameOps.pauseGame g)) as Hpause.
  { unfold GameOps.pauseGame. destruct (isRunning g) eqn:E; cbn; congruence. }
  destruct c; cbn [step]; try done.
  - unfold GameOps.startGame. destruct (isRunning g) eqn:Hrun; [congruence |].
    pose proof (spawnOrder_frame (clock g) newId pick jitter (dishSystem g)
                  (Orders.withRunning (orderSystem g) true))
      as (_ & _ & _ & _ & _ & Hr).
    by destruct (Orders.spawnOrder _ _ _ _ _ _).
  - unfold GameOps.spawnTimer. case_match; [| done].
    pose proof (spawnOrder_frame (clock g) newId pick jitter (dishSystem g)
                  (orderSystem g)) as (_ & _ & _ & _ & _ & Hr).
    cbn [GameOps.withOrderSystem orderSystem isRunning]. congruence.
  - unfold GameOps.orderTimer. repeat case_match; try done.
    unfold Orders.expireOrder. by case_match.
  - pose proof (selectOrder_frame orderId (orderSystem g))
      as (_ & _ & _ & _ & _ & Hr).
    cbn [GameOps.clickOrder GameOps.withOrderSystem orderSystem isRunning].
    congruence.
  - unfold GameOps.selectOrder.
    pose proof (selectOrder_frame orderId (orderSystem g))
      as (_ & _ & _ & _ & _ & Hr).
    destruct (Orders.selectOrder orderId (orderSystem g)) as [[o|] os'];
      [| done].
    destruct (Manager.setActiveDish _ _ _ _). cbn in *. congruence.
  - unfold GameOps.addIngredient. by destruct (addIngredientToDish _ _ _).
  - unfold GameOps.useTool. repeat case_match; done.
  - unfold GameOps.serveDish. repeat case_match; try done.
    unfold Orders.completeOrder in *. repeat case_match; simplify_eq; done.
  - unfold GameOps.cancelCurrentDish. repeat case_match; done.
  - unfold GameOps.retrieveCookedItems. repeat case_match; done.
Qed.

Lemma running_run (t0 : Z) (cs : list Command) :
  os_isRunning (orderSystem (run (GameOps.create t0) cs))
  = isRunning (run (GameOps.create t0) cs).
Proof.
  apply (run_invariant (λ g, os_isRunning (orderSystem g) = isRunning g));
    [done | apply running_step].
Qed.

Lemma recipeOf_idemp (d : Dish) : recipeOf (recipeOf d) = recipeOf d.
Proof. done. Qed.

(** Replacing the value found under a key, among distinct keys. *)
Lemma jsmap_set_get_fmap {V : Type} (f : V → V) (k : string)
  (m : list (string * V)) :
  NoDup (JsMap.keys m) →
  match JsMap.get k m with Some v => JsMap.set k (f v) m | None => m end
  = (λ kv, (kv.1, if decide (kv.1 = k) then f kv.2 else kv.2)) <$> m.
Proof.
  unfold JsMap.keys. induction m as [|[k' v'] m IH]; csimpl; [done |].
  intros [Hnotin Hnd]%NoDup_cons.
  destruct (decide (k = k')) as [->|Hne].
  - rewrite decide_True by done. f_equal.
    clear IH Hnd. induction m as [|[k0 v0] m IH]; csimpl; [done |].
    apply not_elem_of_cons in Hnotin as [Hne Hnotin]. cbn in Hne.
    rewrite decide_False by done. f_equal. by apply IH.
  - rewrite decide_False by done. rewrite <- (IH Hnd).
    by destruct (JsMap.get k m).
Qed.

Lemma keys_fmap_values {V : Type} (h : string * V → V)
  (m : list (string * V)) :
  JsMap.keys ((λ kv, (kv.1, h kv)) <$> m) = JsMap.keys m.
Proof.
  unfold JsMap.keys. induction m as [|[k v] m IH]; csimpl; [done |].
  by rewrite IH.
Qed.

Lemma resetDish_dishes (dishId : string) ds :
  NoDup (JsMap.keys (dishes ds)) →
  dishes (snd (resetDish dishId ds))
  = (λ kd, (kd.1, if decide (kd.1 = dishId) then recipeOf kd.2 else kd.2))
      <$> dishes ds.
Proof.
  intros Hnd. rewrite <- (jsmap_set_get_fmap recipeOf dishId _ Hnd).
  unfold resetDish, getDish. by destruct (JsMap.get dishId (dishes ds)).
Qed.

Lemma resetAll_dishes (l : list Dish) ds :
  NoDup (JsMap.keys (dishes ds)) →
  dishes (fold_left (λ acc dish, snd (resetDish (dish_id dish) acc)) l ds)
  = (λ kd, (kd.1, if bool_decide (kd.1 ∈ dish_id <$> l)
                  then recipeOf kd.2 else kd.2))
      <$> dishes ds.
Proof.
  revert ds. induction l as [|d l IH]; intros ds Hnd; cbn [fold_left].
  - rewrite <- (list_fmap_id (dishes ds)) at 1.
    apply list_fmap_ext. intros i [k v] _. cbn.
    rewrite bool_decide_eq_false_2; [done | apply not_elem_of_nil].
  - rewrite IH.
    + rewrite resetDish_dishes by done. rewrite <- list_fmap_compose.
      apply list_fmap_ext. intros i [k v] _. cbn.
      destruct (decide (k = dish_id d)) as [->|Hne].
      * rewrite (bool_decide_eq_true_2 (dish_id d ∈ dish_id d :: _));
          [| left]. by case_bool_decide.
      * case_bool_decide as Hin.
        -- rewrite bool_decide_eq_true_2; [done | by right].
        -- rewrite bool_decide_eq_false_2; [done |].
           by intros [?|?]%elem_of_cons.
    + rewrite resetDish_dishes by done. by rewrite keys_fmap_values.
Qed.

Lemma dishes_filed ds :
  sameCatalog ds DishSystemOps.create →
  NoDup (JsMap.keys (dishes ds))
  ∧ Forall (λ kd, kd.1 = dish_id kd.2) (dishes ds).
Proof.
  intros (Hr & _).
  assert (NoDup (JsMap.keys (recipes DishSystemOps.create))
          ∧ Forall (λ kd, kd.1 = dish_id kd.2) (recipes DishSystemOps.create))
    as Hcat.
  { set (l := recipes DishSystemOps.create). vm_compute in l. subst l.
    split; [apply (bool_decide_unpack _); vm_compute; exact I |].
    by repeat constructor. }
  rewrite <- Hr in Hcat. unfold recipes in Hcat.
  rewrite (keys_fmap_values (λ kd, recipeOf kd.2)), Forall_fmap in Hcat.
  destruct Hcat as [Hnd Hfiled]. split; [done |].
  eapply Forall_impl; [exact Hfiled |]. by intros [k d].
Qed.

Lemma dishSystem_eta ds :
  ds = mkDishSystem (dishes ds) (ingredients ds) (tools ds)
         (cookingStations ds).
Proof. by destruct ds. Qed.

(** X19.  Resetting a reachable game puts the dish system and the order
    system back exactly as a new game has them (every dish without progress,
    no orders, no record, score and counters at zero) and leaves the game
    paused with no active station and no current dish.  The jobs on the
    stations are not touched: every station holds the items it held. *)
Theorem resetGame_outcome (t0 : Z) (cs : list Command) :
  let g := run (GameOps.create t0) cs in
  let g' := GameOps.resetGame g in
  dishSystem g' = DishSystemOps.create
  ∧ orderSystem g' = Orders.create
  ∧ isRunning g' = false
  ∧ activeStation (cookingStationManager g') = None
  ∧ currentDish (cookingStationManager g') = None
  ∧ (∀ sid,
       st_currentItems <$> Manager.getStation sid (cookingStationManager g')
       = st_currentItems <$> Manager.getStation sid (cookingStationManager g))
  ∧ clock g' = clock g.
Proof.
  intros g g'. unfold g', GameOps.resetGame.
  cbn [dishSystem orderSystem isRunning cookingStationManager clock].
  rewrite dishSystem_pauseGame, manager_pauseGame.
  pose proof (sameCatalog_run (GameOps.create t0) cs) as Hcat. fold g in Hcat.
  change (dishSystem (GameOps.create t0)) with DishSystemOps.create in Hcat.
  destruct (dishes_filed _ Hcat) as [Hnd Hfiled].
  split; [| split; [| split; [| split; [done | split; [done | split]]]]].
  - pose proof (sameCatalog_resetAll (getAllDishes (dishSystem g))
                  (dishSystem g)) as Hsame.
    pose proof (resetAll_dishes (getAllDishes (dishSystem g)) (dishSystem g)
                  Hnd) as Hdishes.
    set (ds' := fold_left _ _ _) in *.
    assert (sameCatalog ds' DishSystemOps.create) as (Hr & Hi & Ht & Hc)
      by (by eapply sameCatalog_trans).
    rewrite (dishSystem_eta ds'), (dishSystem_eta DishSystemOps.create).
    rewrite Hi, Ht, Hc. f_equal.
    rewrite Hdishes. destruct Hcat as (Hr0 & _).
    change (dishes DishSystemOps.create)
      with (recipes DishSystemOps.create).
    rewrite <- Hr0. unfold recipes. apply list_fmap_ext.
    intros i [k d] Hi'. cbn. rewrite bool_decide_eq_true_2; [done |].
    assert (k = dish_id d) as ->.
    { apply list_elem_of_lookup_2 in Hi'.
      by apply (proj1 (Forall_forall _ _) Hfiled (k, d)). }
    unfold getAllDishes, JsMap.values. rewrite <- list_fmap_compose.
    apply list_elem_of_lookup_2 in Hi'.
    by apply (list_elem_of_fmap_2 (dish_id ∘ snd)) in Hi'.
  - pose proof (capacityOk_run t0 cs) as [_ Hmax]. fold g in Hmax.
    pose proof (running_run t0 cs) as Hsync. fold g in Hsync.
    unfold Orders.clearAllOrders, Orders.create, GameOps.pauseGame.
    destruct (isRunning g); cbn; [by rewrite Hmax |].
    by rewrite Hmax, Hsync.
  - unfold GameOps.pauseGame. by destruct (isRunning g) eqn:Hrun.
  - intros sid. unfold Manager.getStation, Manager.clearCurrentDish.
    cbn [stations].
    destruct (activeStation (cookingStationManager g)) as [prev|]; [| done].
    rewrite get_onStation.
    destruct (JsMap.get sid (stations (cookingStationManager g))); [| done].
    by destruct (decide (prev = sid)).
  - unfold GameOps.pauseGame. by destruct (isRunning g).
Qed.

End ResetFacts.

(** ** Retrieving the cooked items *)

Section RetrieveFacts.
Import DishSystemOps.
Implicit Types (m : CookingStationManager).

Lemma jsmap_elem_get {K V : Type} `{EqDecision K} (k : K) (v : V)
  (l : list (K * V)) :
  NoDup (JsMap.keys l) → (k, v) ∈ l → JsMap.get k l = Some v.
Proof.
  unfold JsMap.keys. induction l as [|[k' v'] l IH]; csimpl.
  - intros _ H. by apply elem_of_nil in H.
  - intros [Hnotin Hnd]%NoDup_cons [Heq|Hin]%elem_of_cons.
    + injection Heq as -> ->. by rewrite decide_True.
    + rewrite decide_False; [by apply IH |]. intros ->. apply Hnotin.
      by apply (list_elem_of_fmap_2 fst) in Hin.
Qed.

Lemma stationConfigs_managerOps r m m' :
  managerOps r m m' → stationConfigs m' = stationConfigs m.
Proof.
  induction 1 as [|m1 m2 m3 _ IH Hop]; [done |].
  by rewrite (stationConfigs_managerOp _ _ _ Hop).
Qed.

Lemma stationsFiled_configs m (t0 : Z) :
  stationConfigs m = stationConfigs (cookingStationManager (GameOps.create t0))
  → stationsFiled m.
Proof.
  intros Hc.
  assert (NoDup (JsMap.keys (stationConfigs m))
          ∧ Forall (λ ks, ks.1 = st_id ks.2) (stationConfigs m)) as [Hnd Hf].
  { rewrite Hc. set (l := stationConfigs _). vm_compute in l. subst l.
    split; [apply (bool_decide_unpack _); vm_compute; exact I |].
    by repeat constructor. }
  unfold stationConfigs in Hnd, Hf.
  rewrite (keys_fmap_values (λ ks, configOf ks.2)) in Hnd.
  rewrite Forall_fmap in Hf. split; [done |].
  eapply Forall_impl; [exact Hf |]. by intros [k st].
Qed.

(** [getReadyItems] lists exactly the ready jobs, each with its station and
    slot. *)
Lemma getReadyItems_spec m (sid : string) (slot : nat) (item : CookingItem) :
  stationsFiled m → stationsOk m →
  (sid, slot, item) ∈ Manager.getReadyItems m
  ↔ itemAt m sid slot = Some item ∧ ci_isReady item = true.
Proof.
  intros [Hnd Hfiled] Hok.
  unfold Manager.getReadyItems, itemAt, Manager.getStation, JsMap.values.
  rewrite list_elem_of_In, in_concat. split.
  - intros (l & Hl & Hin). apply in_map_iff in Hl as (st & <- & Hst).
    apply in_map_iff in Hin as ([slot' item'] & Heq & Hf).
    injection Heq as <- <- <-.
    apply filter_In in Hf as [Hitem Hready].
    apply list_elem_of_In, list_elem_of_fmap in Hst as ([k st'] & -> & Hks).
    cbn [snd].
    pose proof (proj1 (Forall_forall _ _) Hfiled _ Hks) as Hk. cbn in Hk.
    pose proof (proj1 (Forall_forall _ _) Hok _ Hks) as [Hslots _].
    cbn in Hslots. subst k.
    rewrite (jsmap_elem_get _ _ _ Hnd Hks). split; [| done].
    apply jsmap_elem_get; [done | by apply list_elem_of_In].
  - intros [Hat Hready].
    destruct (JsMap.get sid (stations m)) as [st|] eqn:Hst; [| done].
    apply jsmap_get_Some_elem in Hst.
    pose proof (proj1 (Forall_forall _ _) Hfiled _ Hst) as Hk. cbn in Hk.
    eexists. split.
    + apply in_map. apply list_elem_of_In.
      by apply (list_elem_of_fmap_2 snd) in Hst.
    + apply in_map_iff. exists (slot, item). split; [by rewrite Hk |].
      apply filter_In. split; [| done].
      by apply list_elem_of_In, jsmap_get_Some_elem.
Qed.

Lemma itemAt_kept_other m (sid0 : string) (slot0 : nat) :
  (∀ item, itemAt m sid0 slot0 = Some item → ci_isReady item = false) →
  ∀ sid slot,
    itemAt m sid slot
    = match itemAt m sid slot with
      | Some item =>
          if ci_isReady item && bool_decide (sid = sid0 ∧ slot = slot0)
          then None else Some item
      | None => None
      end.
Proof.
  intros Hnot sid slot.
  destruct (itemAt m sid slot) as [item|] eqn:Hat; [| done].
  destruct (ci_isReady item) eqn:Hready; [| done]. cbn.
  case_bool_decide as Hd; [| done]. destruct Hd as [-> ->].
  by rewrite (Hnot _ Hat) in Hready.
Qed.

(** [removeCookedItem] takes out the job of the slot it names if that job is
    ready, and touches no other job. *)
Lemma removeCookedItem_itemAt m (sid0 : string) (slot0 : nat) :
  stationsOk m →
  (is_Some (fst (Manager.removeCookedItem sid0 slot0 m))
   ↔ ∃ item, itemAt m sid0 slot0 = Some item ∧ ci_isReady item = true)
  ∧ ∀ sid slot,
      itemAt (snd (Manager.removeCookedItem sid0 slot0 m)) sid slot
      = match itemAt m sid slot with
        | Some item =>
            if ci_isReady item && bool_decide (sid = sid0 ∧ slot = slot0)
            then None else Some item
        | None => None
        end.
Proof.
  intros Hok.
  destruct (itemAt m sid0 slot0) as [item|] eqn:Hat.
  - destruct (ci_isReady item) eqn:Hready.
    + unfold itemAt, Manager.getStation in Hat.
      unfold Manager.removeCookedItem.
      destruct (JsMap.get sid0 (stations m)) as [station|] eqn:Hst; [| done].
      rewrite Hat, Hready. cbn [negb Station.removeItem fst snd]. split.
      { rewrite Hat. split; [by eauto | by eexists]. }
      pose proof (jsmap_Forall_get _ _ _ _ Hok Hst) as [Hslots _].
      cbn in Hslots.
      intros sid slot. unfold itemAt, Manager.getStation. cbn [stations].
      destruct (decide (sid = sid0)) as [->|Hsid].
      * rewrite jsmap_get_set_eq, Hst. cbn [st_currentItems Station.withItems].
        destruct (decide (slot = slot0)) as [->|Hslot].
        -- rewrite jsmap_get_delete_eq by done. rewrite Hat, Hready.
           by rewrite bool_decide_eq_true_2.
        -- rewrite jsmap_get_delete_ne by done.
           destruct (JsMap.get slot _); [| done].
           rewrite bool_decide_eq_false_2; [| by intros [_ ?]].
           by rewrite andb_false_r.
      * rewrite jsmap_get_set_ne by done.
        destruct (JsMap.get sid (stations m)); [| done].
        destruct (JsMap.get slot _); [| done].
        rewrite bool_decide_eq_false_2; [| by intros [? _]].
        by rewrite andb_false_r.
    + assert (Manager.removeCookedItem sid0 slot0 m = (None, m)) as ->.
      { unfold itemAt, Manager.getStation in Hat.
        unfold Manager.removeCookedItem.
        destruct (JsMap.get sid0 (stations m)); [| done].
        by rewrite Hat, Hready. }
      cbn [fst snd]. split.
      * split; [by intros [? ?] |]. intros (item' & [= <-] & ?). congruence.
      * apply itemAt_kept_other. rewrite Hat. by intros ? [= <-].
  - assert (Manager.removeCookedItem sid0 slot0 m = (None, m)) as ->.
    { unfold itemAt, Manager.getStation in Hat.
      unfold Manager.removeCookedItem.
      destruct (JsMap.get sid0 (stations m)); [| done]. by rewrite Hat. }
    cbn [fst snd]. split.
    + split; [by intros [? ?] | by intros (? & ? & ?)].
    + apply itemAt_kept_other. by rewrite Hat.
Qed.

(** The loop of [retrieveCookedItems] over any list of slots. *)
Lemma retrieve_fold (dishId : string)
  (L : list (string * nat * CookingItem)) (n : nat) (ds : DishSystem) m :
  stationsOk m →
  let r := fold_left (GameOps.retrieveOne dishId) L (n, ds, m) in
  n ≤ r.1.1
  ∧ (∀ sid slot item rest,
       L = (sid, slot, item) :: rest →
       (∃ item', itemAt m sid slot = Some item' ∧ ci_isReady item' = true) →
       n < r.1.1)
  ∧ ∀ sid slot,
      itemAt r.2 sid slot
      = match itemAt m sid slot with
        | Some item =>
            if ci_isReady item && bool_decide ((sid, slot) ∈ L.*1)
            then None else Some item
        | None => None
        end.
Proof.
  revert n ds m.
  induction L as [|[[sid0 slot0] item0] L IH]; intros n ds m Hok r.
  - subst r. cbn. split; [lia |]. split; [done |]. intros sid slot.
    destruct (itemAt m sid slot); [| done].
    rewrite bool_decide_eq_false_2 by apply not_elem_of_nil.
    by rewrite andb_false_r.
  - subst r. cbn [fold_left].
    change (GameOps.retrieveOne dishId (n, ds, m) (sid0, slot0, item0))
      with (match Manager.removeCookedItem sid0 slot0 m with
            | (Some _, m') =>
                (S n,
                 if truthy (ci_ingredient item0)
                 then GameOps.markReady dishId (ci_ingredient item0) ds
                 else ds,
                 m')
            | (None, m') => (n, ds, m')
            end).
    pose proof (removeCookedItem_itemAt m sid0 slot0 Hok) as [Hsome Hat].
    pose proof (stationsOk_removeCookedItem sid0 slot0 m Hok) as Hok'.
    assert (∀ m' sid slot,
              (∀ sid slot,
                 itemAt m' sid slot
                 = match itemAt m sid slot with
                   | Some item =>
                       if ci_isReady item
                          && bool_decide (sid = sid0 ∧ slot = slot0)
                       then None else Some item
                   | None => None
                   end) →
              match itemAt m' sid slot with
              | Some item =>
                  if ci_isReady item && bool_decide ((sid, slot) ∈ L.*1)
                  then None else Some item
              | None => None
              end
              = match itemAt m sid slot with
                | Some item =>
                    if ci_isReady item
                       && bool_decide
                            ((sid, slot) ∈ ((sid0, slot0, item0) :: L).*1)
                    then None else Some item
                | None => None
                end) as Hcompose.
    { intros m' sid slot Hm'. rewrite Hm'. csimpl.
      destruct (itemAt m sid slot) as [item|]; [| done].
      destruct (ci_isReady item) eqn:Hready; cbn [andb]; [| by rewrite Hready].
      case_bool_decide as Hd.
      - destruct Hd as [-> ->]. rewrite bool_decide_eq_true_2; [done | left].
      - rewrite Hready. cbn [andb].
        rewrite (bool_decide_ext ((sid, slot) ∈ (sid0, slot0) :: L.*1)
                   ((sid, slot) ∈ L.*1)); [done |].
        rewrite elem_of_cons. split; [| by right].
        intros [[= -> ->]|?]; [by destruct Hd | done]. }
    destruct (Manager.removeCookedItem sid0 slot0 m) as [[it|] m'];
      cbn [fst snd] in Hsome, Hat, Hok'.
    + destruct (IH (S n)
                  (if truthy (ci_ingredient item0)
                   then GameOps.markReady dishId (ci_ingredient item0) ds
                   else ds) m' Hok') as (Hle & _ & Hat').
      split; [exact (Nat.lt_le_incl _ _ Hle) |]. split; [intros; exact Hle |].
      intros sid slot. rewrite Hat'. by apply Hcompose.
    + destruct (IH n ds m' Hok') as (Hle & _ & Hat').
      split; [done |]. split.
      * intros sid slot item rest [= -> -> -> ->] Hex.
        apply Hsome in Hex. by destruct Hex.
      * intros sid slot. rewrite Hat'. by apply Hcompose.
Qed.

Lemma itemAt_onStation (sts : list (string * CookingStation))
  (key sid : string) (slot : nat) (f : CookingStation → CookingStation)
  (act cur act' cur' : option string) :
  (∀ st, st_currentItems (f st) = st_currentItems st) →
  itemAt (mkManager (Manager.onStation key f sts) act cur) sid slot
  = itemAt (mkManager sts act' cur') sid slot.
Proof.
  intros Hf. unfold itemAt, Manager.getStation. cbn [stations].
  rewrite get_onStation.
  destruct (JsMap.get sid sts); [| done]. cbn.
  destruct (decide (key = sid)); [by rewrite Hf | done].
Qed.

Lemma itemAt_setActiveDish m (dishId : string) (stationId : option string)
  (ds : DishSystem) (sid : string) (slot : nat) :
  itemAt (snd (Manager.setActiveDish dishId stationId ds m)) sid slot
  = itemAt m sid slot.
Proof.
  unfold Manager.setActiveDish.
  destruct (getDish dishId ds); [| done].
  cbv zeta. cbn [stations activeStation].
  destruct (JsMap.get _ (stations m)); [| done]. cbn [snd].
  rewrite (itemAt_onStation _ _ _ _ _ _ _ (activeStation m) (currentDish m))
    by done.
  destruct (activeStation m) as [prev|]; [| done].
  by rewrite (itemAt_onStation _ _ _ _ _ _ _ (activeStation m)
                (currentDish m)).
Qed.

(** X20.  Retrieving in a reachable game returns false, changing nothing,
    when no job is ready or no order is selected.  Otherwise it takes every
    ready job off its station at once and then, instead of returning true,
    throws the [TypeError] of its call to the undefined
    [updateAllStationDisplays]: in the state it leaves [getReadyItems] is
    empty, the jobs still cooking are in their slots as before, the prep
    station is the active one with the selected order's dish as current dish,
    and the orders are as they were. *)
Theorem retrieveCookedItems_outcome (t0 : Z) (cs : list Command) :
  let g := run (GameOps.create t0) cs in
  let m := cookingStationManager g in
  match Manager.getReadyItems m, Orders.getActiveOrder (orderSystem g) with
  | _ :: _, Some a =>
      ∃ g',
        GameOps.retrieveCookedItems g = (Throws TypeError, g')
        ∧ Manager.getReadyItems (cookingStationManager g') = []
        ∧ (∀ sid slot,
             itemAt (cookingStationManager g') sid slot
             = match itemAt m sid slot with
               | Some item => if ci_isReady item then None else Some item
               | None => None
               end)
        ∧ activeStation (cookingStationManager g') = Some "prep"
        ∧ currentDish (cookingStationManager g') = Some (order_dishId a)
        ∧ orderSystem g' = orderSystem g
        ∧ clock g' = clock g
  | _, _ => GameOps.retrieveCookedItems g = (Returns false, g)
  end.
Proof.
  intros g m. unfold GameOps.retrieveCookedItems. fold m.
  destruct (Manager.getReadyItems m) as [|[[sid0 slot0] item0] rest] eqn:HR;
    [done |].
  destruct (Orders.getActiveOrder (orderSystem g)) as [a|] eqn:Hactive;
    [| done].
  assert (reachable g) as Hreach by (by exists t0, cs).
  pose proof (stationsOk_reachable g Hreach) as Hok. fold m in Hok.
  pose proof (stationConfigs_run t0 cs) as Hconf. fold g m in Hconf.
  pose proof (stationsFiled_configs m t0 Hconf) as Hfiled.
  (* the dish of the selected order *)
  destruct (ordersOk_reachable g Hreach) as (Hnd & _ & _ & _).
  destruct (ordersKnown_run t0 cs) as [_ Hall]. fold g in Hall.
  destruct (active_order_facts (activeOrders (orderSystem g)) a)
    as (_ & Hget & _).
  { eapply Forall_impl; [exact Hall |]. by intros [k o] [Hk _]. }
  { done. }
  { done. }
  destruct (open_order_filed t0 cs _ _ Hget) as [_ [dish Hdish]].
  fold g in Hdish. rewrite Hdish.
  (* the loop *)
  pose proof (retrieve_fold (order_dishId a) ((sid0, slot0, item0) :: rest) 0
                (dishSystem g) m Hok) as (_ & Hpos & Hat).
  pose proof (stationsOk_retrieve (order_dishId a)
                ((sid0, slot0, item0) :: rest) 0 (dishSystem g) m Hok) as Hok'.
  pose proof (managerOps_retrieve (order_dishId a)
                ((sid0, slot0, item0) :: rest) 0 (dishSystem g) m) as Hops.
  pose proof (sameCatalog_retrieve (order_dishId a)
                ((sid0, slot0, item0) :: rest) 0 (dishSystem g) m) as Hcat.
  specialize (Hpos sid0 slot0 item0 rest eq_refl).
  destruct (fold_left _ _ _) as [[retrieved ds'] m'].
  cbn [fst snd] in Hpos, Hat, Hok', Hops, Hcat.
  assert (0 < retrieved) as Hretrieved.
  { apply Hpos. exists item0. apply getReadyItems_spec; [done | done |].
    rewrite HR. left. }
  destruct (Nat.ltb_spec 0 retrieved) as [_|?]; [| lia].
  apply stationConfigs_managerOps in Hops.
  (* the switch back to the prep station *)
  assert (is_Some (getDish (order_dishId a) ds')) as [dish' Hdish'].
  { pose proof (getDish_recipes (order_dishId a) ds') as H1.
    pose proof (getDish_recipes (order_dishId a) (dishSystem g)) as H2.
    destruct Hcat as (Hr & _). rewrite Hr, <- H2, Hdish in H1.
    by destruct (getDish (order_dishId a) ds'). }
  assert (is_Some (JsMap.get "prep" (stations m'))) as [prep Hprep].
  { pose proof (getStation_configs "prep" m') as H1.
    rewrite Hops, Hconf in H1.
    destruct (JsMap.get "prep" (stations m')); [done | by vm_compute in H1]. }
  pose proof (itemAt_setActiveDish m' (order_dishId a) (Some "prep") ds')
    as Hat''.
  pose proof (stationsOk_setActiveDish (order_dishId a) (Some "prep") ds' m'
                Hok') as Hok''.
  pose proof (stationConfigs_managerOp true _ _
                (mo_setActiveDish true (order_dishId a) (Some "prep") ds' m'))
    as Hconf''.
  assert (activeStation
            (snd (Manager.setActiveDish (order_dishId a) (Some "prep") ds' m'))
          = Some "prep"
          ∧ currentDish
              (snd (Manager.setActiveDish (order_dishId a) (Some "prep") ds'
                      m'))
            = Some (order_dishId a)) as [Hactive'' Hcurrent''].
  { unfold Manager.setActiveDish. rewrite Hdish'. cbn [truthy stations].
    by rewrite Hprep. }
  destruct (Manager.setActiveDish (order_dishId a) (Some "prep") ds' m')
    as [b m''].
  cbn [snd] in Hat'', Hok'', Hconf'', Hactive'', Hcurrent''.
  eexists. split; [reflexivity |].
  cbn [cookingStationManager orderSystem clock].
  assert (∀ sid slot,
            itemAt m'' sid slot
            = match itemAt m sid slot with
              | Some item => if ci_isReady item then None else Some item
              | None => None
              end) as Hjobs.
  { intros sid slot. rewrite Hat'', Hat.
    destruct (itemAt m sid slot) as [item|] eqn:Hitem; [| done].
    destruct (ci_isReady item) eqn:Hready; [| done]. cbn [andb].
    rewrite bool_decide_eq_true_2; [done |].
    rewrite <- HR.
    apply (list_elem_of_fmap_2 fst (Manager.getReadyItems m)
             (sid, slot, item)).
    by apply getReadyItems_spec. }
  split; [| done].
  assert (stationsFiled m'') as Hfiled''.
  { apply (stationsFiled_configs m'' t0). by rewrite Hconf'', Hops. }
  destruct (Manager.getReadyItems m'') as [|[[sid slot] item] l] eqn:HR'';
    [done |].
  assert ((sid, slot, item) ∈ Manager.getReadyItems m'') as Hin
    by (rewrite HR''; left).
  apply getReadyItems_spec in Hin as [Hitem Hready]; [| done | done].
  rewrite Hjobs in Hitem.
  destruct (itemAt m sid slot) as [item1|]; [| done].
  destruct (ci_isReady item1) eqn:Hready1; [done |].
  injection Hitem as ->. congruence.
Qed.

End RetrieveFacts.

(** ** The tools and ingredients offered for a dish *)

Section OfferFacts.
Import DishSystemOps.
Implicit Types (ds : DishSystem) (dish : Dish).

Lemma setAdd_elem (acc : list string) (a x : string) :
  x ∈ setAdd acc a ↔ x ∈ acc ∨ x = a.
Proof.
  unfold setAdd. case_bool_decide as Hin.
  - split; [by left |]. by intros [?| ->].
  - rewrite elem_of_app, list_elem_of_singleton. tauto.
Qed.

Lemma setAdd_NoDup (acc : list string) (a : string) :
  NoDup acc → NoDup (setAdd acc a).
Proof.
  intros Hnd. unfold setAdd. case_bool_decide as Hin; [done |].
  apply NoDup_app. split; [done |]. split; [| apply NoDup_singleton].
  intros x Hx ->%list_elem_of_singleton. done.
Qed.

Lemma addSteps_elem (steps : list Step) (acc : list string) (x : string) :
  x ∈ fold_left (λ acc step, setAdd acc (step_action step)) steps acc
  ↔ x ∈ acc ∨ x ∈ step_action <$> steps.
Proof.
  revert acc. induction steps as [|s steps IH]; intros acc; csimpl.
  - rewrite elem_of_nil. tauto.
  - rewrite IH, setAdd_elem, elem_of_cons. tauto.
Qed.

Lemma addSteps_NoDup (steps : list Step) (acc : list string) :
  NoDup acc →
  NoDup (fold_left (λ acc step, setAdd acc (step_action step)) steps acc).
Proof.
  revert acc. induction steps as [|s steps IH]; intros acc Hnd; [done |].
  cbn [fold_left]. by apply IH, setAdd_NoDup.
Qed.

Lemma addIngredients_elem (ings : list IngredientSpec) (acc : list string)
  (x : string) :
  x ∈ fold_left
        (λ acc ingredient,
           fold_left (λ acc step, setAdd acc (step_action step))
             (ing_prepSteps ingredient) acc)
        ings acc
  ↔ x ∈ acc
    ∨ ∃ ing, ing ∈ ings ∧ x ∈ step_action <$> ing_prepSteps ing.
Proof.
  revert acc. induction ings as [|ing ings IH]; intros acc; cbn [fold_left].
  - split; [by left |]. intros [?|(ing & Hin & _)]; [done |].
    by apply elem_of_nil in Hin.
  - rewrite IH, addSteps_elem. split.
    + intros [[?|?]|(ing' & Hin & Hx)].
      * by left.
      * right. exists ing. split; [left | done].
      * right. exists ing'. split; [by right | done].
    + intros [?|(ing' & [->|Hin]%elem_of_cons & Hx)].
      * by left; left.
      * by left; right.
      * right. by exists ing'.
Qed.

Lemma addIngredients_NoDup (ings : list IngredientSpec) (acc : list string) :
  NoDup acc →
  NoDup (fold_left
           (λ acc ingredient,
              fold_left (λ acc step, setAdd acc (step_action step))
                (ing_prepSteps ingredient) acc)
           ings acc).
Proof.
  revert acc. induction ings as [|ing ings IH]; intros acc Hnd; [done |].
  cbn [fold_left]. by apply IH, addSteps_NoDup.
Qed.

Lemma dishToolIds_elem dish (x : string) :
  x ∈ dishToolIds dish
  ↔ (∃ ing, ing ∈ dish_ingredients dish
            ∧ x ∈ step_action <$> ing_prepSteps ing)
    ∨ x ∈ step_action <$> dish_finalSteps dish.
Proof.
  unfold dishToolIds. cbv zeta.
  rewrite addSteps_elem, addIngredients_elem, elem_of_nil. tauto.
Qed.

(** X21.  The tools [getDishTools] offers for a dish are the actions of the
    steps of its recipe, each once.  They cover every tool that can do
    anything: a tool that [useToolOnDish] accepts is among them, and is
    listed with [used] false when the tool table knows it. *)
Theorem getDishTools_covers_useful_tools (dishId toolId : string) ds dish :
  getDish dishId ds = Some dish →
  NoDup (dishToolIds dish)
  ∧ (fst (useToolOnDish dishId toolId ds) = true → toolId ∈ dishToolIds dish)
  ∧ (∀ tool,
       toolId ∈ dishToolIds dish → getTool toolId ds = Some tool →
       mkDishTool tool false ∈ getDishTools dishId ds)
  ∧ (∀ entry,
       entry ∈ getDishTools dishId ds →
       dt_used entry = false
       ∧ ∃ id, id ∈ dishToolIds dish ∧ getTool id ds = Some (dt_tool entry)).
Proof.
  intros Hdish. split; [| split; [| split]].
  - unfold dishToolIds. cbv zeta.
    apply addSteps_NoDup, addIngredients_NoDup, NoDup_nil_2.
  - unfold useToolOnDish. rewrite Hdish, prepLoop_first_match.
    rewrite dishToolIds_elem.
    destruct (List.find (accepts toolId dish) (dish_ingredients dish))
      as [ing|] eqn:Hfind.
    + intros _. left. exists ing.
      apply find_some in Hfind as [Hin Hacc]. split; [by apply list_elem_of_In |].
      unfold accepts in Hacc.
      destruct (bool_decide _); [| done].
      destruct (ingredientStates dish !! ing_id ing) as [st|]; [| done].
      destruct (isReady st); [done |]. cbn in Hacc.
      destruct (ing_prepSteps ing !! prepStepsCompleted st) as [s|] eqn:Hs;
        [| done].
      apply String.eqb_eq in Hacc as <-.
      apply list_elem_of_fmap_2. by eapply list_elem_of_lookup_2.
    + destruct (dish_finalSteps dish !! finalStepsProgress dish) as [s|]
        eqn:Hs; [| done].
      destruct (String.eqb (step_action s) toolId) eqn:Heq; [| done].
      intros _. right. apply String.eqb_eq in Heq as <-.
      apply list_elem_of_fmap_2. by eapply list_elem_of_lookup_2.
  - intros tool Hin Htool. unfold getDishTools. rewrite Hdish.
    apply list_elem_of_omap. exists toolId. split; [done |]. by rewrite Htool.
  - intros entry. unfold getDishTools. rewrite Hdish.
    intros (id & Hin & Hentry)%list_elem_of_omap.
    destruct (getTool id ds) as [tool|] eqn:Htool; [| done].
    injection Hentry as <-. split; [done |]. by exists id.
Qed.

(** Mixing is the first final step of a pasta marinara. *)
Lemma getDishTools_covers_useful_tools_witness :
  ∃ dish,
    getDish "pasta_marinara" DishSystemOps.create = Some dish
    ∧ NoDup (dishToolIds dish)
    ∧ (fst (useToolOnDish "pasta_marinara" "mix" DishSystemOps.create) = true
       → "mix" ∈ dishToolIds dish)
    ∧ (∀ tool,
         "mix" ∈ dishToolIds dish →
         getTool "mix" DishSystemOps.create = Some tool →
         mkDishTool tool false
         ∈ getDishTools "pasta_marinara" DishSystemOps.create)
    ∧ (∀ entry,
         entry ∈ getDishTools "pasta_marinara" DishSystemOps.create →
         dt_used entry = false
         ∧ ∃ id, id ∈ dishToolIds dish
                 ∧ getTool id DishSystemOps.create = Some (dt_tool entry)).
Proof.
  eexists. split; [reflexivity |].
  apply (getDishTools_covers_useful_tools "pasta_marinara" "mix"
           DishSystemOps.create).
  reflexivity.
Defined.

(** Every ingredient of a recipe of the catalog is in the ingredient table,
    under its own id. *)
Lemma catalog_ingredients_known :
  Forall
    (λ kd,
       Forall
         (λ ing,
            ∃ item, getIngredient (ing_id ing) DishSystemOps.create = Some item
                    ∧ item_id item = ing_id ing)
         (dish_ingredients kd.2))
    (recipes DishSystemOps.create).
Proof.
  assert (forallb
            (λ kd : string * Dish,
               forallb
                 (λ ing,
                    match getIngredient (ing_id ing) DishSystemOps.create with
                    | Some item => String.eqb (item_id item) (ing_id ing)
                    | None => false
                    end)
                 (dish_ingredients kd.2))
            (recipes DishSystemOps.create) = true) as Hcheck
    by (vm_compute; reflexivity).
  apply Forall_forall. intros kd Hkd%list_elem_of_In.
  apply Forall_forall. intros ing Hing%list_elem_of_In.
  pose proof (proj1 (forallb_forall _ _) Hcheck kd Hkd) as Hkd'. cbn in Hkd'.
  pose proof (proj1 (forallb_forall _ _) Hkd' ing Hing) as Hing'. cbn in Hing'.
  destruct (getIngredient (ing_id ing) DishSystemOps.create) as [item|];
    [| done].
  exists item. split; [done |]. by apply String.eqb_eq.
Qed.

Lemma reachable_ingredients_known (t0 : Z) (cs : list Command)
  (dishId : string) dish :
  getDish dishId (dishSystem (run (GameOps.create t0) cs)) = Some dish →
  Forall
    (λ ing,
       ∃ item,
         getIngredient (ing_id ing) (dishSystem (run (GameOps.create t0) cs))
         = Some item
         ∧ item_id item = ing_id ing)
    (dish_ingredients dish).
Proof.
  intros Hdish.
  pose proof (sameCatalog_run (GameOps.create t0) cs) as (Hr & Hi & _).
  change (dishSystem (GameOps.create t0)) with DishSystemOps.create in Hr, Hi.
  pose proof (getDish_recipes dishId
                (dishSystem (run (GameOps.create t0) cs))) as Hrec.
  rewrite Hdish, Hr in Hrec. cbn in Hrec. symmetry in Hrec.
  pose proof (jsmap_Forall_get _ _ _ _ catalog_ingredients_known Hrec)
    as Hall.
  cbn in Hall. unfold getIngredient in *. by rewrite Hi.
Qed.

Lemma omap_length_total {A B : Type} (f : A → option B) (l : list A) :
  Forall (λ x, is_Some (f x)) l → length (omap f l) = length l.
Proof.
  induction 1 as [|x l [y Hy] _ IH]; [done |]. csimpl. rewrite Hy. cbn.
  by rewrite IH.
Qed.

(** X22.  In a reachable game [getDishIngredients] lists every ingredient of
    the dish's recipe, none being dropped for want of its data, and an
    ingredient can be added to the dish exactly when the list shows it as not
    yet added. *)
Theorem getDishIngredients_shows_addable (t0 : Z) (cs : list Command)
  (dishId ingredientId : string) :
  let ds := dishSystem (run (GameOps.create t0) cs) in
  (fst (addIngredientToDish dishId ingredientId ds) = true
   ↔ ∃ entry, entry ∈ getDishIngredients dishId ds
              ∧ item_id (di_item entry) = ingredientId
              ∧ di_added entry = false)
  ∧ length (getDishIngredients dishId ds)
    = match getDish dishId ds with
      | Some dish => length (dish_ingredients dish)
      | None => 0
      end.
Proof.
  intros ds. unfold addIngredientToDish, getDishIngredients.
  destruct (getDish dishId ds) as [dish|] eqn:Hdish.
  2:{ split; [| done]. split; [done |]. intros (e & He & _).
      by apply elem_of_nil in He. }
  pose proof (reachable_ingredients_known t0 cs dishId dish Hdish) as Hknown.
  fold ds in Hknown. split.
  - split.
    + destruct (List.find _ (dish_ingredients dish)) as [ing|] eqn:Hfind;
        [| done].
      case_bool_decide as Hcur; [done |]. intros _.
      apply find_some in Hfind as [Hin Hid]. apply String.eqb_eq in Hid.
      apply list_elem_of_In in Hin.
      destruct (proj1 (Forall_forall _ _) Hknown ing Hin) as (item & Hitem & Hi).
      exists (mkDishIngredient item (ing_required ing) (ing_prepSteps ing)
                (bool_decide (ing_id ing ∈ currentIngredients dish))).
      split; [| split].
      * apply list_elem_of_omap. exists ing. split; [done |]. by rewrite Hitem.
      * cbn. congruence.
      * cbn. rewrite bool_decide_eq_false_2; [done | by rewrite Hid].
    + intros (entry & (ing & Hin & Hentry)%list_elem_of_omap & Hid & Hadded).
      destruct (proj1 (Forall_forall _ _) Hknown ing Hin) as (item & Hitem & Hi).
      rewrite Hitem in Hentry. injection Hentry as <-. cbn in Hid, Hadded.
      assert (ing_id ing = ingredientId) as Hing by congruence.
      destruct (List.find _ (dish_ingredients dish)) as [ing'|] eqn:Hfind.
      * rewrite bool_decide_eq_false_2; [done |].
        rewrite <- Hing. by apply (bool_decide_eq_false_1 _).
      * apply list_elem_of_In in Hin.
        pose proof (find_none _ _ Hfind ing Hin) as Hno. cbn in Hno.
        apply String.eqb_neq in Hno. done.
  - apply omap_length_total. eapply Forall_impl; [exact Hknown |].
    intros ing (item & -> & _). by eexists.
Qed.

End OfferFacts.

(** ** The time limits of spawned orders *)

Section LimitFacts.
Import DishSystemOps.
Implicit Types (g : Game) (os : OrderSystem).

Lemma catalog_difficulties :
  Forall (λ d, (2 ≤ dish_difficulty d ≤ 3)%Z)
    (getAllDishes DishSystemOps.create).
Proof.
  set (l := getAllDishes DishSystemOps.create). vm_compute in l. subst l.
  repeat (apply Forall_cons; split; [cbn; lia |]). apply Forall_nil_2.
Qed.

Lemma picked_dish_difficulty (ds : DishSystem) (pick : nat) (d : Dish) :
  sameCatalog ds DishSystemOps.create → getAllDishes ds !! pick = Some d →
  (2 ≤ dish_difficulty d ≤ 3)%Z.
Proof.
  intros (Hr & _) Hpick.
  assert (getAllDishes DishSystemOps.create !! pick = Some (recipeOf d))
    as Hpick0.
  { assert (recipes DishSystemOps.create = dishes DishSystemOps.create) as H0
      by reflexivity.
    unfold getAllDishes at 1. rewrite <- H0, <- Hr.
    fold (JsMap.values (recipes ds)). rewrite <- getAllDishes_recipes.
    by rewrite list_lookup_fmap, Hpick. }
  apply list_elem_of_lookup_2 in Hpick0.
  exact (proj1 (Forall_forall _ _) catalog_difficulties _ Hpick0).
Qed.

Lemma limitOk_spawnOrder (now : Z) (newId : string) (pick : nat) (jitter : Q)
  (ds : DishSystem) os :
  sameCatalog ds DishSystemOps.create →
  Qle_bool 0 jitter && negb (Qle_bool 20 jitter) = true →
  Forall (λ kv, limitOk kv.2) (activeOrders os) →
  Forall (λ kv, limitOk kv.2)
    (activeOrders (snd (Orders.spawnOrder now newId pick jitter ds os))).
Proof.
  intros Hcat [Hlo Hhi]%andb_true_iff Hall. unfold Orders.spawnOrder.
  destruct (Nat.leb _ _); [done |].
  destruct (getAllDishes ds !! pick) as [d|] eqn:Hpick; [| done].
  cbn [snd activeOrders Orders.withOrders].
  apply jsmap_Forall_set; [done |].
  pose proof (picked_dish_difficulty ds pick d Hcat Hpick) as Hd.
  apply Qle_bool_iff in Hlo.
  assert (jitter < 20)%Q as Hhi'.
  { apply Qnot_le_lt. intros Hle%Qle_bool_iff. by rewrite Hle in Hhi. }
  unfold limitOk, Orders.newOrder. cbn [snd order_timeLimit].
  assert (dish_difficulty d = 2 ∨ dish_difficulty d = 3)%Z as [-> | ->]
    by lia.
  - change (inject_Z (2 * 10)) with 20%Q.
    destruct (roundDouble_between (45 + 20 + jitter) 65 85) as [Hs1 Hs2];
      [done | change (inject_Z 65) with 65%Q; lra
       | change (inject_Z 85) with 85%Q; lra | done |].
    set (seconds := JsNumber.roundDouble (45 + 20 + jitter)) in *.
    change (inject_Z 65) with 65%Q in Hs1.
    change (inject_Z 85) with 85%Q in Hs2.
    destruct (roundDouble_between (seconds * 1000) 65000 85000) as [Hl1 Hl2];
      [done | change (inject_Z 65000) with 65000%Q; lra
       | change (inject_Z 85000) with 85000%Q; lra | done |].
    change (inject_Z 65000) with 65000%Q in Hl1.
    change (inject_Z 85000) with 85000%Q in Hl2. split; lra.
  - change (inject_Z (3 * 10)) with 30%Q.
    destruct (roundDouble_between (45 + 30 + jitter) 75 95) as [Hs1 Hs2];
      [done | change (inject_Z 75) with 75%Q; lra
       | change (inject_Z 95) with 95%Q; lra | done |].
    set (seconds := JsNumber.roundDouble (45 + 30 + jitter)) in *.
    change (inject_Z 75) with 75%Q in Hs1.
    change (inject_Z 95) with 95%Q in Hs2.
    destruct (roundDouble_between (seconds * 1000) 75000 95000) as [Hl1 Hl2];
      [done | change (inject_Z 75000) with 75000%Q; lra
       | change (inject_Z 95000) with 95000%Q; lra | done |].
    change (inject_Z 75000) with 75000%Q in Hl1.
    change (inject_Z 95000) with 95000%Q in Hl2. split; lra.
Qed.

Lemma limitOk_step g (c : Command) :
  jitterOk c = true →
  sameCatalog (dishSystem g) DishSystemOps.create →
  Forall (λ kv, limitOk kv.2) (activeOrders (orderSystem g)) →
  Forall (λ kv, limitOk kv.2) (activeOrders (orderSystem (step g c))).
Proof.
  intros Hjit Hcat Hall.
  assert (∀ orderId,
            Forall (λ kv, limitOk kv.2)
              (activeOrders (snd (Orders.selectOrder orderId (orderSystem g)))))
    as Hselect.
  { intros orderId. unfold Orders.selectOrder.
    destruct (JsMap.get orderId (activeOrders (orderSystem g))) as [order|]
      eqn:Hget; [| done].
    cbn [snd activeOrders Orders.withOrders].
    apply jsmap_Forall_set; [by apply demote_Forall |].
    exact (jsmap_Forall_get _ _ _ _ Hall Hget). }
  destruct c; cbn [step jitterOk] in *.
  - unfold GameOps.startGame. destruct (isRunning g); [done |].
    pose proof (limitOk_spawnOrder (clock g) newId pick jitter (dishSystem g)
                  (Orders.withRunning (orderSystem g) true) Hcat Hjit Hall)
      as Hspawn.
    by destruct (Orders.spawnOrder _ _ _ _ _ _).
  - unfold GameOps.pauseGame. by destruct (negb (isRunning g)).
  - apply Forall_nil_2.
  - unfold GameOps.spawnTimer. case_match; [| done].
    by apply limitOk_spawnOrder.
  - unfold GameOps.orderTimer.
    destruct (JsMap.get orderId (activeOrders (orderSystem g))) as [order|]
      eqn:Hget; [| done].
    destruct (order_isComplete order); [done |].
    destruct (Z.ltb 0 _); [done |].
    unfold Orders.expireOrder. rewrite Hget. cbn [snd activeOrders].
    by apply jsmap_Forall_delete.
  - done.
  - apply Hselect.
  - unfold GameOps.selectOrder. specialize (Hselect orderId).
    destruct (Orders.selectOrder orderId (orderSystem g)) as [[o|] os'];
      [| done].
    by destruct (Manager.setActiveDish _ _ _ _).
  - unfold GameOps.addIngredient. by destruct (addIngredientToDish _ _ _).
  - unfold GameOps.useTool. repeat case_match; done.
  - unfold GameOps.serveDish.
    destruct (Orders.getActiveOrder (orderSystem g)) as [o|]; [| done].
    destruct (getDish _ _); [| done].
    destruct (isDishValid _ _); [| done]. cbn [negb].
    unfold Orders.completeOrder.
    destruct (JsMap.get _ _); [| by destruct (resetDish _ _)].
    destruct (Orders.rate _ _ _). destruct (resetDish _ _).
    cbn [snd activeOrders orderSystem]. by apply jsmap_Forall_delete.
  - unfold GameOps.cancelCurrentDish.
    destruct (Orders.getActiveOrder (orderSystem g)); [| done].
    destruct (resetDish _ _). cbn [orderSystem activeOrders Orders.withOrders].
    by apply demote_Forall.
  - unfold GameOps.retrieveCookedItems. repeat case_match; done.
  - done.
Qed.

(** X23.  While the random term of each spawn lies in [[0, 20)], as
    [Math.random() * 20] does, every open order of a game has a time limit of
    at least 65 and at most 95 seconds: the 45 seconds of [spawnOrder], ten
    for each point of the dish's difficulty, which the catalog sets to 2 or
    3, and the random term, the sum being rounded.  In particular no open
    order has a time limit of zero. *)
Theorem open_orders_time_limit (t0 : Z) (cs : list Command) :
  Forall (λ c, jitterOk c = true) cs →
  Forall (λ kv, limitOk kv.2 ∧ (0 < order_timeLimit kv.2)%Q)
    (activeOrders (orderSystem (run (GameOps.create t0) cs))).
Proof.
  intros Hcs.
  assert (Forall (λ kv, limitOk kv.2)
            (activeOrders (orderSystem (run (GameOps.create t0) cs)))) as Hall.
  { induction cs as [|c cs IH] using rev_ind; [apply Forall_nil_2 |].
    apply Forall_app in Hcs as [Hcs Hc].
    apply (proj1 (Forall_singleton _ _)) in Hc.
    rewrite run_snoc. apply limitOk_step; [exact Hc | | by apply IH].
    exact (sameCatalog_run (GameOps.create t0) cs). }
  eapply Forall_impl; [exact Hall |].
  intros [k o] [Hlo Hhi]. cbn in *. split; [done | lra].
Qed.

(** The upper bound is reached.  The largest random term,
    [(1 - 2^-52) * 20 = 20 - 2^-48], added to the 75 seconds of a dish of
    difficulty 3 rounds to 95 seconds. *)
Lemma time_limit_reaches_95 :
  let jitter := (5629499534213119 # 281474976710656)%Q in
  jitterOk (StartGame "order_1" 1 jitter) = true
  ∧ (order_timeLimit
       <$> JsMap.get "order_1"
             (activeOrders
                (orderSystem
                   (run (GameOps.create 0) [StartGame "order_1" 1 jitter]))))
    = Some 95000%Q.
Proof. split; vm_compute; reflexivity. Qed.

(** A game that has spawned three orders. *)
Lemma open_orders_time_limit_witness :
  Forall (λ c, jitterOk c = true)
    [StartGame "order_1" 0 10; Elapse 10000; SpawnTimer "order_2" 1 0;
     Elapse 10000; SpawnTimer "order_3" 2 (39 # 2)]
  ∧ Forall (λ kv, limitOk kv.2 ∧ (0 < order_timeLimit kv.2)%Q)
      (activeOrders
         (orderSystem
            (run (GameOps.create 0)
               [StartGame "order_1" 0 10; Elapse 10000;
                SpawnTimer "order_2" 1 0; Elapse 10000;
                SpawnTimer "order_3" 2 (39 # 2)]))).
Proof.
  split; [by repeat constructor |].
  apply (open_orders_time_limit 0). by repeat constructor.
Defined.

End LimitFacts.

(** ** The highlighted station *)

Section HighlightFacts.
Implicit Types (m : CookingStationManager).

(** Replacing a station by one with the same highlight. *)
Lemma highlightOk_set m (sid : string) (st st' : CookingStation) :
  JsMap.get sid (stations m) = Some st → st_isActive st' = st_isActive st →
  highlightOk m →
  highlightOk
    (mkManager (JsMap.set sid st' (stations m)) (activeStation m)
       (currentDish m)).
Proof.
  intros Hst Hflag [Hall Hcur]. split; [| done].
  intros sid'. specialize (Hall sid').
  unfold Manager.getStation in *. cbn [stations activeStation].
  destruct (decide (sid = sid')) as [<-|Hne].
  - rewrite jsmap_get_set_eq. rewrite Hst in Hall. congruence.
  - by rewrite jsmap_get_set_ne.
Qed.

Lemma highlightOk_onStation m (sid : string)
  (f : CookingStation → CookingStation) :
  (∀ st, st_isActive (f st) = st_isActive st) →
  highlightOk m →
  highlightOk
    (mkManager (Manager.onStation sid f (stations m)) (activeStation m)
       (currentDish m)).
Proof.
  intros Hf Hok. unfold Manager.onStation.
  destruct (JsMap.get sid (stations m)) as [st|] eqn:Hst.
  - by apply (highlightOk_set m sid st).
  - by destruct m.
Qed.

Lemma highlightOk_managerOp r m m' :
  managerOp r m m' → highlightOk m → highlightOk m'.
Proof.
  destruct 1 as [r dishId stationId ds m | r m
    | r now action ingredient ds m | r sid slot m | sid slot m];
    intros Hok.
  - unfold Manager.setActiveDish.
    destruct (DishSystemOps.getDish dishId ds) as [dish|].
    2:{ destruct Hok as [Hall Hcur]. split; [done | by eexists]. }
    cbv zeta. cbn [stations activeStation].
    set (target := match stationId with
                   | Some s => if truthy s then s else dish_station dish
                   | None => dish_station dish
                   end).
    destruct (JsMap.get target (stations m)) as [tst|] eqn:Htarget.
    2:{ destruct Hok as [Hall Hcur]. split; [done | by eexists]. }
    destruct Hok as [Hall _]. cbn [snd]. split; [| by eexists].
    intros sid. unfold Manager.getStation. cbn [stations activeStation].
    rewrite get_onStation.
    assert (JsMap.get sid
              match activeStation m with
              | Some prev =>
                  Manager.onStation prev Station.deactivate (stations m)
              | None => stations m
              end
            = (if bool_decide (activeStation m = Some sid)
               then Station.deactivate else id)
                <$> JsMap.get sid (stations m)) as ->.
    { destruct (activeStation m) as [prev|].
      - rewrite get_onStation. destruct (decide (prev = sid)) as [->|Hne].
        + by rewrite bool_decide_eq_true_2.
        + rewrite bool_decide_eq_false_2; [done | congruence].
      - rewrite bool_decide_eq_false_2 by done.
        by destruct (JsMap.get sid (stations m)). }
    specialize (Hall sid). unfold Manager.getStation in Hall.
    destruct (decide (target = sid)) as [<-|Hne].
    + rewrite Htarget. cbn. by rewrite bool_decide_eq_true_2.
    + destruct (JsMap.get sid (stations m)) as [st|]; cbn; [| congruence].
      rewrite (bool_decide_eq_false_2 (Some target = Some sid))
        by congruence.
      revert Hall.
      destruct (bool_decide (activeStation m = Some sid));
        [done | intros Hall; exact Hall].
  - destruct Hok as [Hall _]. unfold Manager.clearCurrentDish.
    split; [| by intros [? ?]].
    intros sid. specialize (Hall sid).
    unfold Manager.getStation in *. cbn [stations activeStation].
    rewrite (bool_decide_eq_false_2 (None = Some sid)) by done.
    destruct (activeStation m) as [prev|].
    + rewrite get_onStation.
      destruct (JsMap.get sid (stations m)) as [st|]; cbn; [| done].
      destruct (decide (prev = sid)) as [->|Hne]; [done |].
      by rewrite bool_decide_eq_false_2 in Hall by congruence.
    + destruct (JsMap.get sid (stations m)) as [st|]; [| done].
      by rewrite bool_decide_eq_false_2 in Hall by done.
  - unfold Manager.handleCookingAction.
    destruct (activeStation m) as [sid|] eqn:Hact; [| done].
    destruct (currentDish m) as [dishId|] eqn:Hcur; [| done].
    destruct (negb (truthy dishId)); [done |].
    destruct (JsMap.get sid (stations m)) as [station|] eqn:Hst; [| done].
    destruct (DishSystemOps.getDish dishId ds) as [dish|]; [| done].
    destruct (negb _); [done |].
    destruct (Nat.ltb 1 _); [| done].
    destruct (Station.getNextAvailableSlot station) as [slot|]; [| done].
    cbv zeta.
    destruct (Station.addItem _ _ _ _ _ _ _) as [ok station'] eqn:Hadd.
    cbn [snd]. rewrite <- Hact, <- Hcur.
    apply (highlightOk_set m _ station); [done | | done].
    unfold Station.addItem in Hadd.
    destruct (Nat.leb _ _); by injection Hadd as <- <-.
  - apply highlightOk_onStation; [| done].
    intros st. unfold Station.cookingTimer. by destruct (JsMap.get _ _).
  - unfold Manager.removeCookedItem.
    destruct (JsMap.get sid (stations m)) as [station|] eqn:Hst; [| done].
    destruct (JsMap.get slot (st_currentItems station)); [| done].
    destruct (negb _); [done |]. cbn [Station.removeItem snd].
    by apply (highlightOk_set m sid station).
Qed.

Lemma highlightOk_run (t0 : Z) (cs : list Command) :
  highlightOk (cookingStationManager (run (GameOps.create t0) cs)).
Proof.
  apply (run_invariant (λ g, highlightOk (cookingStationManager g))).
  - split; [| by intros [? ?]]. intros sid.
    unfold Manager.getStation. cbn [activeStation GameOps.create
      cookingStationManager Manager.initializeStations Manager.create].
    rewrite bool_decide_eq_false_2 by done.
    set (sts := stations _). vm_compute in sts. subst sts.
    cbn [JsMap.get].
    repeat (destruct (decide _); [done |]). done.
  - intros g c Hok. pose proof (step_managerOps g c) as Hops.
    induction Hops as [|m1 m2 m3 _ IH Hop]; [done |].
    by apply (highlightOk_managerOp _ _ _ Hop), IH.
Qed.

(** X24.  In every reachable game the highlight follows the active station:
    a station is highlighted exactly when it is the active one, so at most
    one station is highlighted; the active station is one of the game's
    stations; and a station is active only while a dish is current. *)
Theorem highlight_follows_active_station (t0 : Z) (cs : list Command) :
  let m := cookingStationManager (run (GameOps.create t0) cs) in
  (∀ sid,
     match Manager.getStation sid m with
     | Some st => st_isActive st = bool_decide (activeStation m = Some sid)
     | None => activeStation m ≠ Some sid
     end)
  ∧ (∀ sid1 sid2 st1 st2,
       Manager.getStation sid1 m = Some st1 → st_isActive st1 = true →
       Manager.getStation sid2 m = Some st2 → st_isActive st2 = true →
       sid1 = sid2)
  ∧ (is_Some (activeStation m) → is_Some (currentDish m)).
Proof.
  intros m. destruct (highlightOk_run t0 cs) as [Hall Hcur]. fold m in Hall, Hcur.
  split; [done |]. split; [| done].
  intros sid1 sid2 st1 st2 H1 Ha1 H2 Ha2.
  pose proof (Hall sid1) as Hs1. pose proof (Hall sid2) as Hs2.
  rewrite H1 in Hs1. rewrite H2 in Hs2.
  rewrite Ha1 in Hs1. rewrite Ha2 in Hs2.
  symmetry in Hs1, Hs2.
  apply bool_decide_eq_true_1 in Hs1. apply bool_decide_eq_true_1 in Hs2.
  congruence.
Qed.

End HighlightFacts.
